(** * Virtualboy: spatial index, scroll coordinate engine and lifecycle manager

    A shallow embedding of class [KDTree] ([src/kdTree.ts]) and of
    class [Virtualboy] in the revision that caps the scroll surface
    ([MAX_SCROLL_HEIGHT], [MAX_SCROLL_WIDTH]) and queues the visibility
    refresh ([updateQueued]); [src/virtualboy.ts] holds an earlier
    revision without either.  [measureElement] and
    [getElementDimensions] of [src/measure.ts] are embedded in module
    [Measure].

    Numbers.  JavaScript numbers are modelled as rationals [Q]: the
    code only adds, subtracts, multiplies, divides (behind a guard on
    the divisor) and compares them.  Rounding, [NaN] and the infinities
    of IEEE doubles are outside the model.

    Objects.  Host nodes and tracked items are mutable objects that
    several owners refer to; each kind lives in a store and is referred
    to by address, so that a write through one reference is seen
    through the others. *)

From Stdlib Require Import QArith Qminmax Lqa.
From Stdlib Require Import List String Bool Arith Lia DecimalString DecimalNat Permutation.
Import ListNotations.

Open Scope Q_scope.

(** ** JavaScript comparisons on numbers *)

Definition Qltb (a b : Q) : bool := negb (Qle_bool b a).   (* a <  b *)
Definition Qleb (a b : Q) : bool := Qle_bool a b.          (* a <= b *)
Definition Qgtb (a b : Q) : bool := Qltb b a.              (* a >  b *)
Definition Qgeb (a b : Q) : bool := Qle_bool b a.          (* a >= b *)

(** [Math.max] and [Math.min] on two numbers. *)
Definition Math_max (a b : Q) : Q := if Qltb a b then b else a.
Definition Math_min (a b : Q) : Q := if Qltb b a then b else a.

(** ** Data model ([src/types.ts]) *)

Module Rect.
Record t : Type := mk { x : Q; y : Q; width : Q; height : Q }.
End Rect.
Definition Rect : Type := Rect.t.

(** A host node is referred to by its address in the host's node store. *)
Definition NodeRef : Type := nat.

Module VirtualElement.
Record t : Type := mk {
    id : string;
    element : NodeRef;
    rect : Rect;
    isVisible : bool;
    originalDisplay : string
  }.
End VirtualElement.
Definition VirtualElement : Type := VirtualElement.t.

(** ** The spatial index ([class KDTree]) *)

Module KDTree.

Inductive KDNode (E : Type) : Type :=
| Null : KDNode E
| Node (element : E) (axis : nat) (left right : KDNode E) : KDNode E.
Arguments Null {E}.
Arguments Node {E} element axis left right.

Section Tree.
  (** The tree only reads [element.rect] and [element.id].  [E] is what
      a node holds: a [VirtualElement] value when the tree is used on
      its own, a reference into the manager's object store when the
      manager shares its items with the tree. *)
Context {E : Type}.
Variable rectOf : E -> Rect.
Variable idOf : E -> string.

  (** [rect.x] when [axis === 0], [rect.y] otherwise. *)
Definition coord (axis : nat) (e : E) : Q :=
    if (axis =? 0)%nat then Rect.x (rectOf e) else Rect.y (rectOf e).

Fixpoint insertNode (node : KDNode E) (element : E) (depth : nat) : KDNode E :=
    match node with
    | Null => Node element (depth mod 2) Null Null
    | Node nelement naxis nleft nright =>
        let axis := (depth mod 2)%nat in
        let currentCoord := coord axis nelement in
        let elementCoord := coord axis element in
        if Qltb elementCoord currentCoord
        then Node nelement naxis (insertNode nleft element (depth + 1)) nright
        else Node nelement naxis nleft (insertNode nright element (depth + 1))
    end.

Definition insert (root : KDNode E) (element : E) : KDNode E :=
    insertNode root element 0.

Definition intersects (rect1 rect2 : Rect) : bool :=
    negb (Qgeb (Rect.x rect2) (Rect.x rect1 + Rect.width rect1)
          || Qleb (Rect.x rect2 + Rect.width rect2) (Rect.x rect1)
          || Qgeb (Rect.y rect2) (Rect.y rect1 + Rect.height rect1)
          || Qleb (Rect.y rect2 + Rect.height rect2) (Rect.y rect1)).

Definition contains (rect : Rect) (px py : Q) : bool :=
    Qgeb px (Rect.x rect) && Qleb px (Rect.x rect + Rect.width rect)
    && Qgeb py (Rect.y rect) && Qleb py (Rect.y rect + Rect.height rect).

  (** [results] is the array the source pushes to; the function returns
      it as it is after the call.  The source descends into [node.left]
      under [queryMinCoord < nodeCoord] and then again under
      [queryMinCoord <= nodeCoord]: both statements are live code. *)
Fixpoint queryRangeNode (node : KDNode E) (queryRect : Rect) (results : list E)
    : list E :=
    match node with
    | Null => results
    | Node nelement naxis nleft nright =>
        let results :=
          if intersects (rectOf nelement) queryRect
          then results ++ [nelement] else results in
        let nodeCoord := coord naxis nelement in
        let queryMinCoord :=
          if (naxis =? 0)%nat then Rect.x queryRect else Rect.y queryRect in
        let queryMaxCoord :=
          if (naxis =? 0)%nat then Rect.x queryRect + Rect.width queryRect
          else Rect.y queryRect + Rect.height queryRect in
        let results :=
          if Qltb queryMinCoord nodeCoord
          then queryRangeNode nleft queryRect results else results in
        let results :=
          if Qleb queryMinCoord nodeCoord
          then queryRangeNode nleft queryRect results else results in
        if Qgeb queryMaxCoord nodeCoord
        then queryRangeNode nright queryRect results else results
    end.

Definition queryRange (root : KDNode E) (queryRect : Rect) : list E :=
    queryRangeNode root queryRect [].

Definition queryPoint (root : KDNode E) (px py : Q) : list E :=
    let pointRect := Rect.mk px py 1 1 in
    let rangeResults := queryRange root pointRect in
    filter (fun el => contains (rectOf el) px py) rangeResults.

  (** [findMinNode] is only called on a node that is not [null]; on
      [Null] the model returns [Null]. *)
Fixpoint findMinNode (node : KDNode E) (axisToMinimize currentDepth : nat)
    : KDNode E :=
    match node with
    | Null => Null
    | Node nelement naxis nleft nright =>
        let currentSplitAxis := (currentDepth mod 2)%nat in
        if (currentSplitAxis =? axisToMinimize)%nat then
          match nleft with
          | Null => node
          | Node _ _ _ _ =>
              match findMinNode nleft axisToMinimize (currentDepth + 1) with
              | Null => node
              | Node lelement _ _ _ as leftMin =>
                  let nodeVal := coord axisToMinimize nelement in
                  let leftMinVal := coord axisToMinimize lelement in
                  if Qltb leftMinVal nodeVal then leftMin else node
              end
          end
        else
          let minCandidateNode :=
            match nleft with
            | Null => node
            | Node _ _ _ _ =>
                match findMinNode nleft axisToMinimize (currentDepth + 1) with
                | Null => node
                | Node lelement _ _ _ as leftSubtreeMin =>
                    if Qltb (coord axisToMinimize lelement)
                            (coord axisToMinimize nelement)
                    then leftSubtreeMin else node
                end
            end in
          match nright with
          | Null => minCandidateNode
          | Node _ _ _ _ =>
              match findMinNode nright axisToMinimize (currentDepth + 1),
                    minCandidateNode with
              | Node relement _ _ _ as rightSubtreeMin, Node celement _ _ _ =>
                  if Qltb (coord axisToMinimize relement)
                          (coord axisToMinimize celement)
                  then rightSubtreeMin else minCandidateNode
              | _, _ => minCandidateNode
              end
          end
    end.

Fixpoint removeNode (node : KDNode E) (elementToRemove : E) (depth : nat)
    : KDNode E :=
    match node with
    | Null => Null
    | Node nelement naxis nleft nright =>
        let axis := (depth mod 2)%nat in
        if String.eqb (idOf nelement) (idOf elementToRemove) then
          match nright, nleft with
          | Null, _ => nleft
          | _, Null => nright
          | _, _ =>
              match findMinNode nright axis (depth + 1) with
              | Null => node
              | Node relement _ _ _ =>
                  Node relement naxis nleft (removeNode nright relement (depth + 1))
              end
          end
        else
          let nodeCoord := coord axis nelement in
          let elementToRemoveCoord := coord axis elementToRemove in
          if Qltb elementToRemoveCoord nodeCoord
          then Node nelement naxis (removeNode nleft elementToRemove (depth + 1)) nright
          else Node nelement naxis nleft (removeNode nright elementToRemove (depth + 1))
    end.

  (** [remove] first rejects a missing element or a [null] id; an [E]
      always has an id here, so that guard never fires. *)
Definition remove (root : KDNode E) (element : E) : KDNode E :=
    removeNode root element 0.

  (** The elements held by a tree, node first. *)
Fixpoint elements (node : KDNode E) : list E :=
    match node with
    | Null => []
    | Node e _ l r => e :: elements l ++ elements r
    end.

End Tree.

End KDTree.

(** ** Containers of the manager

    [Map<string, V>] and [Set<string>] iterate in insertion order, and
    [remeasure] re-stacks the items in that order, so both are kept as
    lists: a map as an association list with at most one entry per key,
    a set as a list without repetition. *)

Module JsMap.
Section Ops.
Context {V : Type}.

Fixpoint get (m : list (string * V)) (k : string) : option V :=
    match m with
    | [] => None
    | (k', v) :: m' => if String.eqb k' k then Some v else get m' k
    end.

Definition has (m : list (string * V)) (k : string) : bool :=
    match get m k with Some _ => true | None => false end.

  (** An existing key keeps its place; a new key goes last. *)
Fixpoint set (m : list (string * V)) (k : string) (v : V) : list (string * V) :=
    match m with
    | [] => [(k, v)]
    | (k', v') :: m' =>
        if String.eqb k' k then (k, v) :: m' else (k', v') :: set m' k v
    end.

Definition delete (m : list (string * V)) (k : string) : list (string * V) :=
    filter (fun kv => negb (String.eqb (fst kv) k)) m.

Definition values (m : list (string * V)) : list V := map snd m.
End Ops.
End JsMap.

Module JsSet.
Definition has (s : list string) (k : string) : bool :=
    existsb (String.eqb k) s.

Definition add (s : list string) (k : string) : list string :=
    if has s k then s else s ++ [k].

Definition delete (s : list string) (k : string) : list string :=
    filter (fun k' => negb (String.eqb k' k)) s.
End JsSet.

(** ** The scroll coordinate engine

    [handleScroll] and [remeasure] spell the same statements out once
    per axis, with [MAX_SCROLL_HEIGHT], [clientHeight], [scrollTop] on
    the vertical axis and [MAX_SCROLL_WIDTH], [clientWidth],
    [scrollLeft] on the horizontal one.  The definitions below take the
    axis' quantities as arguments and are used for both. *)

Module Scroll.

Definition MAX_SCROLL_HEIGHT : Q := 1000000.
Definition MAX_SCROLL_WIDTH : Q := 1000000.

(** [handleScroll], the branch that assigns [virtualScrollTop] (or
    [virtualScrollLeft]) from the host's scroll offset. *)
Definition mapScroll (MAX_SCROLL totalVirtual parentClient parentScroll : Q) : Q :=
  if Qleb totalVirtual MAX_SCROLL then parentScroll
  else
    let sizerEffective := MAX_SCROLL in
    let maxScrollForSizer := sizerEffective - parentClient in
    if Qleb maxScrollForSizer 0 then 0
    else
      let currentScrollForSizer := parentScroll in
      let scrollPercentage :=
        if Qgtb maxScrollForSizer 0
        then currentScrollForSizer / maxScrollForSizer else 0 in
      let scrollPercentage := Math_max 0 (Math_min 1 scrollPercentage) in
      let maxVirtualScroll := totalVirtual - parentClient in
      scrollPercentage * (if Qgtb maxVirtualScroll 0 then maxVirtualScroll else 0).

(** [handleScroll], the two clamping statements that follow the branch. *)
Definition clampVirtualScroll (totalVirtual parentClient virtualScroll : Q) : Q :=
  let virtualScroll := Math_max 0 virtualScroll in
  let maxPossibleVirtualScroll := totalVirtual - parentClient in
  Math_min virtualScroll
    (if Qgtb maxPossibleVirtualScroll 0 then maxPossibleVirtualScroll else 0).

(** The value [handleScroll] leaves in [virtualScrollTop]
    ([virtualScrollLeft]). *)
Definition virtualScroll (MAX_SCROLL totalVirtual parentClient parentScroll : Q) : Q :=
  clampVirtualScroll totalVirtual parentClient
    (mapScroll MAX_SCROLL totalVirtual parentClient parentScroll).

(** [remeasure], "Restore scroll position": the offset written to
    [parentElement.scrollTop] ([scrollLeft]).  [actualSizer] is what
    [parseFloat] reads back from the sizer's style, 0 without a sizer. *)
Definition restoreScroll
  (MAX_SCROLL totalVirtual parentClient savedVirtualScroll actualSizer : Q) : Q :=
  let newParentScroll :=
    if Qleb totalVirtual MAX_SCROLL then savedVirtualScroll
    else
      let maxVirtualScroll := totalVirtual - parentClient in
      let scrollPercentage :=
        if Qgtb maxVirtualScroll 0
        then savedVirtualScroll / maxVirtualScroll else 0 in
      let scrollPercentage := Math_max 0 (Math_min 1 scrollPercentage) in
      let sizerEffective := MAX_SCROLL in
      let maxScrollForSizer := sizerEffective - parentClient in
      scrollPercentage * (if Qgtb maxScrollForSizer 0 then maxScrollForSizer else 0) in
  let newParentScroll := Math_max 0 newParentScroll in
  let maxParentScroll := actualSizer - parentClient in
  if Qgtb maxParentScroll 0
  then Math_min newParentScroll maxParentScroll
  else 0.

(** [remeasure], the recomputation of the virtual offset from the
    restored host offset: the statements of [handleScroll] without the
    inner test on the divisor. *)
Definition remapScroll (MAX_SCROLL totalVirtual parentClient parentScroll : Q) : Q :=
  let virtualScroll :=
    if Qleb totalVirtual MAX_SCROLL then parentScroll
    else
      let sizerEffective := MAX_SCROLL in
      let maxScrollForSizer := sizerEffective - parentClient in
      if Qleb maxScrollForSizer 0 then 0
      else
        let currentScrollForSizer := parentScroll in
        let scrollPercentage :=
          Math_max 0 (Math_min 1 (currentScrollForSizer / maxScrollForSizer)) in
        let maxVirtualScrollVal := totalVirtual - parentClient in
        scrollPercentage * (if Qgtb maxVirtualScrollVal 0 then maxVirtualScrollVal else 0) in
  clampVirtualScroll totalVirtual parentClient virtualScroll.

(** [updateSizer]: the size given to the sizer on one axis. *)
Definition sizerSize (MAX_SCROLL totalVirtual : Q) : Q :=
  if Qgtb totalVirtual MAX_SCROLL then MAX_SCROLL else totalVirtual.

End Scroll.

(** ** The host collaborator

    The manager works on a container element of a DOM-like host.  The
    host's nodes are mutable objects: they live in a store and are
    referred to by address.  Only what the manager reads or writes is
    kept. *)

Inductive CssValue : Type :=
| CssText (s : string)        (* a value given as a string *)
| CssPx (n : Q).              (* the template literal [`${n}px`] *)

Module Style.
Record t : Type := mk {
    position : string;
    visibility : string;
    display : string;
    zIndex : string;
    left : CssValue;
    top : CssValue;
    width : CssValue;
    height : CssValue
  }.
Definition set_position v s :=
    mk v (visibility s) (display s) (zIndex s) (left s) (top s) (width s) (height s).
Definition set_visibility v s :=
    mk (position s) v (display s) (zIndex s) (left s) (top s) (width s) (height s).
Definition set_display v s :=
    mk (position s) (visibility s) v (zIndex s) (left s) (top s) (width s) (height s).
Definition set_zIndex v s :=
    mk (position s) (visibility s) (display s) v (left s) (top s) (width s) (height s).
Definition set_left v s :=
    mk (position s) (visibility s) (display s) (zIndex s) v (top s) (width s) (height s).
Definition set_top v s :=
    mk (position s) (visibility s) (display s) (zIndex s) (left s) v (width s) (height s).
Definition set_width v s :=
    mk (position s) (visibility s) (display s) (zIndex s) (left s) (top s) v (height s).
Definition set_height v s :=
    mk (position s) (visibility s) (display s) (zIndex s) (left s) (top s) (width s) v.
Definition empty : t :=
    mk EmptyString EmptyString EmptyString EmptyString
       (CssText EmptyString) (CssText EmptyString) (CssText EmptyString) (CssText EmptyString).
End Style.

Module HTMLElement.
Record t : Type := mk {
    instanceofHTMLElement : bool;   (* false for text nodes and the like *)
    id : string;                    (* the empty string when there is none *)
    style : Style.t;
    offsetWidth : Q;
    offsetHeight : Q
  }.
Definition set_id v e :=
    mk (instanceofHTMLElement e) v (style e) (offsetWidth e) (offsetHeight e).
Definition set_style v e :=
    mk (instanceofHTMLElement e) (id e) v (offsetWidth e) (offsetHeight e).
End HTMLElement.

Module Dimensions.
Record t : Type := mk { width : Q; height : Q }.
End Dimensions.

Definition MeasureFunction : Type := HTMLElement.t -> Dimensions.t.

Module Host.
Record t : Type := mk {
    nodes : NodeRef -> HTMLElement.t;   (* the node store *)
    nextNode : NodeRef;                 (* address [document.createElement] gives next *)
    children : list NodeRef;            (* child list of the container *)
    scrollTop : Q;
    scrollLeft : Q;
    clientWidth : Q;
    clientHeight : Q;
    stylePosition : string;             (* [parentElement.style.position] *)
    sheetPosition : string;             (* position the style sheets give *)
    scrollListener : bool;              (* the manager's scroll handler is registered *)
    intercepted : bool;                 (* appendChild, insertBefore, removeChild are overridden *)
    frameQueue : nat;                   (* callbacks waiting for the next animation frame *)
    console : list string
  }.
Definition set_nodes v h :=
    mk v (nextNode h) (children h) (scrollTop h) (scrollLeft h) (clientWidth h)
       (clientHeight h) (stylePosition h) (sheetPosition h) (scrollListener h)
       (intercepted h) (frameQueue h) (console h).
Definition set_nextNode v h :=
    mk (nodes h) v (children h) (scrollTop h) (scrollLeft h) (clientWidth h)
       (clientHeight h) (stylePosition h) (sheetPosition h) (scrollListener h)
       (intercepted h) (frameQueue h) (console h).
Definition set_children v h :=
    mk (nodes h) (nextNode h) v (scrollTop h) (scrollLeft h) (clientWidth h)
       (clientHeight h) (stylePosition h) (sheetPosition h) (scrollListener h)
       (intercepted h) (frameQueue h) (console h).
Definition set_scrollTop v h :=
    mk (nodes h) (nextNode h) (children h) v (scrollLeft h) (clientWidth h)
       (clientHeight h) (stylePosition h) (sheetPosition h) (scrollListener h)
       (intercepted h) (frameQueue h) (console h).
Definition set_scrollLeft v h :=
    mk (nodes h) (nextNode h) (children h) (scrollTop h) v (clientWidth h)
       (clientHeight h) (stylePosition h) (sheetPosition h) (scrollListener h)
       (intercepted h) (frameQueue h) (console h).
Definition set_stylePosition v h :=
    mk (nodes h) (nextNode h) (children h) (scrollTop h) (scrollLeft h) (clientWidth h)
       (clientHeight h) v (sheetPosition h) (scrollListener h)
       (intercepted h) (frameQueue h) (console h).
Definition set_scrollListener v h :=
    mk (nodes h) (nextNode h) (children h) (scrollTop h) (scrollLeft h) (clientWidth h)
       (clientHeight h) (stylePosition h) (sheetPosition h) v
       (intercepted h) (frameQueue h) (console h).
Definition set_intercepted v h :=
    mk (nodes h) (nextNode h) (children h) (scrollTop h) (scrollLeft h) (clientWidth h)
       (clientHeight h) (stylePosition h) (sheetPosition h) (scrollListener h)
       v (frameQueue h) (console h).
Definition set_frameQueue v h :=
    mk (nodes h) (nextNode h) (children h) (scrollTop h) (scrollLeft h) (clientWidth h)
       (clientHeight h) (stylePosition h) (sheetPosition h) (scrollListener h)
       (intercepted h) v (console h).
Definition set_console v h :=
    mk (nodes h) (nextNode h) (children h) (scrollTop h) (scrollLeft h) (clientWidth h)
       (clientHeight h) (stylePosition h) (sheetPosition h) (scrollListener h)
       (intercepted h) (frameQueue h) v.

  (** [node.prop = ...] on the node at address [n]. *)
Definition updNode (n : NodeRef) (f : HTMLElement.t -> HTMLElement.t) (h : t) : t :=
    set_nodes (fun m => if (m =? n)%nat then f (nodes h m) else nodes h m) h.

Definition updStyle (n : NodeRef) (f : Style.t -> Style.t) (h : t) : t :=
    updNode n (fun e => HTMLElement.set_style (f (HTMLElement.style e)) e) h.

Definition without (n : NodeRef) (l : list NodeRef) : list NodeRef :=
    filter (fun m => negb (m =? n)%nat) l.

  (** The host's own [appendChild]: the node becomes the last child,
      leaving its former place when it was a child already. *)
Definition originalAppendChild (n : NodeRef) (h : t) : t :=
    set_children (without n (children h) ++ [n]) h.

  (** The host's own [insertBefore]: before [refChild], last when there
      is no such child. *)
Fixpoint insertAt (n : NodeRef) (refChild : NodeRef) (l : list NodeRef)
    : list NodeRef :=
    match l with
    | [] => [n]
    | m :: l' => if (m =? refChild)%nat then n :: m :: l' else m :: insertAt n refChild l'
    end.

Definition originalInsertBefore (n : NodeRef) (refChild : option NodeRef) (h : t) : t :=
    match refChild with
    | Some c => set_children (insertAt n c (without n (children h))) h
    | None => set_children (without n (children h) ++ [n]) h
    end.

  (** The host's own [removeChild].  A browser raises when the node is
      not a child; the child list is then left as it is, as the parent
      of the repository's test suite does. *)
Definition originalRemoveChild (n : NodeRef) (h : t) : t :=
    set_children (without n (children h)) h.

  (** [fragment.appendChild(node)]: the node leaves the container (and
      its former place in the fragment) and becomes the fragment's last
      child. *)
Definition fragmentAppendChild (n : NodeRef) (fragment : list NodeRef) (h : t)
    : list NodeRef * t :=
    (without n fragment ++ [n], set_children (without n (children h)) h).

  (** The host's own [appendChild] given a document fragment: the
      fragment's children become the last children, in order. *)
Definition originalAppendFragment (fragment : list NodeRef) (h : t) : t :=
    set_children (children h ++ fragment) h.

  (** [window.getComputedStyle(parentElement).position]. *)
Definition computedPosition (h : t) : string :=
    if String.eqb (stylePosition h) EmptyString then sheetPosition h else stylePosition h.

  (** [document.createElement('div')]. *)
Definition createElement (h : t) : NodeRef * t :=
    let n := nextNode h in
    (n, set_nextNode (S n)
          (updNode n (fun _ => HTMLElement.mk true EmptyString Style.empty 0 0) h)).

Definition warn (msg : string) (h : t) : t := set_console (console h ++ [msg]) h.
End Host.

(** ** The lifecycle manager ([class Virtualboy]) *)

(** A tracked item is a mutable object shared by the tracked-item map
    and the spatial index: both hold its address in the object store. *)
Definition ItemRef : Type := nat.

Module Virtualboy.

Record t : Type := mk {
    measureFunction : MeasureFunction;
    kdTree : KDTree.KDNode ItemRef;
    elements : list (string * ItemRef);        (* Map<string, VirtualElement> *)
    virtualScrollTop : Q;
    virtualScrollLeft : Q;
    totalVirtualWidth : Q;
    totalVirtualHeight : Q;
    nextElementId : nat;
    originalParentPosition : option string;
    currentlyVisibleElements : list string;    (* Set<string> *)
    sizerElement : option NodeRef;
    updateQueued : bool
  }.
Definition set_kdTree v s :=
    mk (measureFunction s) v (elements s) (virtualScrollTop s) (virtualScrollLeft s)
       (totalVirtualWidth s) (totalVirtualHeight s) (nextElementId s)
       (originalParentPosition s) (currentlyVisibleElements s) (sizerElement s)
       (updateQueued s).
Definition set_elements v s :=
    mk (measureFunction s) (kdTree s) v (virtualScrollTop s) (virtualScrollLeft s)
       (totalVirtualWidth s) (totalVirtualHeight s) (nextElementId s)
       (originalParentPosition s) (currentlyVisibleElements s) (sizerElement s)
       (updateQueued s).
Definition set_virtualScrollTop v s :=
    mk (measureFunction s) (kdTree s) (elements s) v (virtualScrollLeft s)
       (totalVirtualWidth s) (totalVirtualHeight s) (nextElementId s)
       (originalParentPosition s) (currentlyVisibleElements s) (sizerElement s)
       (updateQueued s).
Definition set_virtualScrollLeft v s :=
    mk (measureFunction s) (kdTree s) (elements s) (virtualScrollTop s) v
       (totalVirtualWidth s) (totalVirtualHeight s) (nextElementId s)
       (originalParentPosition s) (currentlyVisibleElements s) (sizerElement s)
       (updateQueued s).
Definition set_totalVirtualWidth v s :=
    mk (measureFunction s) (kdTree s) (elements s) (virtualScrollTop s) (virtualScrollLeft s)
       v (totalVirtualHeight s) (nextElementId s)
       (originalParentPosition s) (currentlyVisibleElements s) (sizerElement s)
       (updateQueued s).
Definition set_totalVirtualHeight v s :=
    mk (measureFunction s) (kdTree s) (elements s) (virtualScrollTop s) (virtualScrollLeft s)
       (totalVirtualWidth s) v (nextElementId s)
       (originalParentPosition s) (currentlyVisibleElements s) (sizerElement s)
       (updateQueued s).
Definition set_nextElementId v s :=
    mk (measureFunction s) (kdTree s) (elements s) (virtualScrollTop s) (virtualScrollLeft s)
       (totalVirtualWidth s) (totalVirtualHeight s) v
       (originalParentPosition s) (currentlyVisibleElements s) (sizerElement s)
       (updateQueued s).
Definition set_currentlyVisibleElements v s :=
    mk (measureFunction s) (kdTree s) (elements s) (virtualScrollTop s) (virtualScrollLeft s)
       (totalVirtualWidth s) (totalVirtualHeight s) (nextElementId s)
       (originalParentPosition s) v (sizerElement s)
       (updateQueued s).
Definition set_sizerElement v s :=
    mk (measureFunction s) (kdTree s) (elements s) (virtualScrollTop s) (virtualScrollLeft s)
       (totalVirtualWidth s) (totalVirtualHeight s) (nextElementId s)
       (originalParentPosition s) (currentlyVisibleElements s) v
       (updateQueued s).
Definition set_updateQueued v s :=
    mk (measureFunction s) (kdTree s) (elements s) (virtualScrollTop s) (virtualScrollLeft s)
       (totalVirtualWidth s) (totalVirtualHeight s) (nextElementId s)
       (originalParentPosition s) (currentlyVisibleElements s) (sizerElement s)
       v.

  (** The manager together with what it works on: the host and the
      store of its item objects. *)
Record World : Type := mkWorld {
    host : Host.t;
    objects : ItemRef -> VirtualElement;
    nextObject : ItemRef;
    vb : t
  }.
Definition updHost (f : Host.t -> Host.t) (w : World) : World :=
    mkWorld (f (host w)) (objects w) (nextObject w) (vb w).
Definition updVb (f : t -> t) (w : World) : World :=
    mkWorld (host w) (objects w) (nextObject w) (f (vb w)).
Definition updObject (r : ItemRef) (f : VirtualElement -> VirtualElement)
      (w : World) : World :=
    mkWorld (host w)
            (fun r' => if (r' =? r)%nat then f (objects w r') else objects w r')
            (nextObject w) (vb w).

  (** A new item object. *)
Definition newObject (v : VirtualElement) (w : World) : ItemRef * World :=
    let r := nextObject w in
    (r, mkWorld (host w)
                (fun r' => if (r' =? r)%nat then v else objects w r')
                (S r) (vb w)).

Definition set_isVisible (b : bool) (v : VirtualElement) : VirtualElement :=
    VirtualElement.mk (VirtualElement.id v) (VirtualElement.element v)
                      (VirtualElement.rect v) b (VirtualElement.originalDisplay v).
Definition set_rect (rc : Rect) (v : VirtualElement) : VirtualElement :=
    VirtualElement.mk (VirtualElement.id v) (VirtualElement.element v)
                      rc (VirtualElement.isVisible v) (VirtualElement.originalDisplay v).

  (** What the spatial index reads of an item, through its address. *)
Definition rectOf (w : World) (r : ItemRef) : Rect := VirtualElement.rect (objects w r).
Definition idOf (w : World) (r : ItemRef) : string := VirtualElement.id (objects w r).

  (** A string is falsy when it is empty. *)
Definition truthy (s : string) : bool := negb (String.eqb s EmptyString).

Definition generateId (w : World) : string * World :=
    let n := nextElementId (vb w) in
    (String.append "virtual-element-" (NilEmpty.string_of_uint (Nat.to_uint n)),
     updVb (set_nextElementId (S n)) w).

Definition updateSizer (w : World) : World :=
    match sizerElement (vb w) with
    | Some sizer =>
        let sizerHeight :=
          Scroll.sizerSize Scroll.MAX_SCROLL_HEIGHT (totalVirtualHeight (vb w)) in
        let w := updHost (Host.updStyle sizer (Style.set_height (CssPx sizerHeight))) w in
        let sizerWidth :=
          Scroll.sizerSize Scroll.MAX_SCROLL_WIDTH (totalVirtualWidth (vb w)) in
        updHost (Host.updStyle sizer (Style.set_width (CssPx sizerWidth))) w
    | None => w
    end.

Definition handleElementAdded (element : NodeRef) (_refChild : option NodeRef)
      (isInitialDiscovery : bool) (w : World) : World :=
    let el := Host.nodes (host w) element in
    if truthy (HTMLElement.id el) && JsMap.has (elements (vb w)) (HTMLElement.id el)
    then
      updHost (Host.warn (String.append "Virtualboy: Element with ID '"
                 (String.append (HTMLElement.id el) "' already added. Skipping."))) w
    else
      (* measurement preparation *)
      let originalStyle := HTMLElement.style el in
      let currentDisplay := Style.display originalStyle in
      let displayForMeasure :=
        if truthy currentDisplay
           && negb (String.eqb currentDisplay "none")
           && negb (String.eqb currentDisplay "inline")
        then currentDisplay else "block"%string in
      let w := updHost (Host.updStyle element (fun s =>
                 Style.set_top (CssText "-9999px")
                   (Style.set_left (CssText "-9999px")
                      (Style.set_display displayForMeasure
                         (Style.set_visibility "hidden"
                            (Style.set_position "absolute" s)))))) w in
      let w := if isInitialDiscovery then w
               else updHost (Host.originalAppendChild element) w in
      let dimensions := measureFunction (vb w) (Host.nodes (host w) element) in
      let w := updHost (Host.originalRemoveChild element) w in
      (* the saved style attributes are put back *)
      let w := updHost (Host.updStyle element (fun s =>
                 Style.set_top (Style.top originalStyle)
                   (Style.set_left (Style.left originalStyle)
                      (Style.set_display (Style.display originalStyle)
                         (Style.set_visibility (Style.visibility originalStyle)
                            (Style.set_position (Style.position originalStyle) s)))))) w in
      (* vertical stacking *)
      let virtualRect :=
        Rect.mk 0 (totalVirtualHeight (vb w))
                (Dimensions.width dimensions) (Dimensions.height dimensions) in
      let w := updVb (fun s => set_totalVirtualHeight
                 (totalVirtualHeight s + Dimensions.height dimensions) s) w in
      let w := updVb (fun s => set_totalVirtualWidth
                 (Math_max (totalVirtualWidth s) (Dimensions.width dimensions)) s) w in
      let w := updateSizer w in
      let '(id, w) :=
        let id := HTMLElement.id (Host.nodes (host w) element) in
        if truthy id then (id, w)
        else
          let '(id, w) := generateId w in
          (id, updHost (Host.updNode element (HTMLElement.set_id id)) w) in
      let virtualElement :=
        VirtualElement.mk id element virtualRect false
          (Style.display (HTMLElement.style (Host.nodes (host w) element))) in
      let '(item, w) := newObject virtualElement w in
      let w := updVb (fun s => set_elements (JsMap.set (elements s) id item) s) w in
      updVb (fun s => set_kdTree (KDTree.insert (rectOf w) (kdTree s) item) s) w.

Definition handleElementRemoved (element : NodeRef) (w : World) : World :=
    let id := HTMLElement.id (Host.nodes (host w) element) in
    if truthy id && JsMap.has (elements (vb w)) id then
      match JsMap.get (elements (vb w)) id with
      | None => w                     (* excluded by [has] *)
      | Some virtualElement =>
          let w := updVb (fun s => set_kdTree
                     (KDTree.remove (rectOf w) (idOf w) (kdTree s) virtualElement) s) w in
          let w := updVb (fun s => set_elements (JsMap.delete (elements s) id) s) w in
          (* the totals become the largest extent of what remains *)
          let '(newTotalHeight, newTotalWidth) :=
            fold_left
              (fun (acc : Q * Q) (ve : ItemRef) =>
                 let rc := rectOf w ve in
                 (Math_max (fst acc) (Rect.y rc + Rect.height rc),
                  Math_max (snd acc) (Rect.x rc + Rect.width rc)))
              (JsMap.values (elements (vb w))) (0, 0) in
          let w := updVb (set_totalVirtualHeight newTotalHeight) w in
          let w := updVb (set_totalVirtualWidth newTotalWidth) w in
          let w := updateSizer w in
          if VirtualElement.isVisible (objects w virtualElement) then
            let w := updHost (Host.originalRemoveChild element) w in
            let w := updObject virtualElement (set_isVisible false) w in
            updVb (fun s => set_currentlyVisibleElements
                     (JsSet.delete (currentlyVisibleElements s) id) s) w
          else w
      end
    else
      updHost (Host.originalRemoveChild element) w.

  (** [updateVisibleElements], "Process Removals": one turn of the loop
      over a copy of the visible-id set. *)
Definition processRemoval (shouldBeVisibleIds : list string) (w : World)
      (idToRemove : string) : World :=
    if negb (JsSet.has shouldBeVisibleIds idToRemove) then
      let w :=
        match JsMap.get (elements (vb w)) idToRemove with
        | Some virtualElement =>
            if VirtualElement.isVisible (objects w virtualElement) then
              let w := updHost (Host.originalRemoveChild
                         (VirtualElement.element (objects w virtualElement))) w in
              updObject virtualElement (set_isVisible false) w
            else w
        | None => w
        end in
      updVb (fun s => set_currentlyVisibleElements
               (JsSet.delete (currentlyVisibleElements s) idToRemove) s) w
    else w.

  (** The style a newly visible item's node is given. *)
Definition placeElement (w : World) (virtualElement : ItemRef) : World :=
    let ve := objects w virtualElement in
    let rc := VirtualElement.rect ve in
    let domElement := VirtualElement.element ve in
    let left := (Rect.x rc - virtualScrollLeft (vb w)) + Host.scrollLeft (host w) in
    let top := (Rect.y rc - virtualScrollTop (vb w)) + Host.scrollTop (host w) in
    updHost (Host.updStyle domElement (fun s =>
      Style.set_display
        (if truthy (VirtualElement.originalDisplay ve)
         then VirtualElement.originalDisplay ve else "block"%string)
        (Style.set_height (CssPx (Rect.height rc))
           (Style.set_width (CssPx (Rect.width rc))
              (Style.set_top (CssPx top)
                 (Style.set_left (CssPx left)
                    (Style.set_position "absolute" s))))))) w.

  (** [updateVisibleElements], "Process Additions": one turn of the loop
      over the query's result.  The state carries the fragment and the
      list [addedVirtualElements]. *)
Definition processAddition (acc : World * list NodeRef * list ItemRef)
      (virtualElement : ItemRef) : World * list NodeRef * list ItemRef :=
    let '(w, fragment, addedVirtualElements) := acc in
    if negb (JsSet.has (currentlyVisibleElements (vb w)) (idOf w virtualElement)) then
      let w := placeElement w virtualElement in
      let domElement := VirtualElement.element (objects w virtualElement) in
      let '(fragment, h) := Host.fragmentAppendChild domElement fragment (host w) in
      let w := updHost (fun _ => h) w in
      (w, fragment, addedVirtualElements ++ [virtualElement])
    else
      let w :=
        match JsMap.get (elements (vb w)) (idOf w virtualElement) with
        | Some ve =>
            if negb (VirtualElement.isVisible (objects w ve))
            then updObject ve (set_isVisible true) w else w
        | None => w
        end in
      (w, fragment, addedVirtualElements).

  (** The counters [removedCount] and [addedToFragmentCount] of the
      source only feed a branch with an empty body and are left out. *)
Definition updateVisibleElements (w : World) : World :=
    let viewportRect :=
      Rect.mk (virtualScrollLeft (vb w)) (virtualScrollTop (vb w))
              (Host.clientWidth (host w)) (Host.clientHeight (host w)) in
    let elementsInViewport := KDTree.queryRange (rectOf w) (kdTree (vb w)) viewportRect in
    let shouldBeVisibleIds := map (idOf w) elementsInViewport in
    let w := fold_left (processRemoval shouldBeVisibleIds)
                       (currentlyVisibleElements (vb w)) w in
    let '(w, fragment, addedVirtualElements) :=
      fold_left processAddition elementsInViewport (w, [], []) in
    let w := match fragment with
             | [] => w
             | _ :: _ => updHost (Host.originalAppendFragment fragment) w
             end in
    fold_left
      (fun w virtualElement =>
         let w := updObject virtualElement (set_isVisible true) w in
         updVb (fun s => set_currentlyVisibleElements
                  (JsSet.add (currentlyVisibleElements s) (idOf w virtualElement)) s) w)
      addedVirtualElements w.

Definition handleScroll (w : World) : World :=
    let w := updVb (set_virtualScrollTop
               (Scroll.virtualScroll Scroll.MAX_SCROLL_HEIGHT (totalVirtualHeight (vb w))
                  (Host.clientHeight (host w)) (Host.scrollTop (host w)))) w in
    let w := updVb (set_virtualScrollLeft
               (Scroll.virtualScroll Scroll.MAX_SCROLL_WIDTH (totalVirtualWidth (vb w))
                  (Host.clientWidth (host w)) (Host.scrollLeft (host w)))) w in
    if negb (updateQueued (vb w)) then
      let w := updVb (set_updateQueued true) w in
      (* requestAnimationFrame(callback) *)
      updHost (fun h => Host.set_frameQueue (S (Host.frameQueue h)) h) w
    else w.

  (** The callback [handleScroll] hands to [requestAnimationFrame]. *)
Definition frameCallback (w : World) : World :=
    let w := updateVisibleElements w in
    updVb (set_updateQueued false) w.

Definition getVisibleElements (w : World) : list NodeRef :=
    fold_left
      (fun visibleHtmlElements id =>
         match JsMap.get (elements (vb w)) id with
         | Some virtualElement =>
             if VirtualElement.isVisible (objects w virtualElement)
             then visibleHtmlElements ++ [VirtualElement.element (objects w virtualElement)]
             else visibleHtmlElements
         | None => visibleHtmlElements
         end)
      (currentlyVisibleElements (vb w)) [].

Definition getElementsForRect (queryRect : Rect) (w : World) : list NodeRef :=
    map (fun ve => VirtualElement.element (objects w ve))
        (KDTree.queryRange (rectOf w) (kdTree (vb w)) queryRect).

Definition getElementsAt (px py : Q) (w : World) : list NodeRef :=
    map (fun ve => VirtualElement.element (objects w ve))
        (KDTree.queryPoint (rectOf w) (kdTree (vb w)) px py).

  (** [parseFloat] of a size the manager wrote on the sizer.  Those are
      always px templates; any other text reads as 0 here. *)
Definition parseFloat (v : CssValue) : Q :=
    match v with CssPx n => n | CssText _ => 0 end.

  (** The loops of [remeasure] and [destroy] that take the visible
      items out of the container: one turn. *)
Definition detachVisible (w : World) (id : string) : World :=
    match JsMap.get (elements (vb w)) id with
    | Some ve =>
        if VirtualElement.isVisible (objects w ve) then
          let w := updHost (Host.originalRemoveChild
                     (VirtualElement.element (objects w ve))) w in
          updObject ve (set_isVisible false) w
        else w
    | None => w
    end.

  (** [remeasure], one turn of the loop over the tracked items: the
      state carries [newTotalVirtualHeight] and [newTotalVirtualWidth]. *)
Definition remeasureItem (acc : World * Q * Q) (virtualElement : ItemRef)
    : World * Q * Q :=
    let '(w, newTotalVirtualHeight, newTotalVirtualWidth) := acc in
    let dimensions :=
      measureFunction (vb w)
        (Host.nodes (host w) (VirtualElement.element (objects w virtualElement))) in
    let rc := Rect.mk 0 newTotalVirtualHeight
                (Dimensions.width dimensions) (Dimensions.height dimensions) in
    let w := updObject virtualElement (set_rect rc) w in
    let newTotalVirtualHeight := newTotalVirtualHeight + Rect.height rc in
    let newTotalVirtualWidth :=
      Math_max newTotalVirtualWidth (Rect.x rc + Rect.width rc) in
    let w := updVb (fun s => set_kdTree
               (KDTree.insert (rectOf w) (kdTree s) virtualElement) s) w in
    (w, newTotalVirtualHeight, newTotalVirtualWidth).

Definition actualSizerFor (side : Style.t -> CssValue) (w : World) : Q :=
    match sizerElement (vb w) with
    | Some sizer => parseFloat (side (HTMLElement.style (Host.nodes (host w) sizer)))
    | None => 0
    end.

Definition remeasure (w : World) : World :=
    let savedVirtualScrollTop := virtualScrollTop (vb w) in
    let savedVirtualScrollLeft := virtualScrollLeft (vb w) in
    let w := fold_left detachVisible (currentlyVisibleElements (vb w)) w in
    let w := updVb (set_currentlyVisibleElements []) w in
    let w := updVb (set_kdTree KDTree.Null) w in
    let allVirtualElements := JsMap.values (elements (vb w)) in
    let '(w, newTotalVirtualHeight, newTotalVirtualWidth) :=
      fold_left remeasureItem allVirtualElements (w, 0, Host.clientWidth (host w)) in
    let w := updVb (set_totalVirtualHeight newTotalVirtualHeight) w in
    let w := updVb (set_totalVirtualWidth newTotalVirtualWidth) w in
    let w := updateSizer w in
    (* restore the host's scroll offsets *)
    let newParentScrollTop :=
      Scroll.restoreScroll Scroll.MAX_SCROLL_HEIGHT (totalVirtualHeight (vb w))
        (Host.clientHeight (host w)) savedVirtualScrollTop
        (actualSizerFor Style.height w) in
    let w := updHost (Host.set_scrollTop newParentScrollTop) w in
    let newParentScrollLeft :=
      Scroll.restoreScroll Scroll.MAX_SCROLL_WIDTH (totalVirtualWidth (vb w))
        (Host.clientWidth (host w)) savedVirtualScrollLeft
        (actualSizerFor Style.width w) in
    let w := updHost (Host.set_scrollLeft newParentScrollLeft) w in
    (* recompute the virtual offsets from the restored host offsets *)
    let w := updVb (set_virtualScrollTop
               (Scroll.remapScroll Scroll.MAX_SCROLL_HEIGHT (totalVirtualHeight (vb w))
                  (Host.clientHeight (host w)) (Host.scrollTop (host w)))) w in
    let w := updVb (set_virtualScrollLeft
               (Scroll.remapScroll Scroll.MAX_SCROLL_WIDTH (totalVirtualWidth (vb w))
                  (Host.clientWidth (host w)) (Host.scrollLeft (host w)))) w in
    updateVisibleElements w.

Definition destroy (w : World) : World :=
    let w := updHost (Host.set_scrollListener false) w in
    let w := fold_left detachVisible (currentlyVisibleElements (vb w)) w in
    let w := updVb (set_currentlyVisibleElements []) w in
    let w := updVb (set_elements []) w in
    let w := updVb (set_kdTree KDTree.Null) w in
    let w := updVb (set_virtualScrollLeft 0) w in
    let w := updVb (set_virtualScrollTop 0) w in
    let w := updVb (set_totalVirtualHeight 0) w in
    let w := updVb (set_totalVirtualWidth (Host.clientWidth (host w))) w in
    let w :=
      match sizerElement (vb w) with
      | Some sizer =>
          if existsb (Nat.eqb sizer) (Host.children (host w))
          then updHost (Host.originalRemoveChild sizer) w else w
      | None => w
      end in
    let w := updVb (set_sizerElement None) w in
    let w := updHost (Host.set_intercepted false) w in
    let w :=
      match originalParentPosition (vb w) with
      | Some p => updHost (Host.set_stylePosition p) w
      | None => w
      end in
    updHost (Host.warn "Virtualboy instance destroyed.") w.

  (** [getElementDimensions(element, undefined)]: the default measure. *)
Definition getElementDimensions (element : HTMLElement.t) : Dimensions.t :=
    Dimensions.mk (HTMLElement.offsetWidth element) (HTMLElement.offsetHeight element).

Definition discoverInitialElements (w : World) : World :=
    let initialChildren := Host.children (host w) in
    fold_left
      (fun w child =>
         if HTMLElement.instanceofHTMLElement (Host.nodes (host w) child) then
           match sizerElement (vb w) with
           | Some sizer =>
               if (child =? sizer)%nat then w
               else handleElementAdded child None true w
           | None => handleElementAdded child None true w
           end
         else w)
      initialChildren w.

  (** [new Virtualboy(parentElement, customMeasureFn)], on a host [h]. *)
Definition constructor (h : Host.t) (customMeasureFn : option MeasureFunction)
    : World :=
    let '(origPos, h) :=
      if String.eqb (Host.computedPosition h) "static"
      then (Some (Host.stylePosition h), Host.set_stylePosition "relative" h)
      else (None, h) in
    (* overrideDOMMethods *)
    let h := Host.set_intercepted true h in
    let '(sizer, h) := Host.createElement h in
    let h := Host.updStyle sizer (fun s =>
               Style.set_height (CssPx 0)
                 (Style.set_width (CssPx 0)
                    (Style.set_left (CssPx 0)
                       (Style.set_top (CssPx 0)
                          (Style.set_zIndex "-1"
                             (Style.set_visibility "hidden"
                                (Style.set_position "absolute" s))))))) h in
    let h := Host.originalAppendChild sizer h in
    let measure :=
      match customMeasureFn with
      | Some f => f
      | None => getElementDimensions
      end in
    let w :=
      mkWorld h
        (fun _ => VirtualElement.mk EmptyString 0%nat (Rect.mk 0 0 0 0) false EmptyString)
        0%nat
        (mk measure KDTree.Null [] 0 0 (Host.clientWidth h) 0 0%nat origPos []
            (Some sizer) false) in
    let w := discoverInitialElements w in
    let w := updHost (Host.set_scrollListener true) w in
    let w := updateVisibleElements w in
    updateSizer w.

  (** ** What the host and the caller can do *)

Inductive Event : Type :=
  | AppendChild (newChild : NodeRef)
  | InsertBefore (newChild : NodeRef) (refChild : option NodeRef)
  | RemoveChild (oldChild : NodeRef)
  | ScrollTo (newTop newLeft : Q)  (* the container is scrolled and fires [scroll] *)
  | AnimationFrame                 (* the queued frame callbacks run *)
  | Resize (clientWidth clientHeight : Q)
  | CallRemeasure
  | CallDestroy.

Definition step (w : World) (e : Event) : World :=
    match e with
    | AppendChild newChild =>
        if Host.intercepted (host w)
           && HTMLElement.instanceofHTMLElement (Host.nodes (host w) newChild)
        then handleElementAdded newChild None false w
        else updHost (Host.originalAppendChild newChild) w
    | InsertBefore newChild refChild =>
        if Host.intercepted (host w)
           && HTMLElement.instanceofHTMLElement (Host.nodes (host w) newChild)
        then handleElementAdded newChild refChild false w
        else updHost (Host.originalInsertBefore newChild refChild) w
    | RemoveChild oldChild =>
        if Host.intercepted (host w)
           && HTMLElement.instanceofHTMLElement (Host.nodes (host w) oldChild)
        then handleElementRemoved oldChild w
        else updHost (Host.originalRemoveChild oldChild) w
    | ScrollTo newTop newLeft =>
        let w := updHost (fun h => Host.set_scrollLeft newLeft (Host.set_scrollTop newTop h)) w in
        if Host.scrollListener (host w) then handleScroll w else w
    | AnimationFrame =>
        let queued := Host.frameQueue (host w) in
        let w := updHost (Host.set_frameQueue 0%nat) w in
        Nat.iter queued frameCallback w
    | Resize clientWidth clientHeight =>
        updHost (fun h =>
          Host.mk (Host.nodes h) (Host.nextNode h) (Host.children h)
                  (Host.scrollTop h) (Host.scrollLeft h) clientWidth clientHeight
                  (Host.stylePosition h) (Host.sheetPosition h) (Host.scrollListener h)
                  (Host.intercepted h) (Host.frameQueue h) (Host.console h)) w
    | CallRemeasure => remeasure w
    | CallDestroy => destroy w
    end.

Definition run (w : World) (events : list Event) : World :=
    fold_left step events w.

End Virtualboy.

(** ** Measuring an element ([src/measure.ts])

    The revision of [measure.ts] that prepares the element itself: it
    is handed the host's own [appendChild] and [removeChild], here
    [originalAppend] and [originalRemove], which act on the host. *)

Module Measure.

Definition measureElement (element : NodeRef)
    (originalAppend originalRemove : NodeRef -> Host.t -> Host.t) (h : Host.t)
    : Dimensions.t * Host.t :=
  let originalStyles := HTMLElement.style (Host.nodes h element) in
  let h := Host.updStyle element (fun s =>
             Style.set_top (CssText "-9999px")
               (Style.set_left (CssText "-9999px")
                  (Style.set_display "block"
                     (Style.set_visibility "hidden"
                        (Style.set_position "absolute" s))))) h in
  let h := originalAppend element h in
  let width := HTMLElement.offsetWidth (Host.nodes h element) in
  let height := HTMLElement.offsetHeight (Host.nodes h element) in
  let h := originalRemove element h in
  (* Restore original styles *)
  let h := Host.updStyle element (fun s =>
             Style.set_top (Style.top originalStyles)
               (Style.set_left (Style.left originalStyles)
                  (Style.set_display (Style.display originalStyles)
                     (Style.set_visibility (Style.visibility originalStyles)
                        (Style.set_position (Style.position originalStyles) s))))) h in
  (Dimensions.mk width height, h).

Definition getElementDimensions (element : NodeRef)
    (originalAppend originalRemove : NodeRef -> Host.t -> Host.t)
    (customMeasure : option MeasureFunction) (h : Host.t)
    : Dimensions.t * Host.t :=
  match customMeasure with
  | Some f => (f (Host.nodes h element), h)
  | None => measureElement element originalAppend originalRemove h
  end.

End Measure.

(** * Properties *)

(** ** Definitions the statements use *)

(** Two lists hold the same ids, whatever the order and the repetitions. *)
Definition sameIds (l1 l2 : list string) : Prop :=
  forall i, In i l1 <-> In i l2.

(** [rc] has a size that is not negative and lies strictly inside [q]:
    a query rectangle covers the coordinates in use when every
    rectangle in the index lies inside it. *)
Definition inside (rc q : Rect) : Prop :=
  0 <= Rect.width rc /\ 0 <= Rect.height rc /\
  Rect.x q < Rect.x rc /\ Rect.x rc + Rect.width rc < Rect.x q + Rect.width q /\
  Rect.y q < Rect.y rc /\ Rect.y rc + Rect.height rc < Rect.y q + Rect.height q.

Module IndexOps.
  (** The index on its own, holding item values. *)
Inductive Op : Type :=
  | Insert (item : VirtualElement)
  | Remove (item : VirtualElement).

Definition apply (root : KDTree.KDNode VirtualElement) (op : Op)
    : KDTree.KDNode VirtualElement :=
    match op with
    | Insert item => KDTree.insert VirtualElement.rect root item
    | Remove item => KDTree.remove VirtualElement.rect VirtualElement.id root item
    end.

Definition applyAll (ops : list Op) : KDTree.KDNode VirtualElement :=
    fold_left apply ops KDTree.Null.

  (** The ids inserted and not removed since. *)
Definition track (ids : list string) (op : Op) : list string :=
    match op with
    | Insert item => ids ++ [VirtualElement.id item]
    | Remove item =>
        filter (fun i => negb (String.eqb i (VirtualElement.id item))) ids
    end.

Definition trackedIds (ops : list Op) : list string := fold_left track ops [].

Definition queryIds (root : KDTree.KDNode VirtualElement) (q : Rect) : list string :=
    map VirtualElement.id (KDTree.queryRange VirtualElement.rect root q).
End IndexOps.

Section Invariant.
Context {E : Type}.
Variable rectOf : E -> Rect.

  (** Invariant I2 at a node of depth [d]: the stored axis is [d mod 2]
      and every element of the left subtree has a lesser coordinate on
      that axis. *)
Fixpoint I2 (node : KDTree.KDNode E) (d : nat) : Prop :=
    match node with
    | KDTree.Null => True
    | KDTree.Node e ax l r =>
        ax = (d mod 2)%nat /\
        Forall (fun e' => KDTree.coord rectOf ax e' < KDTree.coord rectOf ax e)
               (KDTree.elements l) /\
        I2 l (d + 1) /\ I2 r (d + 1)
    end.
End Invariant.

(** The offset mapping of one axis in the spec's words: [mapped] is the
    value the handler's branch assigns, [final] the value left after
    the clamping statements.  Beyond the cap the clamping changes
    nothing; within the cap it cuts a host offset that lies beyond the
    virtual range. *)
Definition OffsetMapping (MAX total viewport hostScroll mapped final : Q) : Prop :=
  (total <= MAX -> mapped == hostScroll) /\
  (MAX < total -> MAX - viewport <= 0 -> mapped == 0) /\
  (MAX < total -> 0 < MAX - viewport ->
   mapped == Qmax 0 (Qmin 1 (hostScroll / (MAX - viewport)))
             * Qmax (total - viewport) 0) /\
  final == Qmin (Qmax 0 mapped) (Qmax (total - viewport) 0) /\
  0 <= final <= Qmax (total - viewport) 0 /\
  (MAX < total -> final == mapped) /\
  (total <= MAX -> 0 <= hostScroll <= Qmax (total - viewport) 0 ->
   final == hostScroll).

(** What the manager's internal operations leave alone: the host's
    geometry and registrations, and the manager's fixed fields. *)
Definition hostStatic (h : Host.t) :=
  (Host.scrollTop h, Host.scrollLeft h, Host.clientWidth h, Host.clientHeight h,
   Host.stylePosition h, Host.sheetPosition h, Host.scrollListener h,
   Host.intercepted h, Host.frameQueue h, Host.nextNode h).

Definition vbStatic (v : Virtualboy.t) :=
  (Virtualboy.measureFunction v, Virtualboy.originalParentPosition v,
   Virtualboy.sizerElement v, Virtualboy.updateQueued v).

Definition vbLayout (v : Virtualboy.t) :=
  (Virtualboy.kdTree v, Virtualboy.elements v, Virtualboy.virtualScrollTop v,
   Virtualboy.virtualScrollLeft v, Virtualboy.totalVirtualWidth v,
   Virtualboy.totalVirtualHeight v, Virtualboy.nextElementId v).

Definition Unchanged (w w' : Virtualboy.World) : Prop :=
  hostStatic (Virtualboy.host w') = hostStatic (Virtualboy.host w) /\
  vbStatic (Virtualboy.vb w') = vbStatic (Virtualboy.vb w).

(** The states the manager can be in: constructed on a host on which
    it has no frame callback waiting, then driven by the host and the
    caller. *)
Inductive Reachable : Virtualboy.World -> Prop :=
| reach_constructed (h : Host.t) (customMeasureFn : option MeasureFunction) :
    Host.frameQueue h = 0%nat ->
    Reachable (Virtualboy.constructor h customMeasureFn)
| reach_step (w : Virtualboy.World) (e : Virtualboy.Event) :
    Reachable w -> Reachable (Virtualboy.step w e).

(** What never changes of an item object while it is tracked and not
    remeasured. *)
Definition core (v : VirtualElement) :=
  (VirtualElement.id v, VirtualElement.element v, VirtualElement.rect v,
   VirtualElement.originalDisplay v).

Definition sameItems (w w' : Virtualboy.World) : Prop :=
  forall r, core (Virtualboy.objects w' r) = core (Virtualboy.objects w r).

(** The position [updateVisibleElements] computes for an item. *)
Definition renderedLeft (w : Virtualboy.World) (item : ItemRef) : Q :=
  (Rect.x (Virtualboy.rectOf w item) - Virtualboy.virtualScrollLeft (Virtualboy.vb w))
  + Host.scrollLeft (Virtualboy.host w).
Definition renderedTop (w : Virtualboy.World) (item : ItemRef) : Q :=
  (Rect.y (Virtualboy.rectOf w item) - Virtualboy.virtualScrollTop (Virtualboy.vb w))
  + Host.scrollTop (Virtualboy.host w).
Definition nodeOf (w : Virtualboy.World) (item : ItemRef) : NodeRef :=
  VirtualElement.element (Virtualboy.objects w item).
Definition placedAt (w : Virtualboy.World) (n : NodeRef) (left top : Q) : Prop :=
  Style.left (HTMLElement.style (Host.nodes (Virtualboy.host w) n)) = CssPx left /\
  Style.top (HTMLElement.style (Host.nodes (Virtualboy.host w) n)) = CssPx top.

(** No key of the tracked-item map is the empty string. *)
Definition keysTruthy (m : list (string * ItemRef)) : Prop :=
  Forall (fun kv => Virtualboy.truthy (fst kv) = true) m.

(** One frame callback waits exactly when the flag is set. *)
Definition pendingMatchesFlag (w : Virtualboy.World) : Prop :=
  Host.frameQueue (Virtualboy.host w)
  = if Virtualboy.updateQueued (Virtualboy.vb w) then 1%nat else 0%nat.

(** A run of scroll events, each with the offsets the host has then. *)
Definition scrollEvents (scrolls : list (Q * Q)) : list Virtualboy.Event :=
  map (fun s => Virtualboy.ScrollTo (fst s) (snd s)) scrolls.

(** The visible-id set holds exactly the tracked ids whose item is
    marked visible. *)
Definition visibleSetExact (w : Virtualboy.World) : Prop :=
  forall i,
    In i (Virtualboy.currentlyVisibleElements (Virtualboy.vb w)) <->
    exists item,
      JsMap.get (Virtualboy.elements (Virtualboy.vb w)) i = Some item /\
      VirtualElement.isVisible (Virtualboy.objects w item) = true.

Section IndexOrdering.
Context {E : Type}.
Variable rectOf : E -> Rect.
Variable idOf : E -> string.

(** The ordering the descents of [insertNode] and [removeNode] follow,
    with the axis taken from the depth: the left subtree holds lesser
    coordinates, the right subtree coordinates that are not less. *)
Fixpoint Ordered (node : KDTree.KDNode E) (d : nat) : Prop :=
  match node with
  | KDTree.Null => True
  | KDTree.Node e _ l r =>
      Forall (fun e' => KDTree.coord rectOf (d mod 2) e' < KDTree.coord rectOf (d mod 2) e)
             (KDTree.elements l) /\
      Forall (fun e' => KDTree.coord rectOf (d mod 2) e <= KDTree.coord rectOf (d mod 2) e')
             (KDTree.elements r) /\
      Ordered l (d + 1) /\ Ordered r (d + 1)
  end.

(** A tree as vertical stacking builds it: no node has a left child,
    and no element further down has a lesser x or a lesser y. *)
Fixpoint Stacked (node : KDTree.KDNode E) : Prop :=
  match node with
  | KDTree.Null => True
  | KDTree.Node e _ l r =>
      l = KDTree.Null /\
      Forall (fun e' => Rect.x (rectOf e) <= Rect.x (rectOf e') /\
                        Rect.y (rectOf e) <= Rect.y (rectOf e'))
             (KDTree.elements r) /\
      Stacked r
  end.

(** The list without its first element of the given id. *)
Fixpoint withoutFirst (i : string) (l : list E) : list E :=
  match l with
  | [] => []
  | e :: l' => if String.eqb (idOf e) i then l' else e :: withoutFirst i l'
  end.
End IndexOrdering.
(** The rectangle [updateVisibleElements] queries the index with, and
    what the index reports for it. *)
Definition viewportRect (w : Virtualboy.World) : Rect :=
  Rect.mk (Virtualboy.virtualScrollLeft (Virtualboy.vb w))
          (Virtualboy.virtualScrollTop (Virtualboy.vb w))
          (Host.clientWidth (Virtualboy.host w))
          (Host.clientHeight (Virtualboy.host w)).
Definition inViewport (w : Virtualboy.World) : list ItemRef :=
  KDTree.queryRange (Virtualboy.rectOf w) (Virtualboy.kdTree (Virtualboy.vb w))
                    (viewportRect w).

(** Every tracked item is filed under its own id. *)
Definition filedUnderOwnId (w : Virtualboy.World) : Prop :=
  forall k r,
    JsMap.get (Virtualboy.elements (Virtualboy.vb w)) k = Some r ->
    Virtualboy.idOf w r = k.

(** The style [handleElementAdded] gives an element while it is
    measured: absolute, hidden, off screen, and displayed as a block
    unless its own [display] is set to something other than [none]
    and [inline]. *)
Definition measurementStyle (s : Style.t) : Style.t :=
  Style.mk "absolute" "hidden"
    (if Virtualboy.truthy (Style.display s)
        && negb (String.eqb (Style.display s) "none")
        && negb (String.eqb (Style.display s) "inline")
     then Style.display s else "block"%string)
    (Style.zIndex s) (CssText "-9999px") (CssText "-9999px")
    (Style.width s) (Style.height s).

(** What [handleElementAdded] measures for the node at [element]. *)
Definition measured (w : Virtualboy.World) (element : NodeRef) : Dimensions.t :=
  let el := Host.nodes (Virtualboy.host w) element in
  Virtualboy.measureFunction (Virtualboy.vb w)
    (HTMLElement.set_style (measurementStyle (HTMLElement.style el)) el).

(** The id [handleElementAdded] files the node at [element] under: its
    own, or a generated one when it has none. *)
Definition idWhenAdded (w : Virtualboy.World) (element : NodeRef) : string :=
  let id := HTMLElement.id (Host.nodes (Virtualboy.host w) element) in
  if Virtualboy.truthy id then id else fst (Virtualboy.generateId w).

(** The node at [element] is not tracked under its id. *)
Definition untracked (w : Virtualboy.World) (element : NodeRef) : Prop :=
  let id := HTMLElement.id (Host.nodes (Virtualboy.host w) element) in
  Virtualboy.truthy id && JsMap.has (Virtualboy.elements (Virtualboy.vb w)) id = false.



(** ** Concrete inputs *)

Module Fixture.

Definition item (i : string) (px py w h : Q) : VirtualElement :=
  VirtualElement.mk i 0%nat (Rect.mk px py w h) false "block".

(** Three items whose second and third go below the first one's left. *)
Definition itemA : VirtualElement := item "A" 10 10 1 1.
Definition itemB : VirtualElement := item "B" 5 20 1 1.
Definition itemC : VirtualElement := item "C" 3 30 1 1.
Definition itemD : VirtualElement := item "D" 1 50 1 1.

(** A query rectangle with all of them inside. *)
Definition everything : Rect := Rect.mk (-1000) (-1000) 2000 2000.

(** The items of the removal tests of [kdTree.test.ts]. *)
Definition el1 : VirtualElement := item "el1" 10 20 5 5.
Definition el2 : VirtualElement := item "el2" 5 15 5 5.
Definition el3 : VirtualElement := item "el3" 15 25 5 5.

(** The item of its [queryPoint] tests. *)
Definition el1wide : VirtualElement := item "el1" 10 20 10 10.

(** A container of 800 by 600 without children, whose style sheets
    leave it static; nodes 0 and 1 are elements of 100 by 100 that are
    not attached, node 0 with the id the manager generates first, node
    1 without id. *)
Definition div (i : string) (w h : Q) : HTMLElement.t :=
  HTMLElement.mk true i Style.empty w h.

Definition emptyHost : Host.t :=
  Host.mk (fun n => match n with
                    | 0%nat => div "virtual-element-0" 100 100
                    | _ => div EmptyString 100 100
                    end)
          2%nat [] 0 0 800 600 EmptyString "static" false false 0%nat [].

(** The same container with node 0 as its only child, [height] high. *)
Definition hostWithChild (height : Q) : Host.t :=
  Host.mk (fun n => match n with
                    | 0%nat => div "a" 100 height
                    | _ => div EmptyString 100 100
                    end)
          2%nat [0%nat] 0 0 800 600 EmptyString "static" false false 0%nat [].

(** A manager that tracks one item with rectangle [rc], not visible
    yet, with the given virtual and host scroll offsets: the setting of
    the positioning tests of the test suite. *)
Definition renderWorld (virtualTop virtualLeft hostTop hostLeft : Q) (rc : Rect)
  : Virtualboy.World :=
  Virtualboy.mkWorld
    (Host.mk (fun _ => div "el1" 100 100) 1%nat [] hostTop hostLeft 800 600
             "relative" "static" true true 0%nat [])
    (fun _ => VirtualElement.mk "el1" 0%nat rc false "block")
    1%nat
    (Virtualboy.mk Virtualboy.getElementDimensions
       (KDTree.Node 0%nat 0%nat KDTree.Null KDTree.Null)
       [("el1"%string, 0%nat)] virtualTop virtualLeft 800 1000 0%nat
       None [] None false).

(** The same container, all of whose nodes are elements without id. *)
Definition bareHost : Host.t :=
  Host.mk (fun _ => div EmptyString 100 100)
          2%nat [] 0 0 800 600 EmptyString "static" false false 0%nat [].


(** Three rows stacked from the top, the way the manager lays out what
    it tracks. *)
Definition row1 : VirtualElement := item "row1" 0 0 100 50.
Definition row2 : VirtualElement := item "row2" 0 50 100 50.
Definition row3 : VirtualElement := item "row3" 0 100 100 50.


(** The manager of [renderWorld] after its item was rendered at the
    top and the virtual viewport moved down to [virtualTop]. *)
Definition scrolledAway (virtualTop : Q) : Virtualboy.World :=
  Virtualboy.updVb (Virtualboy.set_virtualScrollTop virtualTop)
    (Virtualboy.updateVisibleElements (renderWorld 0 0 0 0 (Rect.mk 0 0 100 100))).

End Fixture.

(** ** Comparisons *)

Lemma Qltb_lt a b : Qltb a b = true <-> a < b.
Proof.
  unfold Qltb. rewrite negb_true_iff, <- not_true_iff_false, Qle_bool_iff.
  split; [apply Qnot_le_lt | apply Qlt_not_le].
Qed.

Lemma Qltb_ge a b : Qltb a b = false <-> b <= a.
Proof.
  unfold Qltb. rewrite negb_false_iff. apply Qle_bool_iff.
Qed.

Lemma Qleb_le a b : Qleb a b = true <-> a <= b.
Proof. apply Qle_bool_iff. Qed.

Lemma Qleb_gt a b : Qleb a b = false <-> b < a.
Proof.
  unfold Qleb. rewrite <- not_true_iff_false, Qle_bool_iff.
  split; [apply Qnot_le_lt | apply Qlt_not_le].
Qed.

Lemma Qgeb_ge a b : Qgeb a b = true <-> b <= a.
Proof. apply Qle_bool_iff. Qed.

Lemma Qgeb_lt a b : Qgeb a b = false <-> a < b.
Proof. unfold Qgeb. apply (Qleb_gt b a). Qed.

Lemma Qgtb_gt a b : Qgtb a b = true <-> b < a.
Proof. apply Qltb_lt. Qed.

Lemma Qgtb_le a b : Qgtb a b = false <-> a <= b.
Proof. apply Qltb_ge. Qed.

Lemma Math_max_spec a b :
  (a < b /\ Math_max a b = b) \/ (b <= a /\ Math_max a b = a).
Proof.
  unfold Math_max. destruct (Qltb a b) eqn:H.
  - left. split; [now apply Qltb_lt | reflexivity].
  - right. split; [now apply Qltb_ge | reflexivity].
Qed.

Lemma Math_min_spec a b :
  (b < a /\ Math_min a b = b) \/ (a <= b /\ Math_min a b = a).
Proof.
  unfold Math_min. destruct (Qltb b a) eqn:H.
  - left. split; [now apply Qltb_lt | reflexivity].
  - right. split; [now apply Qltb_ge | reflexivity].
Qed.


(** ** The spatial index *)

Section IndexFacts.
Context {E : Type}.
Variable rectOf : E -> Rect.
Variable idOf : E -> string.

Local Abbreviation insertNode := (KDTree.insertNode rectOf).
Local Abbreviation queryRangeNode := (KDTree.queryRangeNode rectOf).
Local Abbreviation queryRange := (KDTree.queryRange rectOf).
Local Abbreviation queryPoint := (KDTree.queryPoint rectOf).
Local Abbreviation elements := KDTree.elements.

Lemma elements_insertNode (t : KDTree.KDNode E) (e : E) (d : nat) :
    Permutation (elements (insertNode t e d)) (e :: elements t).
Proof.
    revert d. induction t as [| ne nax l IHl r IHr]; intros d; simpl.
    - apply Permutation_refl.
    - destruct (Qltb _ _); simpl.
      + rewrite (IHl (d + 1)%nat). apply perm_swap.
      + rewrite (IHr (d + 1)%nat).
        change (ne :: elements l ++ e :: elements r)
          with ((ne :: elements l) ++ e :: elements r).
        symmetry. apply (Permutation_middle (ne :: elements l)).
Qed.

  (** A query keeps what the array held and only adds elements of the tree. *)
Lemma queryRangeNode_keeps (t : KDTree.KDNode E) (q : Rect) (res : list E) (e : E) :
    In e res -> In e (queryRangeNode t q res).
Proof.
    revert res. induction t as [| ne nax l IHl r IHr]; intros res H; simpl.
    - exact H.
    - repeat match goal with
             | |- context [if ?b then _ else _] => destruct b
             end;
        repeat first [apply IHr | apply IHl];
        solve [exact H | apply in_or_app; left; exact H].
Qed.

Lemma queryRangeNode_sound (t : KDTree.KDNode E) (q : Rect) (res : list E) (e : E) :
    In e (queryRangeNode t q res) -> In e res \/ In e (elements t).
Proof.
    revert res. induction t as [| ne nax l IHl r IHr]; intros res; simpl.
    - auto.
    - intros H.
      assert (Hstep : forall (b : bool) (s : KDTree.KDNode E) (acc : list E),
                 (forall res0, In e (queryRangeNode s q res0) ->
                               In e res0 \/ In e (elements s)) ->
                 In e (if b then queryRangeNode s q acc else acc) ->
                 In e acc \/ In e (elements s)).
      { intros b s acc IH Hin. destruct b; [apply IH, Hin | left; exact Hin]. }
      apply (Hstep _ r _ IHr) in H. destruct H as [H | H].
      2:{ right. right. apply in_or_app. now right. }
      apply (Hstep _ l _ IHl) in H. destruct H as [H | H].
      2:{ right. right. apply in_or_app. now left. }
      apply (Hstep _ l _ IHl) in H. destruct H as [H | H].
      2:{ right. right. apply in_or_app. now left. }
      destruct (KDTree.intersects _ _).
      + apply in_app_or in H. destruct H as [H | [H | []]].
        * now left.
        * right. left. exact H.
      + now left.
Qed.

Lemma inside_intersects (rc q : Rect) :
    inside rc q -> KDTree.intersects rc q = true.
Proof.
    intros (Hw & Hh & Hx1 & Hx2 & Hy1 & Hy2).
    unfold KDTree.intersects. apply negb_true_iff.
    repeat (apply orb_false_iff; split).
    - apply Qgeb_lt. lra.
    - apply Qleb_gt. lra.
    - apply Qgeb_lt. lra.
    - apply Qleb_gt. lra.
Qed.

  (** With every rectangle of the tree inside the query rectangle, the
      query reaches every node and reports its element. *)
Lemma queryRangeNode_complete (t : KDTree.KDNode E) (q : Rect) (res : list E) (e : E) :
    (forall e', In e' (elements t) -> inside (rectOf e') q) ->
    In e (elements t) -> In e (queryRangeNode t q res).
Proof.
    revert res. induction t as [| ne nax l IHl r IHr]; intros res Hall Hin; simpl in *.
    - contradiction.
    - assert (Hne : inside (rectOf ne) q) by (apply Hall; now left).
      rewrite (inside_intersects _ _ Hne).
      destruct Hne as (Hw & Hh & Hx1 & Hx2 & Hy1 & Hy2).
      assert (Hmin : Qleb (if (nax =? 0)%nat then Rect.x q else Rect.y q)
                          (KDTree.coord rectOf nax ne) = true).
      { unfold KDTree.coord. apply Qleb_le. destruct (nax =? 0)%nat; lra. }
      assert (Hmax : Qgeb (if (nax =? 0)%nat then Rect.x q + Rect.width q
                           else Rect.y q + Rect.height q)
                          (KDTree.coord rectOf nax ne) = true).
      { unfold KDTree.coord. apply Qgeb_ge. destruct (nax =? 0)%nat; lra. }
      rewrite Hmin, Hmax.
      destruct Hin as [Heq | Hin].
      + subst e. apply queryRangeNode_keeps, queryRangeNode_keeps.
        destruct (Qltb _ _).
        * apply queryRangeNode_keeps, in_or_app. right. now left.
        * apply in_or_app. right. now left.
      + apply in_app_or in Hin. destruct Hin as [Hin | Hin].
        * apply queryRangeNode_keeps. apply IHl; [| exact Hin].
          intros e' He'. apply Hall. right. apply in_or_app. now left.
        * apply IHr; [| exact Hin].
          intros e' He'. apply Hall. right. apply in_or_app. now right.
Qed.

  (** Index completeness for inserts alone: after any sequence of
      inserts, a query over a rectangle that has every inserted
      rectangle inside reports exactly the inserted elements. *)
Lemma queryRange_after_inserts (items : list E) (q : Rect) (e : E) :
    (forall e', In e' items -> inside (rectOf e') q) ->
    In e (queryRange (fold_left (KDTree.insert rectOf) items KDTree.Null) q)
    <-> In e items.
Proof.
    intros Hall.
    assert (Hperm : forall (l : list E) (t : KDTree.KDNode E),
               Permutation (elements (fold_left (KDTree.insert rectOf) l t))
                           (rev l ++ elements t)).
    { induction l as [| a l IH]; intros t; simpl.
      - apply Permutation_refl.
      - rewrite IH. unfold KDTree.insert. rewrite elements_insertNode.
        rewrite <- app_assoc. simpl. apply Permutation_refl. }
    specialize (Hperm items KDTree.Null). simpl in Hperm. rewrite app_nil_r in Hperm.
    assert (Hmem : forall e', In e' (elements (fold_left (KDTree.insert rectOf) items KDTree.Null))
                              <-> In e' items).
    { intros e'. split; intros H.
      - apply in_rev. eapply Permutation_in; [exact Hperm | exact H].
      - eapply Permutation_in; [symmetry; exact Hperm |]. now apply in_rev in H. }
    unfold KDTree.queryRange. split; intros H.
    - apply queryRangeNode_sound in H. destruct H as [[] | H]. now apply Hmem.
    - apply queryRangeNode_complete.
      + intros e' He'. apply Hall. now apply Hmem.
      + now apply Hmem.
Qed.

  (** What [queryPoint] reports is in the tree and holds the point,
      edges included. *)
Lemma queryPoint_sound (t : KDTree.KDNode E) (px py : Q) (e : E) :
    In e (queryPoint t px py) ->
    In e (elements t) /\
    Rect.x (rectOf e) <= px <= Rect.x (rectOf e) + Rect.width (rectOf e) /\
    Rect.y (rectOf e) <= py <= Rect.y (rectOf e) + Rect.height (rectOf e).
Proof.
    unfold KDTree.queryPoint. intros H. apply filter_In in H. destruct H as [Hin Hc].
    split.
    - unfold KDTree.queryRange in Hin. apply queryRangeNode_sound in Hin.
      destruct Hin as [[] | Hin]. exact Hin.
    - unfold KDTree.contains in Hc.
      repeat (apply andb_true_iff in Hc; destruct Hc as [Hc ?]).
      repeat match goal with
             | H : Qgeb _ _ = true |- _ => apply Qgeb_ge in H
             | H : Qleb _ _ = true |- _ => apply Qleb_le in H
             end.
      repeat split; assumption.
Qed.

  (** What [queryPoint] reports also meets the unit rectangle at the
      point: the point is short of the far edges. *)
Lemma queryPoint_short_of_far_edges (t : KDTree.KDNode E) (px py : Q) (e : E) :
    In e (queryPoint t px py) ->
    px < Rect.x (rectOf e) + Rect.width (rectOf e) /\
    py < Rect.y (rectOf e) + Rect.height (rectOf e).
Proof.
    unfold KDTree.queryPoint, KDTree.queryRange. intros H.
    apply filter_In in H. destruct H as [Hin _].
    assert (Hgen : forall (s : KDTree.KDNode E) (res : list E),
               In e (queryRangeNode s (Rect.mk px py 1 1) res) ->
               In e res \/ KDTree.intersects (rectOf e) (Rect.mk px py 1 1) = true).
    { induction s as [| ne nax l IHl r IHr]; intros res; simpl.
      - auto.
      - intros H.
        assert (Hstep : forall (b : bool) (s : KDTree.KDNode E) (acc : list E),
                   (forall res0, In e (queryRangeNode s (Rect.mk px py 1 1) res0) ->
                                 In e res0 \/
                                 KDTree.intersects (rectOf e) (Rect.mk px py 1 1) = true) ->
                   In e (if b then queryRangeNode s (Rect.mk px py 1 1) acc else acc) ->
                   In e acc \/ KDTree.intersects (rectOf e) (Rect.mk px py 1 1) = true).
        { intros b s acc IH H0. destruct b; [apply IH, H0 | left; exact H0]. }
        apply (Hstep _ r _ IHr) in H. destruct H as [H | H]; [| now right].
        apply (Hstep _ l _ IHl) in H. destruct H as [H | H]; [| now right].
        apply (Hstep _ l _ IHl) in H. destruct H as [H | H]; [| now right].
        destruct (KDTree.intersects (rectOf ne) _) eqn:Hi.
        + apply in_app_or in H. destruct H as [H | [H | []]].
          * now left.
          * subst ne. now right.
        + now left. }
    apply Hgen in Hin. destruct Hin as [[] | Hi].
    unfold KDTree.intersects in Hi. apply negb_true_iff in Hi.
    repeat (apply orb_false_iff in Hi; destruct Hi as [Hi ?]).
    simpl in *.
    repeat match goal with
           | H : Qgeb _ _ = false |- _ => apply Qgeb_lt in H
           | H : Qleb _ _ = false |- _ => apply Qleb_gt in H
           end.
    split; lra.
Qed.

  (** Inserting keeps invariant I2. *)
Lemma I2_insertNode (t : KDTree.KDNode E) (e : E) (d : nat) :
    I2 rectOf t d -> I2 rectOf (insertNode t e d) d.
Proof.
    revert d. induction t as [| ne nax l IHl r IHr]; intros d; simpl.
    - intros _. repeat split; constructor.
    - intros (Hax & Hleft & Hl & Hr).
      destruct (Qltb _ _) eqn:Hlt; simpl; repeat split; auto.
      apply Qltb_lt in Hlt. rewrite <- Hax in Hlt.
      eapply Permutation_Forall.
      + symmetry. apply elements_insertNode.
      + constructor; assumption.
Qed.

End IndexFacts.

(** ** The index on concrete inputs *)

Section IndexOnInputs.
Import IndexOps Fixture.
Open Scope string_scope.

(** C1.  Index completeness fails on the code once a removal has
    promoted a child: after inserting A, B and C (B left of A, C right
    of B) and removing A, the node of B stands one level higher; the
    removal of C then compares on the other axis, descends to the wrong
    side and leaves C in the tree.  The query over a rectangle that has
    every item inside still reports C, which is no longer tracked. *)
Theorem C1_removed_item_still_reported :
  let ops := [Insert itemA; Insert itemB; Insert itemC; Remove itemA; Remove itemC] in
  Forall (fun it => inside (VirtualElement.rect it) everything) [itemA; itemB; itemC] /\
  NoDup (map VirtualElement.id [itemA; itemB; itemC]) /\
  trackedIds ops = ["B"] /\
  queryIds (applyAll ops) everything = ["B"; "C"] /\
  ~ sameIds (queryIds (applyAll ops) everything) (trackedIds ops).
Proof.
  cbv zeta.
  assert (Hq : queryIds
                 (applyAll [Insert itemA; Insert itemB; Insert itemC;
                            Remove itemA; Remove itemC]) everything = ["B"; "C"])
    by (vm_compute; reflexivity).
  assert (Ht : trackedIds [Insert itemA; Insert itemB; Insert itemC;
                           Remove itemA; Remove itemC] = ["B"])
    by (vm_compute; reflexivity).
  split; [| split; [| split; [| split]]].
  - repeat constructor; simpl; unfold Qle, Qlt; simpl; lia.
  - simpl. repeat constructor; simpl; intuition discriminate.
  - exact Ht.
  - exact Hq.
  - rewrite Hq, Ht. intros H.
    assert (Hin : In "C" ["B"]) by (apply H; simpl; auto).
    simpl in Hin. destruct Hin as [Hin | []]. discriminate Hin.
Qed.

(** C2.  A query reports an item of a left subtree twice when the
    query's lower bound is below the node's coordinate: the source
    descends left under [<] and again under [<=].  On the three items
    of the test suite the query over (0,0,100,100) yields four entries,
    where the tests expect three. *)
Theorem C2_left_item_reported_twice :
  let root := applyAll [Insert el1; Insert el2; Insert el3] in
  let q := Rect.mk 0 0 100 100 in
  queryIds root q = ["el1"; "el2"; "el2"; "el3"] /\
  ~ NoDup (KDTree.queryRange VirtualElement.rect root q).
Proof.
  cbv zeta. split.
  - vm_compute. reflexivity.
  - assert (Hr : KDTree.queryRange VirtualElement.rect
                   (applyAll [Insert el1; Insert el2; Insert el3])
                   (Rect.mk 0 0 100 100) = [el1; el2; el2; el3])
      by (vm_compute; reflexivity).
    rewrite Hr. intros H.
    inversion H as [| ? ? _ H1]; subst.
    inversion H1 as [| ? ? Hn _]; subst.
    apply Hn. now left.
Qed.

(** C3.  A point on the right and bottom edge of an item is not
    reported: [queryPoint] first asks [queryRange] for the unit
    rectangle at the point, and [intersects] treats rectangles as
    half-open, so the item is dropped before the inclusive [contains]
    filter runs.  The test suite expects the item at (20,30). *)
Theorem C3_point_on_far_edge_not_reported :
  let root := applyAll [Insert el1wide] in
  KDTree.contains (VirtualElement.rect el1wide) 20 30 = true /\
  In el1wide (KDTree.elements root) /\
  KDTree.queryPoint VirtualElement.rect root 20 30 = [] /\
  map VirtualElement.id (KDTree.queryPoint VirtualElement.rect root 10 20) = ["el1"].
Proof.
  cbv zeta. split; [| split; [| split]].
  - vm_compute. reflexivity.
  - simpl. now left.
  - vm_compute. reflexivity.
  - vm_compute. reflexivity.
Qed.

(** A second way in which [queryPoint] and [queryRange] miss an item:
    the descent to the left is pruned by the node's coordinate, while
    an item of the left subtree may reach beyond it.  The item (0,0)
    100 by 100 inserted after a root at x = 10 holds the point (50,50)
    and is reported neither for the point nor for a rectangle at it. *)
Lemma wide_left_item_missed :
  let root := applyAll [Insert (item "root" 10 0 5 5); Insert (item "wide" 0 0 100 100)] in
  KDTree.contains (Rect.mk 0 0 100 100) 50 50 = true /\
  KDTree.intersects (Rect.mk 0 0 100 100) (Rect.mk 50 50 10 10) = true /\
  KDTree.queryPoint VirtualElement.rect root 50 50 = [] /\
  KDTree.queryRange VirtualElement.rect root (Rect.mk 50 50 10 10) = [].
Proof.
  cbv zeta. split; [| split; [| split]]; vm_compute; reflexivity.
Qed.

(** C7.  Invariant I2 is lost by a removal that promotes a child: with
    B inserted to the left of A, removing A makes B's node the root,
    with the axis 1 it was created with at depth 1.  A later insert of
    D then goes left of B by its x, although D's coordinate on B's
    stored axis is greater than B's. *)
Theorem C7_promoted_child_breaks_I2 :
  I2 VirtualElement.rect (applyAll [Insert itemA; Insert itemB]) 0 /\
  applyAll [Insert itemA; Insert itemB; Remove itemA]
    = KDTree.Node itemB 1 KDTree.Null KDTree.Null /\
  ~ I2 VirtualElement.rect (applyAll [Insert itemA; Insert itemB; Remove itemA]) 0 /\
  applyAll [Insert itemA; Insert itemB; Remove itemA; Insert itemD]
    = KDTree.Node itemB 1 (KDTree.Node itemD 1 KDTree.Null KDTree.Null) KDTree.Null /\
  KDTree.coord VirtualElement.rect 1 itemB < KDTree.coord VirtualElement.rect 1 itemD.
Proof.
  assert (H1 : applyAll [Insert itemA; Insert itemB; Remove itemA]
               = KDTree.Node itemB 1 KDTree.Null KDTree.Null)
    by (vm_compute; reflexivity).
  split; [| split; [| split; [| split]]].
  - assert (H0 : applyAll [Insert itemA; Insert itemB]
                 = KDTree.Node itemA 0 (KDTree.Node itemB 1 KDTree.Null KDTree.Null)
                               KDTree.Null)
      by (vm_compute; reflexivity).
    rewrite H0. simpl. repeat split; try constructor.
    + unfold KDTree.coord, Qlt. simpl. lia.
    + constructor.
  - exact H1.
  - rewrite H1. simpl. intros (Hax & _). discriminate Hax.
  - vm_compute. reflexivity.
  - vm_compute. reflexivity.
Qed.

End IndexOnInputs.

(** ** The scroll coordinate engine *)

Lemma Math_max_Qmax a b : Math_max a b == Qmax a b.
Proof.
  destruct (Math_max_spec a b) as [[H ->] | [H ->]].
  - symmetry. apply Q.max_r. lra.
  - symmetry. apply Q.max_l. exact H.
Qed.

Lemma Math_min_Qmin a b : Math_min a b == Qmin a b.
Proof.
  destruct (Math_min_spec a b) as [[H ->] | [H ->]].
  - symmetry. apply Q.min_r. lra.
  - symmetry. apply Q.min_l. exact H.
Qed.

Lemma positive_part a : (if Qgtb a 0 then a else 0) == Qmax a 0.
Proof.
  destruct (Qgtb a 0) eqn:H.
  - apply Qgtb_gt in H. symmetry. apply Q.max_l. lra.
  - apply Qgtb_le in H. symmetry. apply Q.max_r. exact H.
Qed.

Lemma mapScroll_identity MAX total vp host :
  total <= MAX -> Scroll.mapScroll MAX total vp host = host.
Proof.
  intros H. unfold Scroll.mapScroll. apply Qleb_le in H. rewrite H. reflexivity.
Qed.

Lemma mapScroll_no_range MAX total vp host :
  MAX < total -> MAX - vp <= 0 -> Scroll.mapScroll MAX total vp host = 0.
Proof.
  intros H1 H2. unfold Scroll.mapScroll.
  apply Qleb_gt in H1. rewrite H1. apply Qleb_le in H2. rewrite H2. reflexivity.
Qed.

Lemma mapScroll_percentage MAX total vp host :
  MAX < total -> 0 < MAX - vp ->
  Scroll.mapScroll MAX total vp host ==
  Qmax 0 (Qmin 1 (host / (MAX - vp))) * Qmax (total - vp) 0.
Proof.
  intros H1 H2. unfold Scroll.mapScroll.
  apply Qleb_gt in H1. rewrite H1.
  pose proof H2 as H3. apply Qleb_gt in H3. rewrite H3.
  apply Qgtb_gt in H2. rewrite H2.
  rewrite Math_max_Qmax, Math_min_Qmin, positive_part. reflexivity.
Qed.

Lemma clampVirtualScroll_Qminmax total vp v :
  Scroll.clampVirtualScroll total vp v == Qmin (Qmax 0 v) (Qmax (total - vp) 0).
Proof.
  unfold Scroll.clampVirtualScroll.
  rewrite Math_min_Qmin, Math_max_Qmax, positive_part. reflexivity.
Qed.

Lemma clampVirtualScroll_range total vp v :
  0 <= Scroll.clampVirtualScroll total vp v <= Qmax (total - vp) 0.
Proof.
  rewrite clampVirtualScroll_Qminmax.
  pose proof (Q.le_max_r (total - vp) 0).
  pose proof (Q.le_max_l 0 v).
  split.
  - apply Q.min_glb; assumption.
  - apply Q.le_min_r.
Qed.

(** In percentage mode the clamping statements change nothing. *)
Lemma virtualScroll_percentage (MAX total viewport hostScroll : Q) :
  MAX < total -> 0 < MAX - viewport ->
  Scroll.virtualScroll MAX total viewport hostScroll ==
  Qmax 0 (Qmin 1 (hostScroll / (MAX - viewport))) * Qmax (total - viewport) 0.
Proof.
  intros H1 H2. unfold Scroll.virtualScroll.
  rewrite clampVirtualScroll_Qminmax, (mapScroll_percentage _ _ _ _ H1 H2).
  set (p := Qmax 0 (Qmin 1 (hostScroll / (MAX - viewport)))).
  set (m := Qmax (total - viewport) 0).
  assert (Hp0 : 0 <= p) by apply Q.le_max_l.
  assert (Hp1 : p <= 1).
  { unfold p. apply Q.max_lub; [lra | apply Q.le_min_l]. }
  assert (Hm : 0 <= m) by apply Q.le_max_r.
  assert (H0 : 0 <= p * m) by nra.
  assert (H3 : p * m <= m) by nra.
  rewrite (Q.max_r _ _ H0). apply Q.min_l. exact H3.
Qed.

(** In identity mode the handler leaves the host offset, cut at the end
    of the virtual range. *)
Lemma virtualScroll_identity (MAX total viewport hostScroll : Q) :
  total <= MAX -> 0 <= hostScroll ->
  Scroll.virtualScroll MAX total viewport hostScroll ==
  Qmin hostScroll (Qmax (total - viewport) 0).
Proof.
  intros H1 H2. unfold Scroll.virtualScroll.
  rewrite clampVirtualScroll_Qminmax, (mapScroll_identity _ _ _ _ H1).
  rewrite (Q.max_r _ _ H2). reflexivity.
Qed.

Lemma virtualScroll_OffsetMapping (MAX total viewport hostScroll : Q) :
  OffsetMapping MAX total viewport hostScroll
    (Scroll.mapScroll MAX total viewport hostScroll)
    (Scroll.virtualScroll MAX total viewport hostScroll).
Proof.
  unfold OffsetMapping.
  split; [| split; [| split; [| split; [| split; [| split]]]]].
  - intros H. rewrite (mapScroll_identity _ _ _ _ H). reflexivity.
  - intros H1 H2. rewrite (mapScroll_no_range _ _ _ _ H1 H2). reflexivity.
  - intros H1 H2. apply mapScroll_percentage; assumption.
  - unfold Scroll.virtualScroll. apply clampVirtualScroll_Qminmax.
  - unfold Scroll.virtualScroll. apply clampVirtualScroll_range.
  - intros H1. destruct (Qlt_le_dec 0 (MAX - viewport)) as [H2 | H2].
    + rewrite (virtualScroll_percentage _ _ _ _ H1 H2).
      symmetry. apply mapScroll_percentage; assumption.
    + unfold Scroll.virtualScroll.
      rewrite (mapScroll_no_range _ _ _ _ H1 H2), clampVirtualScroll_Qminmax.
      rewrite (Q.max_l 0 0) by lra. apply Q.min_l. apply Q.le_max_r.
  - intros H1 [H2 H3]. rewrite (virtualScroll_identity _ _ _ _ H1 H2).
    apply Q.min_l. exact H3.
Qed.

(** What [handleScroll] leaves in the two virtual offsets. *)
Lemma handleScroll_offsets (w : Virtualboy.World) :
  Virtualboy.virtualScrollTop (Virtualboy.vb (Virtualboy.handleScroll w))
  = Scroll.virtualScroll Scroll.MAX_SCROLL_HEIGHT
      (Virtualboy.totalVirtualHeight (Virtualboy.vb w))
      (Host.clientHeight (Virtualboy.host w)) (Host.scrollTop (Virtualboy.host w))
  /\
  Virtualboy.virtualScrollLeft (Virtualboy.vb (Virtualboy.handleScroll w))
  = Scroll.virtualScroll Scroll.MAX_SCROLL_WIDTH
      (Virtualboy.totalVirtualWidth (Virtualboy.vb w))
      (Host.clientWidth (Virtualboy.host w)) (Host.scrollLeft (Virtualboy.host w)).
Proof.
  unfold Virtualboy.handleScroll. simpl.
  destruct (Virtualboy.updateQueued (Virtualboy.vb w)); simpl; split; reflexivity.
Qed.

(** C4.  The scroll handler's offset mapping.  On each axis the branch
    of the handler assigns the host offset when the virtual extent is
    within the cap (1,000,000); beyond the cap it assigns 0 when the
    surface has no scrollable range and otherwise the clamped ratio of
    the host offset to that range, times the virtual scrollable range.
    The value the handler leaves is that value clamped, and lies
    between 0 and max(total - viewport, 0): beyond the cap it is the
    assigned value itself, within the cap it is the host offset as long
    as that does not exceed max(total - viewport, 0). *)
Theorem C4_scroll_handler_offset_mapping (w : Virtualboy.World) :
  let hostScrollTop := Host.scrollTop (Virtualboy.host w) in
  let viewportHeight := Host.clientHeight (Virtualboy.host w) in
  let totalVirtualHeight := Virtualboy.totalVirtualHeight (Virtualboy.vb w) in
  let hostScrollLeft := Host.scrollLeft (Virtualboy.host w) in
  let viewportWidth := Host.clientWidth (Virtualboy.host w) in
  let totalVirtualWidth := Virtualboy.totalVirtualWidth (Virtualboy.vb w) in
  0 <= hostScrollTop -> 0 <= viewportHeight -> 0 <= totalVirtualHeight ->
  0 <= hostScrollLeft -> 0 <= viewportWidth -> 0 <= totalVirtualWidth ->
  Scroll.MAX_SCROLL_HEIGHT = 1000000 /\ Scroll.MAX_SCROLL_WIDTH = 1000000 /\
  OffsetMapping Scroll.MAX_SCROLL_HEIGHT totalVirtualHeight viewportHeight hostScrollTop
    (Scroll.mapScroll Scroll.MAX_SCROLL_HEIGHT totalVirtualHeight viewportHeight
       hostScrollTop)
    (Virtualboy.virtualScrollTop (Virtualboy.vb (Virtualboy.handleScroll w))) /\
  OffsetMapping Scroll.MAX_SCROLL_WIDTH totalVirtualWidth viewportWidth hostScrollLeft
    (Scroll.mapScroll Scroll.MAX_SCROLL_WIDTH totalVirtualWidth viewportWidth
       hostScrollLeft)
    (Virtualboy.virtualScrollLeft (Virtualboy.vb (Virtualboy.handleScroll w))).
Proof.
  intros hostScrollTop viewportHeight totalVirtualHeight
         hostScrollLeft viewportWidth totalVirtualWidth _ _ _ _ _ _.
  destruct (handleScroll_offsets w) as [Ht Hl]. rewrite Ht, Hl.
  split; [reflexivity | split; [reflexivity | split]];
    apply virtualScroll_OffsetMapping.
Qed.

(** Decides a closed comparison of rationals. *)
Ltac qdecide :=
  vm_compute;
  first [ reflexivity
        | let H := fresh in intro H; discriminate H
        | split; [ let H := fresh in intro H; discriminate H
                 | let H := fresh in intro H; discriminate H ] ].

(** The scroll scenarios of the spec: identity below the cap, and the
    percentage mapping at 50 percent, at the end and at the start of the range. *)
Example scroll_identity_scenario :
  Scroll.virtualScroll Scroll.MAX_SCROLL_HEIGHT 5000 600 1000 == 1000.
Proof. vm_compute. reflexivity. Qed.

Example scroll_percentage_scenarios :
  Scroll.MAX_SCROLL_HEIGHT - 600 == 999400 /\
  Scroll.virtualScroll Scroll.MAX_SCROLL_HEIGHT 2000000 600 499700 == 999700 /\
  Scroll.virtualScroll Scroll.MAX_SCROLL_HEIGHT 2000000 600 999400 == 1999400 /\
  Scroll.virtualScroll Scroll.MAX_SCROLL_HEIGHT 2000000 600 0 == 0.
Proof. repeat split; vm_compute; reflexivity. Qed.

Section ScrollOnInputs.
Import Virtualboy Fixture.

Lemma C4_scroll_handler_offset_mapping_witness :
  let w := run (constructor (hostWithChild 2000) None) [ScrollTo 100 0] in
  0 <= Host.scrollTop (host w) /\
  0 <= Host.clientHeight (host w) /\
  0 <= totalVirtualHeight (vb w) /\
  OffsetMapping Scroll.MAX_SCROLL_HEIGHT (totalVirtualHeight (vb w))
    (Host.clientHeight (host w)) (Host.scrollTop (host w))
    (Scroll.mapScroll Scroll.MAX_SCROLL_HEIGHT (totalVirtualHeight (vb w))
       (Host.clientHeight (host w)) (Host.scrollTop (host w)))
    (virtualScrollTop (vb (handleScroll w))).
Proof.
  cbv zeta.
  pose proof (C4_scroll_handler_offset_mapping
                (run (constructor (hostWithChild 2000) None) [ScrollTo 100 0])) as H.
  cbv zeta in H.
  assert (H1 : 0 <= Host.scrollTop
                      (host (run (constructor (hostWithChild 2000) None) [ScrollTo 100 0])))
    by qdecide.
  assert (H2 : 0 <= Host.clientHeight
                      (host (run (constructor (hostWithChild 2000) None) [ScrollTo 100 0])))
    by qdecide.
  assert (H3 : 0 <= totalVirtualHeight
                      (vb (run (constructor (hostWithChild 2000) None) [ScrollTo 100 0])))
    by qdecide.
  assert (H4 : 0 <= Host.scrollLeft
                      (host (run (constructor (hostWithChild 2000) None) [ScrollTo 100 0])))
    by qdecide.
  assert (H5 : 0 <= Host.clientWidth
                      (host (run (constructor (hostWithChild 2000) None) [ScrollTo 100 0])))
    by qdecide.
  assert (H6 : 0 <= totalVirtualWidth
                      (vb (run (constructor (hostWithChild 2000) None) [ScrollTo 100 0])))
    by qdecide.
  destruct (H H1 H2 H3 H4 H5 H6) as (_ & _ & Hv & _).
  repeat split; try assumption; apply Hv.
Defined.

End ScrollOnInputs.

Lemma sizerSize_Qmin MAX total : Scroll.sizerSize MAX total == Qmin total MAX.
Proof.
  unfold Scroll.sizerSize. destruct (Qgtb total MAX) eqn:H.
  - apply Qgtb_gt in H. symmetry. apply Q.min_r. lra.
  - apply Qgtb_le in H. symmetry. apply Q.min_l. exact H.
Qed.

(** [restoreScroll] in identity mode. *)
Lemma restoreScroll_identity MAX total vp saved sizer :
  total <= MAX -> 0 <= saved -> saved <= Qmax (sizer - vp) 0 ->
  Scroll.restoreScroll MAX total vp saved sizer == saved.
Proof.
  intros H1 H2 H3. unfold Scroll.restoreScroll.
  apply Qleb_le in H1. rewrite H1.
  destruct (Qgtb (sizer - vp) 0) eqn:Hs.
  - apply Qgtb_gt in Hs. rewrite (Q.max_l (sizer - vp) 0) in H3 by lra.
    rewrite Math_min_Qmin, Math_max_Qmax.
    rewrite (Q.max_r 0 saved H2). apply Q.min_l. exact H3.
  - apply Qgtb_le in Hs. rewrite (Q.max_r (sizer - vp) 0 Hs) in H3. lra.
Qed.

(** [restoreScroll] in percentage mode, for an offset that is the
    fraction [p] of the virtual range. *)
Lemma restoreScroll_percentage MAX total vp saved sizer p :
  MAX < total -> 0 < MAX - vp -> sizer == MAX ->
  0 <= p <= 1 -> saved == p * (total - vp) ->
  Scroll.restoreScroll MAX total vp saved sizer == p * (MAX - vp).
Proof.
  intros H1 H2 H3 [Hp0 Hp1] H4. unfold Scroll.restoreScroll.
  apply Qleb_gt in H1. rewrite H1. apply Qleb_gt in H1.
  assert (Hv : 0 < total - vp) by lra.
  pose proof Hv as Hv'. apply Qgtb_gt in Hv'. rewrite Hv'.
  pose proof H2 as H2'. apply Qgtb_gt in H2'. rewrite H2'.
  assert (Hs : 0 < sizer - vp) by lra.
  pose proof Hs as Hs'. apply Qgtb_gt in Hs'. rewrite Hs'.
  rewrite Math_min_Qmin, !Math_max_Qmax, Math_min_Qmin.
  assert (Hq : saved / (total - vp) == p).
  { rewrite H4. field. lra. }
  rewrite Hq. rewrite (Q.min_r 1 p Hp1), (Q.max_r 0 p Hp0).
  assert (H0 : 0 <= p * (MAX - vp)) by nra.
  rewrite (Q.max_r _ _ H0). apply Q.min_l. rewrite H3. nra.
Qed.

Lemma restoreScroll_inverts MAX total total' vp host saved sizer :
  total' == total ->
  saved == Scroll.virtualScroll MAX total vp host ->
  sizer == Scroll.sizerSize MAX total' ->
  0 <= host <= Qmax (Qmin total MAX - vp) 0 ->
  Scroll.restoreScroll MAX total' vp saved sizer == host.
Proof.
  intros Ht Hs Hz [Hh0 Hh1].
  rewrite sizerSize_Qmin in Hz.
  destruct (Qlt_le_dec MAX total) as [Hbig | Hsmall].
  - (* percentage mode *)
    rewrite (Q.min_r total MAX) in Hh1 by lra.
    rewrite (Q.min_r total' MAX) in Hz by lra.
    destruct (Qlt_le_dec 0 (MAX - vp)) as [Hm | Hm].
    + rewrite (Q.max_l (MAX - vp) 0) in Hh1 by lra.
      rewrite (virtualScroll_percentage _ _ _ _ Hbig Hm) in Hs.
      assert (Hp : 0 <= host / (MAX - vp) <= 1).
      { split; [apply Qle_shift_div_l | apply Qle_shift_div_r]; lra. }
      destruct Hp as [Hp0 Hp1].
      rewrite (Q.min_r 1 _ Hp1), (Q.max_r 0 _ Hp0) in Hs.
      rewrite (Q.max_l (total - vp) 0) in Hs by lra.
      rewrite (restoreScroll_percentage MAX total' vp saved sizer (host / (MAX - vp))).
      * field. lra.
      * lra.
      * exact Hm.
      * exact Hz.
      * split; assumption.
      * rewrite Hs, Ht. reflexivity.
    + rewrite (Q.max_r (MAX - vp) 0 Hm) in Hh1.
      assert (Hhost : host == 0) by lra.
      unfold Scroll.restoreScroll.
      assert (Hc : Qgtb (sizer - vp) 0 = false) by (apply Qgtb_le; lra).
      rewrite Hc. symmetry. exact Hhost.
  - (* identity mode *)
    rewrite (Q.min_l total MAX Hsmall) in Hh1.
    rewrite (Q.min_l total' MAX) in Hz by lra.
    rewrite (virtualScroll_identity _ _ _ _ Hsmall Hh0) in Hs.
    rewrite (Q.min_l _ _ Hh1) in Hs.
    rewrite <- Hs. apply restoreScroll_identity.
    + lra.
    + lra.
    + rewrite Hz, Ht, Hs. exact Hh1.
Qed.

(** ** The manager: what each operation leaves alone *)

Section Frames.
Import Virtualboy.

Lemma fold_left_invariant {A B : Type} (f : A -> B -> A) (I : A -> Prop)
    (l : list B) (a : A) :
  I a -> (forall a' b, I a' -> I (f a' b)) -> I (fold_left f l a).
Proof.
  intros Ha Hf. revert a Ha. induction l as [| b l IH]; intros a Ha; simpl.
  - exact Ha.
  - apply IH, Hf, Ha.
Qed.

Lemma Unchanged_refl w : Unchanged w w.
Proof. split; reflexivity. Qed.

Lemma Unchanged_trans w1 w2 w3 : Unchanged w1 w2 -> Unchanged w2 w3 -> Unchanged w1 w3.
Proof.
  intros [H1 H2] [H3 H4]. split; congruence.
Qed.

Ltac frame :=
  repeat match goal with
         | |- context [match ?x with _ => _ end] => destruct x
         end;
  repeat split; reflexivity.

Lemma updateSizer_frame w :
  Unchanged w (updateSizer w) /\
  vb (updateSizer w) = vb w /\
  objects (updateSizer w) = objects w /\
  nextObject (updateSizer w) = nextObject w /\
  Host.children (host (updateSizer w)) = Host.children (host w) /\
  Host.console (host (updateSizer w)) = Host.console (host w).
Proof. unfold updateSizer, Unchanged. frame. Qed.

Lemma processRemoval_frame ids w i :
  Unchanged w (processRemoval ids w i) /\
  vbLayout (vb (processRemoval ids w i)) = vbLayout (vb w) /\
  Host.nodes (host (processRemoval ids w i)) = Host.nodes (host w).
Proof. unfold processRemoval, Unchanged. frame. Qed.

Lemma placeElement_frame w r :
  Unchanged w (placeElement w r) /\
  vb (placeElement w r) = vb w /\
  objects (placeElement w r) = objects w /\
  Host.children (host (placeElement w r)) = Host.children (host w).
Proof. unfold placeElement, Unchanged. frame. Qed.

Lemma processAddition_frame acc r :
  Unchanged (fst (fst acc)) (fst (fst (processAddition acc r))) /\
  vb (fst (fst (processAddition acc r))) = vb (fst (fst acc)).
Proof.
  destruct acc as [[w fragment] added]. unfold processAddition, Unchanged. simpl.
  frame.
Qed.

Lemma updateVisibleElements_frame w :
  Unchanged w (updateVisibleElements w) /\
  vbLayout (vb (updateVisibleElements w)) = vbLayout (vb w).
Proof.
  unfold updateVisibleElements.
  set (q := KDTree.queryRange _ _ _).
  set (ids := map _ q).
  set (w1 := fold_left (processRemoval ids) _ w).
  assert (H1 : Unchanged w w1 /\ vbLayout (vb w1) = vbLayout (vb w)).
  { unfold w1. apply fold_left_invariant.
    - split; [apply Unchanged_refl | reflexivity].
    - intros a b [Ha1 Ha2]. destruct (processRemoval_frame ids a b) as (Hb1 & Hb2 & _).
      split; [eapply Unchanged_trans; eassumption | congruence]. }
  clearbody w1.
  assert (H2 : Unchanged w (fst (fst (fold_left processAddition q (w1, [], []))))
               /\ vbLayout (vb (fst (fst (fold_left processAddition q (w1, [], [])))))
                  = vbLayout (vb w)).
  { apply (fold_left_invariant processAddition
             (fun acc => Unchanged w (fst (fst acc))
                         /\ vbLayout (vb (fst (fst acc))) = vbLayout (vb w))).
    - exact H1.
    - intros a b [Ha1 Ha2]. destruct (processAddition_frame a b) as (Hb1 & Hb2).
      split; [eapply Unchanged_trans; eassumption | congruence]. }
  destruct (fold_left processAddition q (w1, [], [])) as [[w2 fragment] added].
  simpl in H2.
  set (w3 := match fragment with [] => w2 | _ :: _ => _ end).
  assert (H3 : Unchanged w w3 /\ vbLayout (vb w3) = vbLayout (vb w)).
  { unfold w3. destruct fragment; [exact H2 |]. exact H2. }
  clearbody w3.
  apply fold_left_invariant.
  - exact H3.
  - intros a b [[Ha1 Ha1'] Ha2]. repeat split; assumption.
Qed.


Lemma detachVisible_frame w i :
  Unchanged w (detachVisible w i) /\
  vb (detachVisible w i) = vb w /\
  Host.nodes (host (detachVisible w i)) = Host.nodes (host w).
Proof. unfold detachVisible, Unchanged. frame. Qed.

Lemma fold_detachVisible_frame l w :
  Unchanged w (fold_left detachVisible l w) /\
  vb (fold_left detachVisible l w) = vb w /\
  Host.nodes (host (fold_left detachVisible l w)) = Host.nodes (host w).
Proof.
  apply fold_left_invariant.
  - repeat split; reflexivity.
  - intros a b (Ha1 & Ha2 & Ha3). destruct (detachVisible_frame a b) as (Hb1 & Hb2 & Hb3).
    repeat split; try congruence. eapply Unchanged_trans; eassumption.
Qed.

Lemma remeasureItem_frame acc r :
  host (fst (fst (remeasureItem acc r))) = host (fst (fst acc)) /\
  vbStatic (vb (fst (fst (remeasureItem acc r)))) = vbStatic (vb (fst (fst acc))) /\
  elements (vb (fst (fst (remeasureItem acc r)))) = elements (vb (fst (fst acc))) /\
  currentlyVisibleElements (vb (fst (fst (remeasureItem acc r))))
  = currentlyVisibleElements (vb (fst (fst acc))) /\
  virtualScrollTop (vb (fst (fst (remeasureItem acc r))))
  = virtualScrollTop (vb (fst (fst acc))) /\
  virtualScrollLeft (vb (fst (fst (remeasureItem acc r))))
  = virtualScrollLeft (vb (fst (fst acc))).
Proof.
  destruct acc as [[w h] wd]. unfold remeasureItem. simpl. repeat split; reflexivity.
Qed.

Lemma handleElementAdded_frame element refChild isInitialDiscovery w :
  Unchanged w (handleElementAdded element refChild isInitialDiscovery w) /\
  virtualScrollTop (vb (handleElementAdded element refChild isInitialDiscovery w))
  = virtualScrollTop (vb w) /\
  virtualScrollLeft (vb (handleElementAdded element refChild isInitialDiscovery w))
  = virtualScrollLeft (vb w) /\
  currentlyVisibleElements (vb (handleElementAdded element refChild isInitialDiscovery w))
  = currentlyVisibleElements (vb w).
Proof.
  unfold handleElementAdded.
  destruct (truthy (HTMLElement.id (Host.nodes (host w) element))
            && JsMap.has (elements (vb w))
                 (HTMLElement.id (Host.nodes (host w) element))).
  - unfold Unchanged. repeat split; reflexivity.
  - cbv zeta.
    match goal with
    | |- context [updateSizer ?w0] =>
        destruct (updateSizer_frame w0) as ((Hs1 & Hs2) & Hs3 & _);
        set (w1 := updateSizer w0) in *
    end.
    unfold Unchanged.
    destruct (truthy (HTMLElement.id (Host.nodes (host w1) element))); simpl;
      rewrite ?Hs3; unfold hostStatic, vbStatic in *; simpl in *;
      (repeat split; try reflexivity);
      destruct isInitialDiscovery; simpl in *; congruence.
Qed.


Lemma handleElementRemoved_frame element w :
  Unchanged w (handleElementRemoved element w) /\
  virtualScrollTop (vb (handleElementRemoved element w)) = virtualScrollTop (vb w) /\
  virtualScrollLeft (vb (handleElementRemoved element w)) = virtualScrollLeft (vb w).
Proof.
  unfold handleElementRemoved.
  destruct (truthy _ && JsMap.has _ _); [| unfold Unchanged; repeat split; reflexivity].
  destruct (JsMap.get _ _) as [item |]; [| unfold Unchanged; repeat split; reflexivity].
  cbv zeta.
  destruct (fold_left _ _ (0, 0)) as [newTotalHeight newTotalWidth].
  match goal with
  | |- context [updateSizer ?w0] =>
      destruct (updateSizer_frame w0) as ((Hs1 & Hs2) & Hs3 & _);
      set (w1 := updateSizer w0) in *
  end.
  unfold Unchanged.
  destruct (VirtualElement.isVisible (objects w1 item)); simpl;
    rewrite ?Hs3; unfold hostStatic, vbStatic in *; simpl in *;
    (repeat split; try reflexivity); congruence.
Qed.

(** The size [remeasure] reads back from the sizer. *)
Lemma actualSizerFor_updateSizer w :
  actualSizerFor Style.height (updateSizer w)
  = match sizerElement (vb w) with
    | Some _ => Scroll.sizerSize Scroll.MAX_SCROLL_HEIGHT (totalVirtualHeight (vb w))
    | None => 0
    end /\
  actualSizerFor Style.width (updateSizer w)
  = match sizerElement (vb w) with
    | Some _ => Scroll.sizerSize Scroll.MAX_SCROLL_WIDTH (totalVirtualWidth (vb w))
    | None => 0
    end.
Proof.
  unfold actualSizerFor, updateSizer.
  destruct (sizerElement (vb w)) as [sizer |] eqn:Hs; simpl.
  - rewrite Hs. simpl. rewrite Nat.eqb_refl. simpl. split; reflexivity.
  - rewrite Hs. split; reflexivity.
Qed.

Lemma hostStatic_inv h h' :
  hostStatic h' = hostStatic h ->
  Host.scrollTop h' = Host.scrollTop h /\ Host.scrollLeft h' = Host.scrollLeft h /\
  Host.clientWidth h' = Host.clientWidth h /\ Host.clientHeight h' = Host.clientHeight h /\
  Host.stylePosition h' = Host.stylePosition h /\
  Host.sheetPosition h' = Host.sheetPosition h /\
  Host.scrollListener h' = Host.scrollListener h /\
  Host.intercepted h' = Host.intercepted h /\
  Host.frameQueue h' = Host.frameQueue h /\ Host.nextNode h' = Host.nextNode h.
Proof.
  unfold hostStatic. intros H. injection H as H1 H2 H3 H4 H5 H6 H7 H8 H9 H10.
  repeat split; assumption.
Qed.

Lemma vbStatic_inv v v' :
  vbStatic v' = vbStatic v ->
  measureFunction v' = measureFunction v /\
  originalParentPosition v' = originalParentPosition v /\
  sizerElement v' = sizerElement v /\ updateQueued v' = updateQueued v.
Proof.
  unfold vbStatic. intros H. injection H as H1 H2 H3 H4. repeat split; assumption.
Qed.

Lemma vbLayout_inv v v' :
  vbLayout v' = vbLayout v ->
  kdTree v' = kdTree v /\ elements v' = elements v /\
  virtualScrollTop v' = virtualScrollTop v /\
  virtualScrollLeft v' = virtualScrollLeft v /\
  totalVirtualWidth v' = totalVirtualWidth v /\
  totalVirtualHeight v' = totalVirtualHeight v /\
  nextElementId v' = nextElementId v.
Proof.
  unfold vbLayout. intros H. injection H as H1 H2 H3 H4 H5 H6 H7.
  repeat split; assumption.
Qed.

Lemma remeasure_facts w :
  let w' := remeasure w in
  let sized (MAX total : Q) :=
    match sizerElement (vb w) with
    | Some _ => Scroll.sizerSize MAX total
    | None => 0
    end in
  Host.clientWidth (host w') = Host.clientWidth (host w) /\
  Host.clientHeight (host w') = Host.clientHeight (host w) /\
  Host.frameQueue (host w') = Host.frameQueue (host w) /\
  Host.scrollListener (host w') = Host.scrollListener (host w) /\
  Host.intercepted (host w') = Host.intercepted (host w) /\
  vbStatic (vb w') = vbStatic (vb w) /\
  elements (vb w') = elements (vb w) /\
  nextElementId (vb w') = nextElementId (vb w) /\
  Host.scrollTop (host w')
  = Scroll.restoreScroll Scroll.MAX_SCROLL_HEIGHT (totalVirtualHeight (vb w'))
      (Host.clientHeight (host w)) (virtualScrollTop (vb w))
      (sized Scroll.MAX_SCROLL_HEIGHT (totalVirtualHeight (vb w'))) /\
  Host.scrollLeft (host w')
  = Scroll.restoreScroll Scroll.MAX_SCROLL_WIDTH (totalVirtualWidth (vb w'))
      (Host.clientWidth (host w)) (virtualScrollLeft (vb w))
      (sized Scroll.MAX_SCROLL_WIDTH (totalVirtualWidth (vb w'))) /\
  virtualScrollTop (vb w')
  = Scroll.remapScroll Scroll.MAX_SCROLL_HEIGHT (totalVirtualHeight (vb w'))
      (Host.clientHeight (host w)) (Host.scrollTop (host w')) /\
  virtualScrollLeft (vb w')
  = Scroll.remapScroll Scroll.MAX_SCROLL_WIDTH (totalVirtualWidth (vb w'))
      (Host.clientWidth (host w)) (Host.scrollLeft (host w')).
Proof.
  cbv zeta. unfold remeasure.
  destruct (fold_detachVisible_frame (currentlyVisibleElements (vb w)) w)
    as ((Hd1 & Hd2) & Hd3 & _).
  set (w1 := fold_left detachVisible _ w) in *.
  set (w3 := updVb (set_kdTree KDTree.Null) (updVb (set_currentlyVisibleElements []) w1)).
  assert (H3 : hostStatic (host w3) = hostStatic (host w)
               /\ vbStatic (vb w3) = vbStatic (vb w)
               /\ elements (vb w3) = elements (vb w)
               /\ nextElementId (vb w3) = nextElementId (vb w)
               /\ virtualScrollTop (vb w3) = virtualScrollTop (vb w)
               /\ virtualScrollLeft (vb w3) = virtualScrollLeft (vb w)).
  { unfold w3. simpl. rewrite Hd3. unfold vbStatic in *. simpl.
    repeat split; congruence. }
  clearbody w3. clear w1 Hd1 Hd2 Hd3.
  set (init := (w3, 0, Host.clientWidth (host w3))).
  assert (H4 : let acc := fold_left remeasureItem (JsMap.values (elements (vb w3))) init in
               hostStatic (host (fst (fst acc))) = hostStatic (host w)
               /\ vbStatic (vb (fst (fst acc))) = vbStatic (vb w)
               /\ elements (vb (fst (fst acc))) = elements (vb w)
               /\ nextElementId (vb (fst (fst acc))) = nextElementId (vb w)
               /\ virtualScrollTop (vb (fst (fst acc))) = virtualScrollTop (vb w)
               /\ virtualScrollLeft (vb (fst (fst acc))) = virtualScrollLeft (vb w)).
  { cbv zeta. apply fold_left_invariant.
    - exact H3.
    - intros [[a h] wd] b Ha. unfold remeasureItem. simpl in *. exact Ha. }
  cbv zeta in H4.
  destruct (fold_left remeasureItem _ init) as [[w4 newH] newW]. simpl in H4.
  clear init H3.
  destruct H4 as (Hh & Hv & He & Hn & Ht & Hl).
  apply hostStatic_inv in Hh.
  destruct Hh as (_ & _ & Hcw & Hch & _ & _ & Hsl & Hin & Hfq & _).
  apply vbStatic_inv in Hv. destruct Hv as (Hmf & Hop & Hsz & Huq).
  set (w4' := updVb (set_totalVirtualWidth newW) (updVb (set_totalVirtualHeight newH) w4)).
  destruct (updateSizer_frame w4') as ((Hs1 & _) & Hs3 & _).
  destruct (actualSizerFor_updateSizer w4') as (Ha1 & Ha2).
  apply hostStatic_inv in Hs1.
  destruct Hs1 as (_ & _ & Hcw5 & Hch5 & _ & _ & Hsl5 & Hin5 & Hfq5 & _).
  set (w5 := updateSizer w4') in *.
  assert (Hw : forall side v, actualSizerFor side (updHost (Host.set_scrollTop v) w5)
                              = actualSizerFor side w5) by reflexivity.
  cbn [updHost updVb vb host
       set_virtualScrollTop set_virtualScrollLeft
       virtualScrollTop virtualScrollLeft totalVirtualWidth totalVirtualHeight
       Host.set_scrollTop Host.set_scrollLeft Host.scrollTop Host.scrollLeft
       Host.clientWidth Host.clientHeight].
  rewrite !Hw, Ha1, Ha2.
  assert (HvH : totalVirtualHeight (vb w5) = newH) by (rewrite Hs3; reflexivity).
  assert (HvW : totalVirtualWidth (vb w5) = newW) by (rewrite Hs3; reflexivity).
  assert (Hsz5 : sizerElement (vb w4') = sizerElement (vb w)) by exact Hsz.
  assert (HtH : totalVirtualHeight (vb w4') = newH) by reflexivity.
  assert (HtW : totalVirtualWidth (vb w4') = newW) by reflexivity.
  rewrite Hsz5, HtH, HtW, HvH, HvW.
  assert (Hcw4 : Host.clientWidth (host w4') = Host.clientWidth (host w)) by exact Hcw.
  assert (Hch4 : Host.clientHeight (host w4') = Host.clientHeight (host w)) by exact Hch.
  rewrite Hcw4 in Hcw5. rewrite Hch4 in Hch5. rewrite Hcw5, Hch5.
  match goal with
  | |- context [updateVisibleElements ?w0] =>
      destruct (updateVisibleElements_frame w0) as ((Hu1 & Hu2) & Hu3);
      set (w9 := w0) in *
  end.
  apply hostStatic_inv in Hu1.
  destruct Hu1 as (Hu_t & Hu_l & Hu_cw & Hu_ch & _ & _ & Hu_sl & Hu_in & Hu_fq & _).
  apply vbStatic_inv in Hu2. destruct Hu2 as (Hu_mf & Hu_op & Hu_sz & Hu_uq).
  apply vbLayout_inv in Hu3.
  destruct Hu3 as (_ & Hu_e & Hu_vt & Hu_vl & Hu_w & Hu_h & Hu_n).
  rewrite Hu_t, Hu_l, Hu_cw, Hu_ch, Hu_sl, Hu_in, Hu_fq, Hu_e, Hu_vt, Hu_vl,
          Hu_w, Hu_h, Hu_n.
  unfold vbStatic. rewrite Hu_mf, Hu_op, Hu_sz, Hu_uq.
  unfold w9. simpl.
  rewrite Hs3. simpl.
  assert (Hfq4 : Host.frameQueue (host w4') = Host.frameQueue (host w)) by exact Hfq.
  assert (Hsl4 : Host.scrollListener (host w4') = Host.scrollListener (host w)) by exact Hsl.
  assert (Hin4 : Host.intercepted (host w4') = Host.intercepted (host w)) by exact Hin.
  repeat split; try congruence.
Qed.

End Frames.

(** ** Remeasure and the host's scroll offsets *)

Section RemeasureScroll.
Import Virtualboy Fixture.

(** C5, as amended.  With the sizer in place, an unchanged total extent
    and a virtual offset that the forward mapping derived from the host
    offset, [remeasure] writes back the host offset it found, provided
    that offset lies within the surface's scrollable range, from 0 to
    max(min(total, cap) - viewport, 0).  On both axes. *)
Theorem C5_remeasure_restores_offset_within_range (w : World) :
  let w' := remeasure w in
  sizerElement (vb w) <> None ->
  (virtualScrollTop (vb w)
   == Scroll.virtualScroll Scroll.MAX_SCROLL_HEIGHT (totalVirtualHeight (vb w))
        (Host.clientHeight (host w)) (Host.scrollTop (host w)) ->
   totalVirtualHeight (vb w') == totalVirtualHeight (vb w) ->
   0 <= Host.scrollTop (host w)
     <= Qmax (Qmin (totalVirtualHeight (vb w)) Scroll.MAX_SCROLL_HEIGHT
              - Host.clientHeight (host w)) 0 ->
   Host.scrollTop (host w') == Host.scrollTop (host w))
  /\
  (virtualScrollLeft (vb w)
   == Scroll.virtualScroll Scroll.MAX_SCROLL_WIDTH (totalVirtualWidth (vb w))
        (Host.clientWidth (host w)) (Host.scrollLeft (host w)) ->
   totalVirtualWidth (vb w') == totalVirtualWidth (vb w) ->
   0 <= Host.scrollLeft (host w)
     <= Qmax (Qmin (totalVirtualWidth (vb w)) Scroll.MAX_SCROLL_WIDTH
              - Host.clientWidth (host w)) 0 ->
   Host.scrollLeft (host w') == Host.scrollLeft (host w)).
Proof.
  intros w' Hsizer.
  destruct (remeasure_facts w) as (_ & _ & _ & _ & _ & _ & _ & _ & Htop & Hleft & _).
  fold w' in Htop, Hleft.
  destruct (sizerElement (vb w)) as [sizer |]; [| contradiction Hsizer; reflexivity].
  split; intros Hsaved Htotal Hrange.
  - rewrite Htop.
    apply (restoreScroll_inverts _ (totalVirtualHeight (vb w))); try assumption.
    reflexivity.
  - rewrite Hleft.
    apply (restoreScroll_inverts _ (totalVirtualWidth (vb w))); try assumption.
    reflexivity.
Qed.

Lemma C5_remeasure_restores_offset_witness :
  let w := step (constructor (hostWithChild 2000) None) (ScrollTo 100 0) in
  Host.scrollTop (host w) = 100 /\
  Host.scrollTop (host (remeasure w)) == Host.scrollTop (host w) /\
  Host.scrollLeft (host (remeasure w)) == Host.scrollLeft (host w).
Proof.
  cbv zeta.
  pose proof (C5_remeasure_restores_offset_within_range
                (step (constructor (hostWithChild 2000) None) (ScrollTo 100 0))) as H.
  cbv zeta in H.
  destruct H as [Hv Hh].
  - vm_compute. intro H. discriminate H.
  - split; [reflexivity |]. split.
    + apply Hv; qdecide.
    + apply Hh; qdecide.
Defined.

(** C5 as stated fails when the host offset is beyond the surface's
    scrollable range.  With one item 2,000,000 high in a viewport 600
    high the surface scrolls up to 999,400; from the host offset
    999,500 the forward mapping gives the virtual offset 1,999,400,
    [remeasure] leaves the total as it is and writes the host offset
    999,400. *)
Lemma C5_offset_beyond_range_not_restored :
  let w := step (constructor (hostWithChild 2000000) None) (ScrollTo 999500 0) in
  let w' := remeasure w in
  sizerElement (vb w) <> None /\
  virtualScrollTop (vb w)
  == Scroll.virtualScroll Scroll.MAX_SCROLL_HEIGHT (totalVirtualHeight (vb w))
       (Host.clientHeight (host w)) (Host.scrollTop (host w)) /\
  totalVirtualHeight (vb w') == totalVirtualHeight (vb w) /\
  Host.scrollTop (host w) = 999500 /\
  Host.scrollTop (host w') = 999400 /\
  ~ Host.scrollTop (host w') == Host.scrollTop (host w).
Proof.
  cbv zeta.
  split; [| split; [| split; [| split; [| split]]]]; qdecide.
Qed.

(** The same in identity mode: one item 500 high, host offset 1000,
    restored offset 0. *)
Lemma remeasure_identity_offset_beyond_range :
  let w := step (constructor (hostWithChild 500) None) (ScrollTo 1000 0) in
  let w' := remeasure w in
  virtualScrollTop (vb w) = 0 /\
  totalVirtualHeight (vb w') = totalVirtualHeight (vb w) /\
  Host.scrollTop (host w) = 1000 /\
  Host.scrollTop (host w') = 0.
Proof.
  cbv zeta. split; [| split; [| split]]; vm_compute; reflexivity.
Qed.

End RemeasureScroll.

(** ** The visibility refresh: where an entering item is rendered *)

Section Placement.
Import Virtualboy.

Lemma sameItems_refl w : sameItems w w.
Proof. intros r. reflexivity. Qed.

Lemma sameItems_trans w1 w2 w3 : sameItems w1 w2 -> sameItems w2 w3 -> sameItems w1 w3.
Proof. intros H1 H2 r. rewrite H2. apply H1. Qed.

Lemma sameItems_updObject_visible w r b :
  sameItems w (updObject r (set_isVisible b) w).
Proof.
  intros r'. unfold updObject. simpl. destruct (r' =? r)%nat; reflexivity.
Qed.

Lemma sameItems_proj w w' r :
  sameItems w w' ->
  idOf w' r = idOf w r /\ rectOf w' r = rectOf w r /\ nodeOf w' r = nodeOf w r.
Proof.
  intros H. specialize (H r). unfold core in H. injection H as H1 H2 H3 H4.
  unfold idOf, rectOf, nodeOf. repeat split; assumption.
Qed.

Lemma processRemoval_items ids w i : sameItems w (processRemoval ids w i).
Proof.
  unfold processRemoval.
  destruct (negb _); [| apply sameItems_refl].
  destruct (JsMap.get _ _) as [item |]; [| intros r; reflexivity].
  destruct (VirtualElement.isVisible _); [| intros r; reflexivity].
  intros r. simpl. destruct (r =? item)%nat; reflexivity.
Qed.

Lemma JsSet_has_delete s k i :
  JsSet.has (JsSet.delete s k) i = true -> JsSet.has s i = true.
Proof.
  unfold JsSet.has, JsSet.delete. rewrite !existsb_exists.
  intros (x & Hin & Hx). apply filter_In in Hin. exists x. tauto.
Qed.

Lemma processRemoval_visible ids w i k :
  JsSet.has (currentlyVisibleElements (vb (processRemoval ids w i))) k = true ->
  JsSet.has (currentlyVisibleElements (vb w)) k = true.
Proof.
  unfold processRemoval.
  destruct (negb _); [| auto].
  destruct (JsMap.get _ _) as [item |]; simpl.
  - destruct (VirtualElement.isVisible _); simpl; apply JsSet_has_delete.
  - apply JsSet_has_delete.
Qed.

Lemma processAddition_items acc a :
  sameItems (fst (fst acc)) (fst (fst (processAddition acc a))).
Proof.
  destruct acc as [[w fragment] added]. unfold processAddition. simpl.
  destruct (negb _); simpl.
  - intros r. reflexivity.
  - destruct (JsMap.get _ _) as [ve |]; [| apply sameItems_refl].
    destruct (negb _); [apply sameItems_updObject_visible | apply sameItems_refl].
Qed.

(** One turn of the additions loop, seen from a host node. *)
Lemma processAddition_node acc a n :
  let w := fst (fst acc) in
  let w' := fst (fst (processAddition acc a)) in
  if negb (JsSet.has (currentlyVisibleElements (vb w)) (idOf w a))
  then (n = nodeOf w a -> placedAt w' n (renderedLeft w a) (renderedTop w a)) /\
       (n <> nodeOf w a -> Host.nodes (host w') n = Host.nodes (host w) n)
  else Host.nodes (host w') n = Host.nodes (host w) n.
Proof.
  destruct acc as [[w fragment] added]. unfold processAddition. simpl.
  destruct (negb _); simpl.
  - split.
    + intros ->. unfold placedAt, nodeOf. simpl. rewrite Nat.eqb_refl. simpl.
      split; reflexivity.
    + intros Hn. unfold nodeOf in Hn. apply Nat.eqb_neq in Hn. rewrite Hn. reflexivity.
  - destruct (JsMap.get _ _) as [ve |]; [| reflexivity].
    destruct (negb _); reflexivity.
Qed.

Lemma additions_place (w0 : World) (item : ItemRef) (l : list ItemRef) :
  forall acc,
    sameItems w0 (fst (fst acc)) ->
    Unchanged w0 (fst (fst acc)) ->
    vb (fst (fst acc)) = vb w0 ->
    JsSet.has (currentlyVisibleElements (vb w0)) (idOf w0 item) = false ->
    (forall other, In other l -> nodeOf w0 other = nodeOf w0 item ->
                   rectOf w0 other = rectOf w0 item) ->
    In item l \/
    placedAt (fst (fst acc)) (nodeOf w0 item) (renderedLeft w0 item) (renderedTop w0 item) ->
    placedAt (fst (fst (fold_left processAddition l acc)))
             (nodeOf w0 item) (renderedLeft w0 item) (renderedTop w0 item).
Proof.
  induction l as [| a l IH]; intros acc Hitems Hunch Hvb Henter Hshared Hcase; simpl.
  - destruct Hcase as [[] | H]. exact H.
  - pose proof (processAddition_items acc a) as Hi.
    destruct (processAddition_frame acc a) as (Hu & Hv).
    pose proof (processAddition_node acc a (nodeOf w0 item)) as Hn.
    cbv zeta in Hn.
    destruct (sameItems_proj _ _ a Hitems) as (Hid & Hrc & Hnd).
    destruct (hostStatic_inv _ _ (proj1 Hunch)) as (Hst & Hsl & _).
    apply IH.
    + eapply sameItems_trans; eassumption.
    + eapply Unchanged_trans; eassumption.
    + congruence.
    + exact Henter.
    + intros other Ho. apply Hshared. now right.
    + rewrite Hvb, Hid in Hn.
      destruct (JsSet.has (currentlyVisibleElements (vb w0)) (idOf w0 a)) eqn:Hvis;
        simpl in Hn.
      * (* [a] is visible already: nothing is written *)
        destruct Hcase as [[Heq | Hin] | Hp].
        -- subst a. congruence.
        -- now left.
        -- right. unfold placedAt in *. rewrite Hn. exact Hp.
      * destruct Hn as [Hsame Hother].
        destruct (Nat.eq_dec (nodeOf w0 item) (nodeOf (fst (fst acc)) a)) as [He | He].
        -- right. specialize (Hsame He).
           assert (Hr : rectOf w0 a = rectOf w0 item).
           { apply Hshared; [now left | congruence]. }
           unfold renderedLeft, renderedTop in *.
           rewrite Hrc, Hr, Hvb, Hst, Hsl in Hsame. exact Hsame.
        -- destruct Hcase as [[Heq | Hin] | Hp].
           ++ subst a. congruence.
           ++ now left.
           ++ right. unfold placedAt in *. rewrite (Hother He). exact Hp.
Qed.


Lemma fold_processRemoval_facts ids l w :
  let w1 := fold_left (processRemoval ids) l w in
  sameItems w w1 /\ Unchanged w w1 /\ vbLayout (vb w1) = vbLayout (vb w) /\
  Host.nodes (host w1) = Host.nodes (host w) /\
  (forall k, JsSet.has (currentlyVisibleElements (vb w1)) k = true ->
             JsSet.has (currentlyVisibleElements (vb w)) k = true).
Proof.
  cbv zeta. apply fold_left_invariant.
  - repeat split; auto using sameItems_refl.
  - intros a b (H1 & H2 & H3 & H4 & H5).
    destruct (processRemoval_frame ids a b) as (Hb1 & Hb2 & Hb3).
    repeat split.
    + eapply sameItems_trans; [exact H1 | apply processRemoval_items].
    + destruct H2, Hb1. congruence.
    + destruct H2, Hb1. congruence.
    + congruence.
    + congruence.
    + intros k Hk. apply H5. eapply processRemoval_visible. exact Hk.
Qed.

(** The last loop of [updateVisibleElements] leaves the host alone. *)
Lemma markAdded_host added w :
  host (fold_left
          (fun w virtualElement =>
             let w := updObject virtualElement (set_isVisible true) w in
             updVb (fun s => set_currentlyVisibleElements
                      (JsSet.add (currentlyVisibleElements s) (idOf w virtualElement)) s) w)
          added w) = host w.
Proof.
  apply fold_left_invariant; [reflexivity |]. intros a b Ha. exact Ha.
Qed.

Lemma updateVisibleElements_places (w : World) (item : ItemRef) :
  let viewportRect :=
    Rect.mk (virtualScrollLeft (vb w)) (virtualScrollTop (vb w))
            (Host.clientWidth (host w)) (Host.clientHeight (host w)) in
  let elementsInViewport := KDTree.queryRange (rectOf w) (kdTree (vb w)) viewportRect in
  In item elementsInViewport ->
  JsSet.has (currentlyVisibleElements (vb w)) (idOf w item) = false ->
  (forall other, In other elementsInViewport ->
                 nodeOf w other = nodeOf w item -> rectOf w other = rectOf w item) ->
  placedAt (updateVisibleElements w) (nodeOf w item)
           (renderedLeft w item) (renderedTop w item).
Proof.
  intros viewportRect elementsInViewport Hin Henter Hshared.
  unfold updateVisibleElements. fold viewportRect. fold elementsInViewport.
  set (ids := map (idOf w) elementsInViewport).
  destruct (fold_processRemoval_facts ids (currentlyVisibleElements (vb w)) w)
    as (Hitems & Hunch & Hlay & Hnodes & Hvis).
  set (w1 := fold_left (processRemoval ids) _ w) in *.
  assert (Hproj : forall r, idOf w1 r = idOf w r /\ rectOf w1 r = rectOf w r
                            /\ nodeOf w1 r = nodeOf w r).
  { intros r. apply sameItems_proj. exact Hitems. }
  destruct (vbLayout_inv _ _ Hlay) as (_ & _ & Hvt & Hvl & _).
  destruct (hostStatic_inv _ _ (proj1 Hunch)) as (Hst & Hsl & _).
  assert (Hplaced : placedAt (fst (fst (fold_left processAddition elementsInViewport
                                          (w1, [], []))))
                      (nodeOf w1 item) (renderedLeft w1 item) (renderedTop w1 item)).
  { apply additions_place.
    - apply sameItems_refl.
    - apply Unchanged_refl.
    - reflexivity.
    - destruct (Hproj item) as (Hid & _). rewrite Hid.
      destruct (JsSet.has (currentlyVisibleElements (vb w1)) (idOf w item)) eqn:E;
        [| reflexivity].
      apply Hvis in E. congruence.
    - intros other Ho Hn.
      destruct (Hproj other) as (_ & Hr1 & Hn1). destruct (Hproj item) as (_ & Hr2 & Hn2).
      rewrite Hr1, Hr2. apply Hshared; [exact Ho | congruence].
    - now left. }
  destruct (Hproj item) as (_ & Hr & Hn).
  unfold renderedLeft, renderedTop in *. rewrite Hn, Hr, Hvt, Hvl, Hst, Hsl in Hplaced.
  clearbody w1.
  destruct (fold_left processAddition elementsInViewport (w1, [], []))
    as [[w2 fragment] added].
  simpl in Hplaced. unfold placedAt in *.
  rewrite markAdded_host.
  destruct fragment; exact Hplaced.
Qed.

End Placement.

Section Rendering.
Import Virtualboy Fixture.

(** C6.  For an item that enters visibility (its id is not in the
    visible set), the turn of the additions loop writes
    (rect.x - virtualScrollLeft) + scrollLeft as the left and
    (rect.y - virtualScrollTop) + scrollTop as the top of its node.
    After the whole refresh the node of every entering item of the
    query's result carries that position, as long as no other item of
    the result with another rectangle is rendered through the same
    node.  The two rendering scenarios follow. *)
Theorem C6_entering_item_rendered_position :
  (forall (w : World) (fragment : list NodeRef) (added : list ItemRef) (item : ItemRef),
     JsSet.has (currentlyVisibleElements (vb w)) (idOf w item) = false ->
     placedAt (fst (fst (processAddition (w, fragment, added) item))) (nodeOf w item)
              ((Rect.x (rectOf w item) - virtualScrollLeft (vb w)) + Host.scrollLeft (host w))
              ((Rect.y (rectOf w item) - virtualScrollTop (vb w)) + Host.scrollTop (host w)))
  /\
  (forall (w : World) (item : ItemRef),
     let viewportRect :=
       Rect.mk (virtualScrollLeft (vb w)) (virtualScrollTop (vb w))
               (Host.clientWidth (host w)) (Host.clientHeight (host w)) in
     let elementsInViewport := KDTree.queryRange (rectOf w) (kdTree (vb w)) viewportRect in
     In item elementsInViewport ->
     JsSet.has (currentlyVisibleElements (vb w)) (idOf w item) = false ->
     (forall other, In other elementsInViewport ->
                    nodeOf w other = nodeOf w item -> rectOf w other = rectOf w item) ->
     placedAt (updateVisibleElements w) (nodeOf w item)
              ((Rect.x (rectOf w item) - virtualScrollLeft (vb w)) + Host.scrollLeft (host w))
              ((Rect.y (rectOf w item) - virtualScrollTop (vb w)) + Host.scrollTop (host w)))
  /\
  (let w := renderWorld 200 30 0 0 (Rect.mk 40 250 10 10) in
   placedAt (updateVisibleElements w) 0%nat 10 50)
  /\
  (let w := renderWorld 100 50 20 10 (Rect.mk 150 250 20 20) in
   placedAt (updateVisibleElements w) 0%nat 110 170).
Proof.
  split; [| split; [| split]].
  - intros w fragment added item Henter.
    pose proof (processAddition_node (w, fragment, added) item (nodeOf w item)) as H.
    cbv zeta in H. cbn [fst] in H. rewrite Henter in H. apply H. reflexivity.
  - intros w item. apply updateVisibleElements_places.
  - vm_compute. split; reflexivity.
  - vm_compute. split; reflexivity.
Qed.

Lemma C6_entering_item_rendered_position_witness :
  let w := renderWorld 200 30 0 0 (Rect.mk 40 250 10 10) in
  placedAt (updateVisibleElements w) 0%nat ((40 - 30) + 0) ((250 - 200) + 0).
Proof.
  cbv zeta.
  apply (proj1 (proj2 C6_entering_item_rendered_position)
               (renderWorld 200 30 0 0 (Rect.mk 40 250 10 10)) 0%nat).
  - vm_compute. left. reflexivity.
  - vm_compute. reflexivity.
  - intros other _ _. reflexivity.
Defined.

End Rendering.

(** ** Reachable states of the manager *)

Section ReachableStates.
Import Virtualboy.

Lemma JsMap_has_In {V : Type} (m : list (string * V)) (k : string) :
  JsMap.has m k = true -> exists v, In (k, v) m.
Proof.
  unfold JsMap.has. induction m as [| [k' v'] m IH]; simpl.
  - discriminate.
  - destruct (String.eqb k' k) eqn:E.
    + apply String.eqb_eq in E. subst k'. intros _. exists v'. now left.
    + intros H. destruct (IH H) as [v Hv]. exists v. now right.
Qed.

Lemma keysTruthy_has m k :
  keysTruthy m -> JsMap.has m k = true -> truthy k = true.
Proof.
  intros Hm Hk. destruct (JsMap_has_In m k Hk) as [v Hv].
  unfold keysTruthy in Hm. rewrite Forall_forall in Hm. apply (Hm (k, v) Hv).
Qed.

Lemma keysTruthy_set m k v :
  keysTruthy m -> truthy k = true -> keysTruthy (JsMap.set m k v).
Proof.
  intros Hm Hk. induction Hm as [| [k' v'] m Hk' Hm IH]; simpl.
  - repeat constructor. exact Hk.
  - destruct (String.eqb k' k); constructor; assumption.
Qed.

Lemma keysTruthy_delete m k : keysTruthy m -> keysTruthy (JsMap.delete m k).
Proof.
  unfold keysTruthy, JsMap.delete. rewrite !Forall_forall.
  intros H x Hx. apply filter_In in Hx. apply H. tauto.
Qed.

Lemma generateId_truthy w : truthy (fst (generateId w)) = true.
Proof. reflexivity. Qed.

Lemma handleElementAdded_keys element refChild isInitialDiscovery w :
  keysTruthy (elements (vb w)) ->
  keysTruthy (elements (vb (handleElementAdded element refChild isInitialDiscovery w))).
Proof.
  intros Hk. unfold handleElementAdded.
  destruct (truthy _ && JsMap.has _ _); [exact Hk |].
  cbv zeta.
  destruct isInitialDiscovery;
    match goal with
    | |- context [updateSizer ?w0] =>
        destruct (updateSizer_frame w0) as (_ & Hs3 & _);
        assert (He : elements (vb w0) = elements (vb w)) by reflexivity;
        set (w1 := updateSizer w0) in *
    end;
    rewrite <- He, <- Hs3 in Hk; clearbody w1;
    destruct (truthy (HTMLElement.id (Host.nodes (host w1) element))) eqn:Ht; simpl;
    (apply keysTruthy_set; [assumption | first [assumption | reflexivity]]).
Qed.

Lemma handleElementRemoved_keys element w :
  keysTruthy (elements (vb w)) ->
  keysTruthy (elements (vb (handleElementRemoved element w))).
Proof.
  intros Hk. unfold handleElementRemoved.
  destruct (truthy _ && JsMap.has _ _); [| exact Hk].
  destruct (JsMap.get _ _) as [item |]; [| exact Hk].
  cbv zeta.
  destruct (fold_left _ _ (0, 0)) as [newTotalHeight newTotalWidth].
  match goal with
  | |- context [updateSizer ?w0] =>
      destruct (updateSizer_frame w0) as (_ & Hs3 & _);
      set (w1 := updateSizer w0) in *
  end.
  destruct (VirtualElement.isVisible (objects w1 item)); simpl; rewrite Hs3; simpl;
    apply keysTruthy_delete; exact Hk.
Qed.

Lemma destroy_facts w :
  elements (vb (destroy w)) = [] /\
  updateQueued (vb (destroy w)) = updateQueued (vb w) /\
  Host.frameQueue (host (destroy w)) = Host.frameQueue (host w) /\
  currentlyVisibleElements (vb (destroy w)) = [].
Proof.
  unfold destroy.
  match goal with
  | |- context [fold_left detachVisible ?l ?w0] =>
      destruct (fold_detachVisible_frame l w0) as ((Hd1 & Hd2) & Hd3 & _);
      set (w1 := fold_left detachVisible l w0) in *
  end.
  apply hostStatic_inv in Hd1. destruct Hd1 as (_ & _ & _ & _ & _ & _ & _ & _ & Hfq & _).
  simpl in Hfq, Hd3.
  assert (Huq : updateQueued (vb w1) = updateQueued (vb w)) by (rewrite Hd3; reflexivity).
  clearbody w1. cbv zeta.
  cbn [updVb updHost vb host set_sizerElement set_totalVirtualWidth set_totalVirtualHeight
       set_virtualScrollTop set_virtualScrollLeft set_kdTree set_elements
       set_currentlyVisibleElements sizerElement originalParentPosition
       Host.set_intercepted Host.children].
  repeat match goal with
         | |- context [match ?x with _ => _ end] => destruct x
         end;
    simpl; repeat split; assumption.
Qed.

Lemma discoverInitialElements_facts w :
  Unchanged w (discoverInitialElements w) /\
  (keysTruthy (elements (vb w)) -> keysTruthy (elements (vb (discoverInitialElements w)))).
Proof.
  unfold discoverInitialElements.
  apply (fold_left_invariant _
           (fun a => Unchanged w a /\
                     (keysTruthy (elements (vb w)) -> keysTruthy (elements (vb a))))).
  - split; [apply Unchanged_refl | auto].
  - intros a child [Ha1 Ha2].
    assert (Hadd : Unchanged w (handleElementAdded child None true a) /\
                   (keysTruthy (elements (vb w)) ->
                    keysTruthy (elements (vb (handleElementAdded child None true a))))).
    { split.
      - eapply Unchanged_trans; [exact Ha1 | apply handleElementAdded_frame].
      - intros Hk. apply handleElementAdded_keys, Ha2, Hk. }
    destruct (HTMLElement.instanceofHTMLElement _); [| split; assumption].
    destruct (sizerElement (vb a)) as [sizer |]; [| exact Hadd].
    destruct (child =? sizer)%nat; [split; assumption | exact Hadd].
Qed.

Lemma constructor_invariants h customMeasureFn :
  Host.frameQueue h = 0%nat ->
  keysTruthy (elements (vb (constructor h customMeasureFn))) /\
  pendingMatchesFlag (constructor h customMeasureFn).
Proof.
  intros Hq. unfold constructor.
  destruct (String.eqb (Host.computedPosition h) "static");
    cbv beta iota zeta delta [Host.createElement];
    match goal with
    | |- context [discoverInitialElements ?w0] =>
        destruct (discoverInitialElements_facts w0) as ((Hd1 & Hd2) & Hd3);
        assert (Hk0 : keysTruthy (elements (vb w0))) by constructor;
        assert (Hq0 : Host.frameQueue (host w0) = 0%nat) by exact Hq;
        assert (Hu0 : updateQueued (vb w0) = false) by reflexivity;
        set (w1 := discoverInitialElements w0) in *
    end;
    apply hostStatic_inv in Hd1;
    destruct Hd1 as (_ & _ & _ & _ & _ & _ & _ & _ & Hfq & _);
    apply vbStatic_inv in Hd2; destruct Hd2 as (_ & _ & _ & Huq);
    specialize (Hd3 Hk0); rewrite Hq0 in Hfq; rewrite Hu0 in Huq; clearbody w1;
    match goal with
    | |- context [updateVisibleElements ?w0] =>
        destruct (updateVisibleElements_frame w0) as ((Hv1 & Hv2) & Hv3);
        set (w2 := updateVisibleElements w0) in *
    end;
    apply hostStatic_inv in Hv1;
    destruct Hv1 as (_ & _ & _ & _ & _ & _ & _ & _ & Hfq2 & _);
    apply vbStatic_inv in Hv2; destruct Hv2 as (_ & _ & _ & Huq2);
    apply vbLayout_inv in Hv3; destruct Hv3 as (_ & He2 & _);
    simpl in Hfq2, Huq2, He2; clearbody w2;
    destruct (updateSizer_frame w2) as ((Hs1 & Hs2) & Hs3 & _);
    apply hostStatic_inv in Hs1;
    destruct Hs1 as (_ & _ & _ & _ & _ & _ & _ & _ & Hfq3 & _);
    unfold pendingMatchesFlag; rewrite Hs3, Hfq3, He2, Huq2, Hfq2, Huq, Hfq;
    (split; [exact Hd3 | reflexivity]).
Qed.


Lemma handleScroll_facts w :
  elements (vb (handleScroll w)) = elements (vb w) /\
  Host.scrollListener (host (handleScroll w)) = Host.scrollListener (host w) /\
  (updateQueued (vb w) = true ->
   updateQueued (vb (handleScroll w)) = true /\
   Host.frameQueue (host (handleScroll w)) = Host.frameQueue (host w)) /\
  (updateQueued (vb w) = false ->
   updateQueued (vb (handleScroll w)) = true /\
   Host.frameQueue (host (handleScroll w)) = S (Host.frameQueue (host w))).
Proof.
  unfold handleScroll. simpl.
  destruct (updateQueued (vb w)) eqn:E; simpl; rewrite ?E; repeat split; intros;
    first [reflexivity | discriminate].
Qed.

Lemma frameCallback_facts w :
  elements (vb (frameCallback w)) = elements (vb w) /\
  updateQueued (vb (frameCallback w)) = false /\
  Host.frameQueue (host (frameCallback w)) = Host.frameQueue (host w).
Proof.
  unfold frameCallback.
  destruct (updateVisibleElements_frame w) as ((Hv1 & _) & Hv3).
  apply hostStatic_inv in Hv1. destruct Hv1 as (_ & _ & _ & _ & _ & _ & _ & _ & Hfq & _).
  apply vbLayout_inv in Hv3. destruct Hv3 as (_ & He & _).
  simpl. repeat split; assumption.
Qed.

(** Every event but the animation frame leaves the flag and the frame
    queue as they are once the flag is set. *)
Lemma step_keeps_pending w e :
  e <> AnimationFrame ->
  updateQueued (vb w) = true ->
  updateQueued (vb (step w e)) = true /\
  Host.frameQueue (host (step w e)) = Host.frameQueue (host w).
Proof.
  intros He Hflag. destruct e; cbn [step].
  - destruct (_ && _); [| split; [exact Hflag | reflexivity]].
    destruct (handleElementAdded_frame newChild None false w) as ((H1 & H2) & _).
    apply hostStatic_inv in H1. apply vbStatic_inv in H2.
    split; [rewrite (proj2 (proj2 (proj2 H2))); exact Hflag | apply H1].
  - destruct (_ && _).
    + destruct (handleElementAdded_frame newChild refChild false w) as ((H1 & H2) & _).
      apply hostStatic_inv in H1. apply vbStatic_inv in H2.
      split; [rewrite (proj2 (proj2 (proj2 H2))); exact Hflag | apply H1].
    + destruct refChild; split; first [exact Hflag | reflexivity].
  - destruct (_ && _); [| split; [exact Hflag | reflexivity]].
    destruct (handleElementRemoved_frame oldChild w) as ((H1 & H2) & _).
    apply hostStatic_inv in H1. apply vbStatic_inv in H2.
    split; [rewrite (proj2 (proj2 (proj2 H2))); exact Hflag | apply H1].
  - destruct (Host.scrollListener _); [| split; [exact Hflag | reflexivity]].
    match goal with
    | |- context [handleScroll ?w0] =>
        destruct (handleScroll_facts w0) as (_ & _ & H & _)
    end.
    apply H. exact Hflag.
  - contradiction He. reflexivity.
  - split; [exact Hflag | reflexivity].
  - destruct (remeasure_facts w) as (_ & _ & Hfq & _ & _ & Hv & _).
    apply vbStatic_inv in Hv.
    split; [rewrite (proj2 (proj2 (proj2 Hv))); exact Hflag | exact Hfq].
  - destruct (destroy_facts w) as (_ & Huq & Hfq & _).
    split; [rewrite Huq; exact Hflag | exact Hfq].
Qed.

Lemma step_invariants w e :
  keysTruthy (elements (vb w)) /\ pendingMatchesFlag w ->
  keysTruthy (elements (vb (step w e))) /\ pendingMatchesFlag (step w e).
Proof.
  intros [Hk Hp]. unfold pendingMatchesFlag in *.
  assert (Hunch : forall w', Unchanged w w' ->
                    Host.frameQueue (host w')
                    = if updateQueued (vb w') then 1%nat else 0%nat).
  { intros w' [H1 H2]. apply hostStatic_inv in H1. apply vbStatic_inv in H2.
    destruct H1 as (_ & _ & _ & _ & _ & _ & _ & _ & Hfq & _).
    destruct H2 as (_ & _ & _ & Huq). rewrite Hfq, Huq. exact Hp. }
  destruct e; cbn [step].
  - destruct (_ && _); [| split; assumption].
    split; [apply handleElementAdded_keys, Hk | apply Hunch, handleElementAdded_frame].
  - destruct (_ && _).
    + split; [apply handleElementAdded_keys, Hk | apply Hunch, handleElementAdded_frame].
    + destruct refChild; split; assumption.
  - destruct (_ && _); [| split; assumption].
    split; [apply handleElementRemoved_keys, Hk | apply Hunch, handleElementRemoved_frame].
  - destruct (Host.scrollListener _); [| split; assumption].
    match goal with
    | |- context [handleScroll ?w0] =>
        destruct (handleScroll_facts w0) as (He & _ & Hset & Hunset);
        assert (Hp0 : Host.frameQueue (host w0)
                      = if updateQueued (vb w0) then 1%nat else 0%nat) by exact Hp;
        assert (Hk0 : elements (vb w0) = elements (vb w)) by reflexivity;
        set (w1 := w0) in *
    end.
    clearbody w1. rewrite He, Hk0. split; [exact Hk |].
    destruct (updateQueued (vb w1)).
    + destruct (Hset eq_refl) as [-> ->]. exact Hp0.
    + destruct (Hunset eq_refl) as [-> ->]. rewrite Hp0. reflexivity.
  - rewrite Hp. destruct (updateQueued (vb w)) eqn:Hflag; cbn [Nat.iter nat_rect].
    + match goal with
      | |- context [frameCallback ?w0] =>
          destruct (frameCallback_facts w0) as (He & Huq & Hfq)
      end.
      rewrite He, Huq, Hfq. split; [exact Hk | reflexivity].
    + cbn [updHost vb host Host.frameQueue Host.set_frameQueue].
      rewrite Hflag. split; [exact Hk | reflexivity].
  - split; assumption.
  - destruct (remeasure_facts w) as (_ & _ & Hfq & _ & _ & Hv & He & _).
    apply vbStatic_inv in Hv. destruct Hv as (_ & _ & _ & Huq).
    rewrite He, Hfq, Huq. split; assumption.
  - destruct (destroy_facts w) as (He & Huq & Hfq & _).
    rewrite He, Huq, Hfq. split; [constructor | exact Hp].
Qed.

Lemma Reachable_invariants w :
  Reachable w -> keysTruthy (elements (vb w)) /\ pendingMatchesFlag w.
Proof.
  induction 1 as [h c Hq | w e _ IH].
  - apply constructor_invariants, Hq.
  - apply step_invariants, IH.
Qed.

End ReachableStates.

(** ** Adding, scrolling and the visible set *)

Section ManagerClaims.
Import Virtualboy Fixture.
Open Scope string_scope.

(** C8.  In every reachable state, adding a host element whose id is
    already a key of the tracked-item map changes nothing of the
    manager (map, index, totals and every other field) nor of the item
    objects; the host only receives the warning on its console.  The
    same holds when the add arrives through the intercepted
    [appendChild] or [insertBefore]. *)
Theorem C8_duplicate_add_is_noop (w : World) (element : NodeRef)
    (refChild : option NodeRef) (isInitialDiscovery : bool) :
  Reachable w ->
  JsMap.has (elements (vb w)) (HTMLElement.id (Host.nodes (host w) element)) = true ->
  let w' := handleElementAdded element refChild isInitialDiscovery w in
  vb w' = vb w /\
  objects w' = objects w /\
  nextObject w' = nextObject w /\
  host w'
  = Host.warn (String.append "Virtualboy: Element with ID '"
                 (String.append (HTMLElement.id (Host.nodes (host w) element))
                                "' already added. Skipping.")) (host w) /\
  vb (step w (AppendChild element)) = vb w /\
  objects (step w (AppendChild element)) = objects w /\
  vb (step w (InsertBefore element refChild)) = vb w /\
  objects (step w (InsertBefore element refChild)) = objects w.
Proof.
  intros Hreach Hhas.
  destruct (Reachable_invariants w Hreach) as [Hkeys _].
  pose proof (keysTruthy_has _ _ Hkeys Hhas) as Htruthy.
  assert (Hdup : forall rc init,
             handleElementAdded element rc init w
             = updHost (Host.warn (String.append "Virtualboy: Element with ID '"
                          (String.append (HTMLElement.id (Host.nodes (host w) element))
                                         "' already added. Skipping."))) w).
  { intros rc init. unfold handleElementAdded. rewrite Htruthy, Hhas. reflexivity. }
  cbv zeta. rewrite Hdup.
  repeat split; cbn [step];
    try (destruct (Host.intercepted (host w)
                   && HTMLElement.instanceofHTMLElement (Host.nodes (host w) element));
         [rewrite Hdup | destruct refChild]; reflexivity).
Qed.

Lemma C8_duplicate_add_is_noop_witness :
  let w := run (constructor emptyHost None) [AppendChild 0%nat] in
  JsMap.has (elements (vb w)) "virtual-element-0" = true /\
  vb (handleElementAdded 0%nat None false w) = vb w /\
  objects (handleElementAdded 0%nat None false w) = objects w.
Proof.
  cbv zeta.
  assert (Hhas : JsMap.has
                   (elements (vb (run (constructor emptyHost None) [AppendChild 0%nat])))
                   (HTMLElement.id
                      (Host.nodes (host (run (constructor emptyHost None)
                                             [AppendChild 0%nat])) 0%nat)) = true)
    by (vm_compute; reflexivity).
  assert (Hreach : Reachable (run (constructor emptyHost None) [AppendChild 0%nat])).
  { apply reach_step. apply reach_constructed. reflexivity. }
  pose proof (C8_duplicate_add_is_noop _ 0%nat None false Hreach Hhas) as H.
  cbv zeta in H. destruct H as (Hvb & Hobj & _).
  split; [vm_compute; reflexivity |]. split; assumption.
Defined.

Lemma run_scrollEvents (scrolls : list (Q * Q)) :
  forall w,
    Host.scrollListener (host w) = true ->
    keysTruthy (elements (vb w)) /\ pendingMatchesFlag w ->
    let w' := run w (scrollEvents scrolls) in
    Host.scrollListener (host w') = true /\
    (keysTruthy (elements (vb w')) /\ pendingMatchesFlag w') /\
    (scrolls <> [] \/ updateQueued (vb w) = true -> updateQueued (vb w') = true).
Proof.
  induction scrolls as [| s scrolls IH]; intros w Hl Hinv; cbv zeta.
  - simpl. repeat split; try tauto.
  - simpl.
    pose proof (step_invariants w (ScrollTo (fst s) (snd s)) Hinv) as Hinv'.
    assert (Hstep : Host.scrollListener (host (step w (ScrollTo (fst s) (snd s)))) = true
                    /\ updateQueued (vb (step w (ScrollTo (fst s) (snd s)))) = true).
    { cbn [step].
      change (Host.scrollListener
                (host (updHost (fun h => Host.set_scrollLeft (snd s)
                                           (Host.set_scrollTop (fst s) h)) w)))
        with (Host.scrollListener (host w)).
      rewrite Hl.
      match goal with
      | |- context [handleScroll ?w0] =>
          destruct (handleScroll_facts w0) as (_ & Hsl & Hset & Hunset);
          change (Host.scrollListener (host w0)) with (Host.scrollListener (host w)) in Hsl;
          destruct (updateQueued (vb w0)) eqn:Hflag
      end.
      - split; [congruence | apply Hset; reflexivity].
      - split; [congruence | apply Hunset; reflexivity]. }
    destruct Hstep as [Hl' Hflag'].
    destruct (IH _ Hl' Hinv') as (H1 & H2 & H3).
    repeat split; try assumption; try apply H2.
    intros _. apply H3. now right.
Qed.

(** C9.  Scroll events are coalesced.  From a reachable state in which
    the scroll handler is registered and no refresh is pending, no
    frame callback waits; after every run of one or more scroll events
    the flag is set and exactly one callback waits; the animation frame
    then runs the refresh once and clears the flag; and no other event
    clears the flag or changes the queue meanwhile. *)
Theorem C9_scroll_refresh_coalesced (w : World) (scrolls : list (Q * Q)) :
  Reachable w ->
  Host.scrollListener (host w) = true ->
  updateQueued (vb w) = false ->
  scrolls <> [] ->
  let w' := run w (scrollEvents scrolls) in
  Host.frameQueue (host w) = 0%nat /\
  (forall n, (0 < n)%nat ->
     let wn := run w (scrollEvents (firstn n scrolls)) in
     updateQueued (vb wn) = true /\ Host.frameQueue (host wn) = 1%nat) /\
  updateQueued (vb w') = true /\
  Host.frameQueue (host w') = 1%nat /\
  step w' AnimationFrame
  = updVb (set_updateQueued false)
      (updateVisibleElements (updHost (Host.set_frameQueue 0%nat) w')) /\
  updateQueued (vb (step w' AnimationFrame)) = false /\
  Host.frameQueue (host (step w' AnimationFrame)) = 0%nat /\
  (forall e, e <> AnimationFrame ->
     updateQueued (vb (step w' e)) = true /\
     Host.frameQueue (host (step w' e)) = 1%nat).
Proof.
  intros Hreach Hl Hflag Hne w'.
  pose proof (Reachable_invariants w Hreach) as Hinv.
  assert (Hafter : forall l, l <> [] ->
             updateQueued (vb (run w (scrollEvents l))) = true /\
             Host.frameQueue (host (run w (scrollEvents l))) = 1%nat).
  { intros l Hl0. destruct (run_scrollEvents l w Hl Hinv) as (_ & (_ & Hp) & Hset).
    cbv zeta in Hset. specialize (Hset (or_introl Hl0)).
    unfold pendingMatchesFlag in Hp. rewrite Hset in Hp. split; assumption. }
  destruct (Hafter scrolls Hne) as [Hset Hq]. fold w' in Hset, Hq.
  assert (Hframe : step w' AnimationFrame
                   = updVb (set_updateQueued false)
                       (updateVisibleElements (updHost (Host.set_frameQueue 0%nat) w'))).
  { cbn [step]. rewrite Hq. reflexivity. }
  split; [| split; [| split; [| split; [| split; [| split; [| split]]]]]].
  - destruct Hinv as [_ Hp]. unfold pendingMatchesFlag in Hp. rewrite Hflag in Hp. exact Hp.
  - intros n Hn. cbv zeta. apply Hafter.
    destruct scrolls as [| s rest]; [contradiction Hne; reflexivity |].
    destruct n; [lia | simpl; discriminate].
  - exact Hset.
  - exact Hq.
  - exact Hframe.
  - rewrite Hframe. reflexivity.
  - rewrite Hframe.
    match goal with
    | |- context [updateVisibleElements ?w0] =>
        destruct (updateVisibleElements_frame w0) as ((Hv1 & _) & _)
    end.
    apply hostStatic_inv in Hv1.
    destruct Hv1 as (_ & _ & _ & _ & _ & _ & _ & _ & Hfq & _).
    cbn [updVb host]. rewrite Hfq. reflexivity.
  - intros e He. destruct (step_keeps_pending w' e He Hset) as [H1 H2].
    split; [exact H1 | rewrite H2; exact Hq].
Qed.

Lemma C9_scroll_refresh_coalesced_witness :
  let w := run (constructor emptyHost None) (scrollEvents [(10, 0); (20, 0); (30, 0)]) in
  updateQueued (vb w) = true /\ Host.frameQueue (host w) = 1%nat /\
  updateQueued (vb (step w AnimationFrame)) = false /\
  Host.frameQueue (host (step w AnimationFrame)) = 0%nat.
Proof.
  cbv zeta.
  assert (Hreach : Reachable (constructor emptyHost None))
    by (apply reach_constructed; reflexivity).
  assert (Hl : Host.scrollListener (host (constructor emptyHost None)) = true)
    by (vm_compute; reflexivity).
  assert (Hflag : updateQueued (vb (constructor emptyHost None)) = false)
    by (vm_compute; reflexivity).
  assert (Hne : [(10, 0); (20, 0); (30, 0)] <> @nil (Q * Q)) by discriminate.
  pose proof (C9_scroll_refresh_coalesced _ _ Hreach Hl Hflag Hne) as H.
  cbv zeta in H.
  destruct H as (_ & _ & H1 & H2 & _ & H3 & H4 & _).
  repeat split; assumption.
Defined.

(** C10.  The visible-id set can come apart from the items marked
    visible.  An element whose id is the one the manager generates
    first is added and made visible; an element without id is then
    added, receives the same generated id and takes over the map entry,
    with its item not visible.  The visible set still holds the id, the
    first element's node is still attached, and [getVisibleElements]
    reports nothing. *)
Theorem C10_generated_id_takes_over_visible_entry :
  let before := run (constructor emptyHost None)
                    [AppendChild 0%nat; ScrollTo 0 0; AnimationFrame] in
  let after := step before (AppendChild 1%nat) in
  Reachable after /\
  currentlyVisibleElements (vb before) = ["virtual-element-0"] /\
  getVisibleElements before = [0%nat] /\
  currentlyVisibleElements (vb after) = ["virtual-element-0"] /\
  JsMap.get (elements (vb after)) "virtual-element-0" = Some 1%nat /\
  VirtualElement.isVisible (objects after 1%nat) = false /\
  In 0%nat (Host.children (host after)) /\
  getVisibleElements after = [] /\
  ~ visibleSetExact after.
Proof.
  cbv zeta.
  assert (Hget : JsMap.get
                   (elements (vb (step (run (constructor emptyHost None)
                                           [AppendChild 0%nat; ScrollTo 0 0; AnimationFrame])
                                      (AppendChild 1%nat))))
                   "virtual-element-0" = Some 1%nat) by (vm_compute; reflexivity).
  assert (Hvis : VirtualElement.isVisible
                   (objects (step (run (constructor emptyHost None)
                                       [AppendChild 0%nat; ScrollTo 0 0; AnimationFrame])
                                  (AppendChild 1%nat)) 1%nat) = false)
    by (vm_compute; reflexivity).
  assert (Hcv : currentlyVisibleElements
                  (vb (step (run (constructor emptyHost None)
                                 [AppendChild 0%nat; ScrollTo 0 0; AnimationFrame])
                            (AppendChild 1%nat))) = ["virtual-element-0"])
    by (vm_compute; reflexivity).
  split; [| split; [| split; [| split; [| split; [| split; [| split; [| split]]]]]]].
  - repeat apply reach_step. apply reach_constructed. reflexivity.
  - vm_compute. reflexivity.
  - vm_compute. reflexivity.
  - exact Hcv.
  - exact Hget.
  - exact Hvis.
  - vm_compute. right. left. reflexivity.
  - vm_compute. reflexivity.
  - intros Hexact.
    destruct (proj1 (Hexact "virtual-element-0")) as (item & Hitem & Hv).
    + rewrite Hcv. now left.
    + rewrite Hget in Hitem. injection Hitem as <-. rewrite Hvis in Hv. discriminate Hv.
Qed.

(** The same collision without any id chosen by the host: a first
    manager gives node 0 the generated id and is destroyed; a second
    manager on the same container tracks node 0 under that id, shows
    it, and then generates the same id for node 1. *)
Lemma generated_id_collision_after_reinit :
  let first := run (constructor bareHost None) [AppendChild 0%nat; CallDestroy] in
  let second := run (constructor (host first) None)
                    [AppendChild 0%nat; ScrollTo 0 0; AnimationFrame] in
  let after := step second (AppendChild 1%nat) in
  HTMLElement.id (Host.nodes (host first) 0%nat) = "virtual-element-0" /\
  Host.frameQueue (host first) = 0%nat /\
  getVisibleElements second = [0%nat] /\
  currentlyVisibleElements (vb after) = ["virtual-element-0"] /\
  JsMap.get (elements (vb after)) "virtual-element-0" = Some 1%nat /\
  VirtualElement.isVisible (objects after 1%nat) = false /\
  getVisibleElements after = [].
Proof.
  cbv zeta. repeat split; vm_compute; reflexivity.
Qed.

End ManagerClaims.


(** * Further properties *)

(** ** The spatial index: queries, insertion, removal *)

Section IndexMore.
Context {E : Type}.
Variable rectOf : E -> Rect.
Variable idOf : E -> string.

Local Abbreviation insertNode := (KDTree.insertNode rectOf).
Local Abbreviation removeNode := (KDTree.removeNode rectOf idOf).
Local Abbreviation findMinNode := (KDTree.findMinNode rectOf).
Local Abbreviation queryRangeNode := (KDTree.queryRangeNode rectOf).
Local Abbreviation elements := KDTree.elements.
Local Abbreviation coord := (KDTree.coord rectOf).

Lemma queryRangeNode_intersecting (t : KDTree.KDNode E) (q : Rect) (res : list E) (e : E) :
  In e (queryRangeNode t q res) ->
  In e res \/ (In e (elements t) /\ KDTree.intersects (rectOf e) q = true).
Proof.
  revert res. induction t as [| ne nax l IHl r IHr]; intros res; simpl.
  - auto.
  - intros H.
    assert (Hstep : forall (b : bool) (s : KDTree.KDNode E) (acc : list E),
               (forall res0, In e (queryRangeNode s q res0) ->
                             In e res0 \/
                             (In e (elements s) /\ KDTree.intersects (rectOf e) q = true)) ->
               In e (if b then queryRangeNode s q acc else acc) ->
               In e acc \/ (In e (elements s) /\ KDTree.intersects (rectOf e) q = true)).
    { intros b s acc IH H0. destruct b; [apply IH, H0 | left; exact H0]. }
    apply (Hstep _ r _ IHr) in H. destruct H as [H | [H1 H2]].
    2:{ right. split; [right; apply in_or_app; now right | exact H2]. }
    apply (Hstep _ l _ IHl) in H. destruct H as [H | [H1 H2]].
    2:{ right. split; [right; apply in_or_app; now left | exact H2]. }
    apply (Hstep _ l _ IHl) in H. destruct H as [H | [H1 H2]].
    2:{ right. split; [right; apply in_or_app; now left | exact H2]. }
    destruct (KDTree.intersects (rectOf ne) q) eqn:Hi.
    + apply in_app_or in H. destruct H as [H | [H | []]].
      * now left.
      * subst ne. right. split; [now left | exact Hi].
    + now left.
Qed.

(** X1.  [queryRange] reports only what it should: every reported
    element is held by the tree and its rectangle intersects the query
    rectangle, whatever the shape of the tree. *)
Theorem query_reports_only_intersecting_items (t : KDTree.KDNode E) (q : Rect) :
  Forall (fun e => In e (elements t) /\ KDTree.intersects (rectOf e) q = true)
         (KDTree.queryRange rectOf t q).
Proof.
  apply Forall_forall. intros e H. unfold KDTree.queryRange in H.
  apply queryRangeNode_intersecting in H. destruct H as [[] | H]. exact H.
Qed.

Lemma Ordered_insertNode (t : KDTree.KDNode E) (e : E) (d : nat) :
  Ordered rectOf t d -> Ordered rectOf (insertNode t e d) d.
Proof.
  revert d. induction t as [| ne nax l IHl r IHr]; intros d; simpl.
  - intros _. repeat split; constructor.
  - intros (Hl & Hr & Hol & Hor).
    destruct (Qltb _ _) eqn:Hlt; simpl; repeat split; auto.
    + apply Qltb_lt in Hlt.
      eapply Permutation_Forall; [symmetry; apply elements_insertNode |].
      constructor; assumption.
    + apply Qltb_ge in Hlt.
      eapply Permutation_Forall; [symmetry; apply elements_insertNode |].
      constructor; assumption.
Qed.

Lemma fold_insert_facts (items : list E) :
  forall t,
    I2 rectOf t 0 -> Ordered rectOf t 0 ->
    let t' := fold_left (KDTree.insert rectOf) items t in
    I2 rectOf t' 0 /\ Ordered rectOf t' 0 /\
    Permutation (elements t') (elements t ++ items).
Proof.
  induction items as [| a items IH]; intros t H1 H2; cbv zeta; simpl.
  - rewrite app_nil_r. repeat split; auto.
  - destruct (IH (KDTree.insert rectOf t a)) as (H3 & H4 & H5).
    + apply I2_insertNode, H1.
    + apply Ordered_insertNode, H2.
    + repeat split; try assumption.
      rewrite H5. unfold KDTree.insert. rewrite elements_insertNode.
      change (elements t ++ a :: items) with (elements t ++ [a] ++ items).
      rewrite (Permutation_app_comm (elements t) ([a] ++ items)).
      simpl. apply perm_skip. apply Permutation_app_comm.
Qed.

(** X2.  A tree built by [insert] alone holds exactly the inserted
    elements, each node stores the axis of its depth, and the
    coordinates are ordered as the descents expect: lesser to the
    left, not lesser to the right. *)
Theorem inserts_build_ordered_tree (items : list E) :
  let root := fold_left (KDTree.insert rectOf) items KDTree.Null in
  Permutation (elements root) items /\
  I2 rectOf root 0 /\
  Ordered rectOf root 0.
Proof.
  cbv zeta. destruct (fold_insert_facts items KDTree.Null) as (H1 & H2 & H3);
    simpl; auto.
Qed.


Lemma Forall_node (P : E -> Prop) (ne : E) (l r : KDTree.KDNode E) :
  P ne -> Forall P (elements l) -> Forall P (elements r) ->
  Forall P (ne :: elements l ++ elements r).
Proof. intros H1 H2 H3. constructor; [exact H1 | apply Forall_app; split; assumption]. Qed.

Lemma findMinNode_in (t : KDTree.KDNode E) (a d : nat) :
  match findMinNode t a d with
  | KDTree.Null => t = KDTree.Null
  | KDTree.Node m _ _ _ => In m (elements t)
  end.
Proof.
  revert d. induction t as [| ne nax l IHl r IHr]; intros d.
  - reflexivity.
  - specialize (IHl (d + 1)%nat). specialize (IHr (d + 1)%nat).
    assert (Hl : forall m, In m (elements l) ->
                           In m (elements (KDTree.Node ne nax l r))).
    { intros m H. right. apply in_or_app. now left. }
    assert (Hr : forall m, In m (elements r) ->
                           In m (elements (KDTree.Node ne nax l r))).
    { intros m H. right. apply in_or_app. now right. }
    assert (Hn : In ne (elements (KDTree.Node ne nax l r))) by now left.
    cbn [KDTree.findMinNode].
    destruct (d mod 2 =? a)%nat.
    + destruct l as [| le lax ll lr]; [exact Hn |].
      destruct (findMinNode (KDTree.Node le lax ll lr) a (d + 1)) as [| m max ml mr];
        [discriminate IHl |].
      destruct (Qltb _ _); [apply Hl, IHl | exact Hn].
    + set (cand := match l with
                   | KDTree.Null => KDTree.Node ne nax l r
                   | KDTree.Node _ _ _ _ => _
                   end).
      assert (Hc : match cand with
                   | KDTree.Null => False
                   | KDTree.Node m _ _ _ => In m (elements (KDTree.Node ne nax l r))
                   end).
      { subst cand. destruct l as [| le lax ll lr]; [exact Hn |].
        destruct (findMinNode (KDTree.Node le lax ll lr) a (d + 1)) as [| m max ml mr];
          [discriminate IHl |].
        destruct (Qltb _ _); [apply Hl, IHl | exact Hn]. }
      clearbody cand.
      destruct r as [| re rax rl rr].
      * destruct cand; [contradiction | exact Hc].
      * destruct (findMinNode (KDTree.Node re rax rl rr) a (d + 1)) as [| m max ml mr];
          [discriminate IHr |].
        destruct cand as [| ce cax cl cr]; [contradiction |].
        destruct (Qltb _ _); [apply Hr, IHr | exact Hc].
Qed.

Lemma findMinNode_least (t : KDTree.KDNode E) (a d : nat) :
  Ordered rectOf t d ->
  match findMinNode t a d with
  | KDTree.Null => t = KDTree.Null
  | KDTree.Node m _ _ _ =>
      Forall (fun e => coord a m <= coord a e) (elements t)
  end.
Proof.
  revert d. induction t as [| ne nax l IHl r IHr]; intros d.
  - reflexivity.
  - intros (Hlt & Hge & Hol & Hor).
    specialize (IHl (d + 1)%nat Hol). specialize (IHr (d + 1)%nat Hor).
    cbn [KDTree.findMinNode KDTree.elements].
    destruct (d mod 2 =? a)%nat eqn:Hax.
    + apply Nat.eqb_eq in Hax. rewrite Hax in Hlt, Hge.
      destruct l as [| le lax ll lr].
      * apply Forall_node; [apply Qle_refl | constructor | exact Hge].
      * destruct (findMinNode (KDTree.Node le lax ll lr) a (d + 1)) as [| m max ml mr] eqn:Hm;
          [discriminate IHl |].
        assert (Hin : In m (elements (KDTree.Node le lax ll lr))).
        { pose proof (findMinNode_in (KDTree.Node le lax ll lr) a (d + 1)) as H.
          rewrite Hm in H. exact H. }
        assert (Hmn : coord a m < coord a ne).
        { rewrite Forall_forall in Hlt. apply Hlt, Hin. }
        destruct (Qltb _ _) eqn:Hq.
        -- apply Forall_node; [lra | exact IHl |].
           eapply Forall_impl; [| exact Hge]. simpl. intros e He. lra.
        -- apply Qltb_ge in Hq. lra.
    + set (cand := match l with
                   | KDTree.Null => KDTree.Node ne nax l r
                   | KDTree.Node _ _ _ _ => _
                   end).
      assert (Hc : match cand with
                   | KDTree.Null => False
                   | KDTree.Node m _ _ _ =>
                       coord a m <= coord a ne /\
                       Forall (fun e => coord a m <= coord a e) (elements l)
                   end).
      { subst cand. destruct l as [| le lax ll lr].
        - split; [apply Qle_refl | constructor].
        - destruct (findMinNode (KDTree.Node le lax ll lr) a (d + 1)) as [| m max ml mr];
            [discriminate IHl |].
          destruct (Qltb _ _) eqn:Hq.
          + apply Qltb_lt in Hq. split; [lra | exact IHl].
          + apply Qltb_ge in Hq. split; [apply Qle_refl |].
            eapply Forall_impl; [| exact IHl]. simpl. intros e He. lra. }
      clearbody cand.
      destruct r as [| re rax rl rr].
      * destruct cand as [| ce cax cl cr]; [contradiction |].
        destruct Hc as [Hc1 Hc2]. apply Forall_node; [exact Hc1 | exact Hc2 | constructor].
      * destruct (findMinNode (KDTree.Node re rax rl rr) a (d + 1)) as [| m max ml mr];
          [discriminate IHr |].
        destruct cand as [| ce cax cl cr]; [contradiction |].
        destruct Hc as [Hc1 Hc2].
        destruct (Qltb _ _) eqn:Hq.
        -- apply Qltb_lt in Hq.
           apply Forall_node; [lra | | exact IHr].
           eapply Forall_impl; [| exact Hc2]. simpl. intros e He. lra.
        -- apply Qltb_ge in Hq.
           apply Forall_node; [exact Hc1 | exact Hc2 |].
           eapply Forall_impl; [| exact IHr]. simpl. intros e He. lra.
Qed.

(** X3.  On an ordered tree that is not empty, [findMinNode] returns
    a node of the tree whose element has the least coordinate on the
    requested axis, although it skips the right subtree where the
    split axis is the requested one. *)
Theorem findMinNode_returns_least (t : KDTree.KDNode E) (a d : nat) :
  Ordered rectOf t d -> t <> KDTree.Null ->
  exists m ax l r,
    findMinNode t a d = KDTree.Node m ax l r /\
    In m (elements t) /\
    Forall (fun e => coord a m <= coord a e) (elements t).
Proof.
  intros Ho Hn.
  pose proof (findMinNode_in t a d) as H1.
  pose proof (findMinNode_least t a d Ho) as H2.
  destruct (findMinNode t a d) as [| m ax l r]; [contradiction |].
  exists m, ax, l, r. auto.
Qed.

Lemma removeNode_absent (t : KDTree.KDNode E) (e : E) (d : nat) :
  Forall (fun e' => idOf e' <> idOf e) (elements t) -> removeNode t e d = t.
Proof.
  revert d. induction t as [| ne nax l IHl r IHr]; intros d H; simpl.
  - reflexivity.
  - simpl in H. apply Forall_cons_iff in H. destruct H as [Hne H].
    apply Forall_app in H. destruct H as [Hl Hr].
    apply String.eqb_neq in Hne. rewrite Hne.
    destruct (Qltb _ _); [rewrite IHl | rewrite IHr]; auto.
Qed.

(** X4.  Removing an element whose id no element of the tree has
    leaves the tree as it is. *)
Theorem remove_absent_id_leaves_tree (t : KDTree.KDNode E) (e : E) :
  Forall (fun e' => idOf e' <> idOf e) (elements t) ->
  KDTree.remove rectOf idOf t e = t.
Proof. apply removeNode_absent. Qed.

Lemma removeNode_bounds (t : KDTree.KDNode E) :
  forall (e : E) (d : nat),
    incl (elements (removeNode t e d)) (elements t) /\
    (List.length (elements (removeNode t e d)) <= List.length (elements t)
     <= S (List.length (elements (removeNode t e d))))%nat.
Proof.
  induction t as [| ne nax l IHl r IHr]; intros e d.
  - simpl. split; [apply incl_refl | lia].
  - cbn [KDTree.removeNode].
    destruct (String.eqb _ _).
    + destruct r as [| re rax rl rr].
      * cbn [KDTree.elements]. rewrite app_nil_r. split.
        -- apply incl_tl, incl_refl.
        -- simpl. lia.
      * destruct l as [| le lax ll lr].
        -- split; [apply incl_tl; simpl; apply incl_refl | simpl; lia].
        -- pose proof (findMinNode_in (KDTree.Node re rax rl rr) (d mod 2) (d + 1)) as Hm.
           destruct (findMinNode (KDTree.Node re rax rl rr) (d mod 2) (d + 1))
             as [| m max ml mr]; [discriminate Hm |].
           destruct (IHr m (d + 1)%nat) as [Hi Hlen].
           remember (KDTree.Node re rax rl rr) as rt.
           remember (KDTree.Node le lax ll lr) as lt.
           cbn [KDTree.elements]. split.
           ++ intros z [Hz | Hz].
              ** subst z. right. apply in_or_app. now right.
              ** right. apply in_app_or in Hz. apply in_or_app.
                 destruct Hz as [Hz | Hz]; [now left | right; apply Hi, Hz].
           ++ simpl. rewrite !length_app. lia.
    + destruct (Qltb _ _).
      * destruct (IHl e (d + 1)%nat) as [Hi Hlen]. cbn [KDTree.elements]. split.
        -- intros z [Hz | Hz]; [now left | right].
           apply in_app_or in Hz. apply in_or_app.
           destruct Hz as [Hz | Hz]; [left; apply Hi, Hz | now right].
        -- simpl. rewrite !length_app. lia.
      * destruct (IHr e (d + 1)%nat) as [Hi Hlen]. cbn [KDTree.elements]. split.
        -- intros z [Hz | Hz]; [now left | right].
           apply in_app_or in Hz. apply in_or_app.
           destruct Hz as [Hz | Hz]; [now left | right; apply Hi, Hz].
        -- simpl. rewrite !length_app. lia.
Qed.

(** X5.  [remove] never adds an element and drops at most one: what
    the tree holds afterwards is among what it held, and the count
    goes down by one at most. *)
Theorem remove_drops_at_most_one (t : KDTree.KDNode E) (e : E) :
  incl (elements (KDTree.remove rectOf idOf t e)) (elements t) /\
  (List.length (elements (KDTree.remove rectOf idOf t e)) <= List.length (elements t)
   <= S (List.length (elements (KDTree.remove rectOf idOf t e))))%nat.
Proof. apply removeNode_bounds. Qed.

Lemma same_id_same_element (l : list E) (a b : E) :
  NoDup (map idOf l) -> In a l -> In b l -> idOf a = idOf b -> a = b.
Proof.
  induction l as [| c l IH]; simpl; intros Hnd Ha Hb Hid; [contradiction |].
  inversion Hnd as [| ? ? Hnot Hnd']; subst.
  destruct Ha as [Ha | Ha], Hb as [Hb | Hb].
  - congruence.
  - subst c. exfalso. apply Hnot. rewrite Hid. apply in_map, Hb.
  - subst c. exfalso. apply Hnot. rewrite <- Hid. apply in_map, Ha.
  - auto.
Qed.

Lemma NoDup_map_app_l (l1 l2 : list E) :
  NoDup (map idOf (l1 ++ l2)) -> NoDup (map idOf l1).
Proof. rewrite map_app. apply NoDup_app_remove_r. Qed.

Lemma NoDup_map_app_r (l1 l2 : list E) :
  NoDup (map idOf (l1 ++ l2)) -> NoDup (map idOf l2).
Proof. rewrite map_app. apply NoDup_app_remove_l. Qed.

Lemma removeNode_exact (t : KDTree.KDNode E) :
  forall (e : E) (d : nat),
    Ordered rectOf t d -> NoDup (map idOf (elements t)) -> In e (elements t) ->
    Permutation (e :: elements (removeNode t e d)) (elements t).
Proof.
  induction t as [| ne nax l IHl r IHr]; intros e d Ho Hnd Hin.
  - contradiction.
  - destruct Ho as (Hlt & Hge & Hol & Hor).
    assert (Hndl : NoDup (map idOf (elements l))).
    { simpl in Hnd. inversion Hnd; subst. eapply NoDup_map_app_l; eassumption. }
    assert (Hndr : NoDup (map idOf (elements r))).
    { simpl in Hnd. inversion Hnd; subst. eapply NoDup_map_app_r; eassumption. }
    cbn [KDTree.removeNode].
    destruct (String.eqb _ _) eqn:Hid.
    + apply String.eqb_eq in Hid.
      assert (He : ne = e).
      { apply (same_id_same_element _ _ _ Hnd); [now left | exact Hin | exact Hid]. }
      subst e.
      destruct r as [| re rax rl rr].
      * cbn [KDTree.elements]. rewrite app_nil_r. apply Permutation_refl.
      * destruct l as [| le lax ll lr].
        -- apply Permutation_refl.
        -- pose proof (findMinNode_in (KDTree.Node re rax rl rr) (d mod 2) (d + 1)) as Hm.
           destruct (findMinNode (KDTree.Node re rax rl rr) (d mod 2) (d + 1))
             as [| m max ml mr]; [discriminate Hm |].
           pose proof (IHr m (d + 1)%nat Hor Hndr Hm) as Hp.
           remember (KDTree.Node re rax rl rr) as rt.
           remember (KDTree.Node le lax ll lr) as lt.
           cbn [KDTree.elements]. apply perm_skip.
           rewrite <- Hp. apply Permutation_middle.
    + apply String.eqb_neq in Hid.
      destruct Hin as [Hin | Hin]; [congruence |].
      apply in_app_or in Hin. destruct Hin as [Hin | Hin].
      * rewrite Forall_forall in Hlt. pose proof (Hlt _ Hin) as Hc.
        apply Qltb_lt in Hc. rewrite Hc.
        cbn [KDTree.elements]. rewrite perm_swap. apply perm_skip.
        rewrite app_comm_cons. apply Permutation_app_tail. apply IHl; assumption.
      * rewrite Forall_forall in Hge. pose proof (Hge _ Hin) as Hc.
        apply Qltb_ge in Hc. rewrite Hc.
        cbn [KDTree.elements]. rewrite perm_swap. apply perm_skip.
        rewrite <- (IHr e (d + 1)%nat Hor Hndr Hin).
        apply Permutation_middle.
Qed.

(** X6.  On a tree built by [insert] alone from elements with
    pairwise distinct ids, one [remove] takes out exactly the element
    asked for. *)
Theorem remove_after_inserts_is_exact (items : list E) (e : E) :
  NoDup (map idOf items) -> In e items ->
  let root := fold_left (KDTree.insert rectOf) items KDTree.Null in
  Permutation (e :: elements (KDTree.remove rectOf idOf root e)) items.
Proof.
  intros Hnd Hin. cbv zeta.
  destruct (fold_insert_facts items KDTree.Null) as (_ & Ho & Hp); simpl; auto.
  simpl in Hp. eapply Permutation_trans; [| exact Hp]. apply removeNode_exact.
  - exact Ho.
  - eapply Permutation_NoDup; [| exact Hnd]. apply Permutation_map. symmetry. exact Hp.
  - eapply Permutation_in; [symmetry; exact Hp | exact Hin].
Qed.


Lemma Stacked_queryRangeNode (t : KDTree.KDNode E) (q : Rect) :
  Stacked rectOf t ->
  forall res,
    queryRangeNode t q res
    = res ++ filter (fun e => KDTree.intersects (rectOf e) q) (elements t).
Proof.
  induction t as [| ne nax l IHl r IHr]; intros Hs res.
  - simpl. now rewrite app_nil_r.
  - destruct Hs as (Hl & Hall & Hr). subst l.
    cbn [KDTree.queryRangeNode KDTree.elements filter app].
    assert (Hleft : forall (b : bool) (acc : list E),
               (if b then acc else acc) = acc).
    { intros [] acc; reflexivity. }
    rewrite !Hleft.
    set (res' := if KDTree.intersects (rectOf ne) q then res ++ [ne] else res).
    assert (Hres : res ++ (if KDTree.intersects (rectOf ne) q
                           then ne :: filter (fun e => KDTree.intersects (rectOf e) q) (elements r)
                           else filter (fun e => KDTree.intersects (rectOf e) q) (elements r))
                   = res' ++ filter (fun e => KDTree.intersects (rectOf e) q) (elements r)).
    { subst res'. destruct (KDTree.intersects (rectOf ne) q); [| reflexivity].
      now rewrite <- app_assoc. }
    rewrite Hres. clearbody res'.
    destruct (Qgeb _ _) eqn:Hq.
    + apply IHr, Hr.
    + apply Qgeb_lt in Hq.
      assert (Hnone : filter (fun e => KDTree.intersects (rectOf e) q) (elements r) = []).
      { assert (Hf : forall (f : E -> bool) (l : list E),
                   (forall z, In z l -> f z = false) -> filter f l = []).
        { intros f l0. induction l0 as [| z l0 IH]; intros Hz; simpl; [reflexivity |].
          rewrite (Hz z (or_introl eq_refl)). apply IH. intros z' Hz'. apply Hz. now right. }
        apply Hf. intros e' He'.
        rewrite Forall_forall in Hall. destruct (Hall _ He') as [Hx Hy].
        unfold KDTree.intersects. apply negb_false_iff.
        unfold KDTree.coord in Hq. destruct (nax =? 0)%nat.
        - assert (H : Qleb (Rect.x q + Rect.width q) (Rect.x (rectOf e')) = true)
            by (apply Qleb_le; lra).
          rewrite H. now rewrite !orb_true_r.
        - assert (H : Qleb (Rect.y q + Rect.height q) (Rect.y (rectOf e')) = true)
            by (apply Qleb_le; lra).
          rewrite H. now rewrite !orb_true_r. }
      rewrite Hnone. now rewrite app_nil_r.
Qed.

(** X7.  On a stacked tree, the shape vertical stacking gives the
    index, [queryRange] reports exactly the elements whose rectangle
    intersects the query rectangle, each once and in stacking order. *)
Theorem stacked_query_is_exact (t : KDTree.KDNode E) (q : Rect) :
  Stacked rectOf t ->
  KDTree.queryRange rectOf t q
  = filter (fun e => KDTree.intersects (rectOf e) q) (elements t).
Proof. intros Hs. unfold KDTree.queryRange. now rewrite Stacked_queryRangeNode. Qed.

Lemma Stacked_insertNode (t : KDTree.KDNode E) (e : E) :
  Stacked rectOf t ->
  Forall (fun e' => Rect.x (rectOf e') <= Rect.x (rectOf e) /\
                    Rect.y (rectOf e') <= Rect.y (rectOf e)) (elements t) ->
  forall d,
    Stacked rectOf (insertNode t e d) /\
    elements (insertNode t e d) = elements t ++ [e].
Proof.
  induction t as [| ne nax l IHl r IHr]; intros Hs Hall d.
  - simpl. repeat split; constructor.
  - destruct Hs as (Hl & Hbelow & Hr). subst l.
    cbn [KDTree.elements app] in Hall. apply Forall_cons_iff in Hall.
    destruct Hall as [[Hx Hy] Hall].
    cbn [KDTree.insertNode].
    assert (Hq : Qltb (coord (d mod 2) e) (coord (d mod 2) ne) = false).
    { apply Qltb_ge. unfold KDTree.coord. destruct (d mod 2 =? 0)%nat; assumption. }
    rewrite Hq. destruct (IHr Hr Hall (d + 1)%nat) as [Hs' He'].
    split.
    + cbn [Stacked]. split; [reflexivity |]. split; [| exact Hs'].
      rewrite He'. apply Forall_app. split; [exact Hbelow |].
      constructor; [split; assumption | constructor].
    + cbn [KDTree.elements app]. now rewrite He'.
Qed.

(** X8.  Inserting an element that lies below and right of, or level
    with, every element of a stacked tree puts it last and keeps the
    tree stacked. *)
Theorem stacked_insert_appends (t : KDTree.KDNode E) (e : E) :
  Stacked rectOf t ->
  Forall (fun e' => Rect.x (rectOf e') <= Rect.x (rectOf e) /\
                    Rect.y (rectOf e') <= Rect.y (rectOf e)) (elements t) ->
  Stacked rectOf (KDTree.insert rectOf t e) /\
  elements (KDTree.insert rectOf t e) = elements t ++ [e].
Proof. intros Hs Hall. now apply Stacked_insertNode. Qed.

Lemma withoutFirst_incl (i : string) (l : list E) : incl (withoutFirst idOf i l) l.
Proof.
  induction l as [| a l IH]; simpl; [apply incl_refl |].
  destruct (String.eqb _ _); [apply incl_tl, incl_refl |].
  intros z [Hz | Hz]; [now left | right; apply IH, Hz].
Qed.

Lemma Stacked_removeNode (t : KDTree.KDNode E) (e : E) :
  Stacked rectOf t -> In e (elements t) ->
  forall d,
    Stacked rectOf (removeNode t e d) /\
    elements (removeNode t e d) = withoutFirst idOf (idOf e) (elements t).
Proof.
  induction t as [| ne nax l IHl r IHr]; intros Hs Hin d.
  - contradiction.
  - destruct Hs as (Hl & Hbelow & Hr). subst l.
    cbn [KDTree.removeNode KDTree.elements app withoutFirst].
    destruct (String.eqb _ _) eqn:Hid.
    + destruct r; [split; [exact I | reflexivity] | split; [exact Hr | reflexivity]].
    + apply String.eqb_neq in Hid.
      cbn [KDTree.elements app] in Hin. destruct Hin as [Hin | Hin]; [congruence |].
      rewrite Forall_forall in Hbelow. destruct (Hbelow _ Hin) as [Hx Hy].
      assert (Hq : Qltb (coord (d mod 2) e) (coord (d mod 2) ne) = false).
      { apply Qltb_ge. unfold KDTree.coord. destruct (d mod 2 =? 0)%nat; assumption. }
      rewrite Hq. destruct (IHr Hr Hin (d + 1)%nat) as [Hs' He'].
      split.
      * cbn [Stacked]. split; [reflexivity |]. split; [| exact Hs'].
        rewrite He'. apply Forall_forall. intros z Hz.
        apply Hbelow. eapply withoutFirst_incl, Hz.
      * cbn [KDTree.elements app]. now rewrite He'.
Qed.

(** X9.  Removing an element held by a stacked tree takes out the
    first element with its id, keeps all others in order, and keeps
    the tree stacked. *)
Theorem stacked_remove_is_exact (t : KDTree.KDNode E) (e : E) :
  Stacked rectOf t -> In e (elements t) ->
  Stacked rectOf (KDTree.remove rectOf idOf t e) /\
  elements (KDTree.remove rectOf idOf t e)
  = withoutFirst idOf (idOf e) (elements t).
Proof. intros Hs Hin. now apply Stacked_removeNode. Qed.

(** X10.  [queryPoint] reports an element only if the point lies in
    its box with the far edges left out; an element without width or
    without height is never reported. *)
Theorem queryPoint_reports_half_open_boxes (t : KDTree.KDNode E) (px py : Q) :
  Forall (fun e =>
            In e (elements t) /\
            Rect.x (rectOf e) <= px < Rect.x (rectOf e) + Rect.width (rectOf e) /\
            Rect.y (rectOf e) <= py < Rect.y (rectOf e) + Rect.height (rectOf e) /\
            0 < Rect.width (rectOf e) /\ 0 < Rect.height (rectOf e))
         (KDTree.queryPoint rectOf t px py).
Proof.
  apply Forall_forall. intros e H.
  destruct (queryPoint_sound rectOf t px py e H) as (Hin & [Hx1 Hx2] & [Hy1 Hy2]).
  destruct (queryPoint_short_of_far_edges rectOf t px py e H) as [Hx3 Hy3].
  repeat split; try assumption; lra.
Qed.

(** X11.  [intersects] does not depend on the order of its arguments,
    and holds exactly when the two open boxes overlap: rectangles
    that only share an edge do not intersect. *)
Theorem intersects_symmetric_open (r1 r2 : Rect) :
  KDTree.intersects r1 r2 = KDTree.intersects r2 r1 /\
  (KDTree.intersects r1 r2 = true <->
   Rect.x r1 < Rect.x r2 + Rect.width r2 /\ Rect.x r2 < Rect.x r1 + Rect.width r1 /\
   Rect.y r1 < Rect.y r2 + Rect.height r2 /\ Rect.y r2 < Rect.y r1 + Rect.height r1).
Proof.
  split.
  - unfold KDTree.intersects, Qgeb, Qleb.
    destruct (Qle_bool (Rect.x r1 + Rect.width r1) (Rect.x r2)),
             (Qle_bool (Rect.x r2 + Rect.width r2) (Rect.x r1)),
             (Qle_bool (Rect.y r1 + Rect.height r1) (Rect.y r2)),
             (Qle_bool (Rect.y r2 + Rect.height r2) (Rect.y r1)); reflexivity.
  - unfold KDTree.intersects. rewrite negb_true_iff, !orb_false_iff.
    rewrite !Qgeb_lt, !Qleb_gt. tauto.
Qed.

(** X12.  After insertions only, a query rectangle that has every
    inserted rectangle inside it reports exactly the inserted
    elements. *)
Theorem covering_query_reports_all_inserted (items : list E) (q : Rect) :
  Forall (fun e => inside (rectOf e) q) items ->
  forall e,
    In e (KDTree.queryRange rectOf (fold_left (KDTree.insert rectOf) items KDTree.Null) q)
    <-> In e items.
Proof.
  intros Hall e. apply queryRange_after_inserts.
  apply Forall_forall, Hall.
Qed.

End IndexMore.

Section IndexMoreOnInputs.
Import Fixture.

Local Abbreviation rect := VirtualElement.rect.
Local Abbreviation id := VirtualElement.id.
Local Abbreviation tree := (fold_left (KDTree.insert rect)).

Ltac structure :=
  repeat first [ exact I | reflexivity | apply conj | apply Forall_nil | apply Forall_cons ].

Lemma findMinNode_returns_least_witness :
  exists m ax l r,
    KDTree.findMinNode rect (tree [el1; el2; el3] KDTree.Null) 1 0
    = KDTree.Node m ax l r /\
    In m [el1; el2; el3] /\
    Forall (fun e => KDTree.coord rect 1 m <= KDTree.coord rect 1 e) [el1; el2; el3].
Proof.
  apply (findMinNode_returns_least rect (tree [el1; el2; el3] KDTree.Null) 1 0).
  - simpl. structure; qdecide.
  - discriminate.
Defined.

Lemma remove_absent_id_leaves_tree_witness :
  KDTree.remove rect id (tree [el1; el3] KDTree.Null) el2 = tree [el1; el3] KDTree.Null.
Proof.
  apply (remove_absent_id_leaves_tree rect id (tree [el1; el3] KDTree.Null) el2).
  simpl. structure; discriminate.
Defined.

Lemma remove_after_inserts_is_exact_witness :
  Permutation
    (el1 :: KDTree.elements (KDTree.remove rect id (tree [el1; el2; el3] KDTree.Null) el1))
    [el1; el2; el3].
Proof.
  apply (remove_after_inserts_is_exact rect id [el1; el2; el3] el1).
  - simpl. repeat constructor; simpl; intuition discriminate.
  - now left.
Defined.

Lemma stacked_query_is_exact_witness :
  KDTree.queryRange rect (tree [row1; row2; row3] KDTree.Null) (Rect.mk 0 60 100 20)
  = filter (fun e => KDTree.intersects (rect e) (Rect.mk 0 60 100 20))
           (KDTree.elements (tree [row1; row2; row3] KDTree.Null)).
Proof.
  apply (stacked_query_is_exact rect (tree [row1; row2; row3] KDTree.Null)).
  simpl. structure; qdecide.
Defined.

Lemma stacked_insert_appends_witness :
  Stacked rect (KDTree.insert rect (tree [row1; row2] KDTree.Null) row3) /\
  KDTree.elements (KDTree.insert rect (tree [row1; row2] KDTree.Null) row3)
  = KDTree.elements (tree [row1; row2] KDTree.Null) ++ [row3].
Proof.
  apply (stacked_insert_appends rect (tree [row1; row2] KDTree.Null) row3).
  - simpl. structure; qdecide.
  - simpl. structure; qdecide.
Defined.

Lemma stacked_remove_is_exact_witness :
  Stacked rect (KDTree.remove rect id (tree [row1; row2; row3] KDTree.Null) row2) /\
  KDTree.elements (KDTree.remove rect id (tree [row1; row2; row3] KDTree.Null) row2)
  = withoutFirst id "row2" (KDTree.elements (tree [row1; row2; row3] KDTree.Null)).
Proof.
  apply (stacked_remove_is_exact rect id (tree [row1; row2; row3] KDTree.Null) row2).
  - simpl. structure; qdecide.
  - simpl. auto.
Defined.

Lemma covering_query_reports_all_inserted_witness :
  In el2 (KDTree.queryRange rect (tree [el1; el2; el3] KDTree.Null) everything)
  <-> In el2 [el1; el2; el3].
Proof.
  apply (covering_query_reports_all_inserted rect [el1; el2; el3] everything).
  unfold inside. simpl. structure; qdecide.
Defined.

End IndexMoreOnInputs.

(** ** The scroll coordinate engine: order, end points, remeasure *)

Lemma mapScroll_monotone MAX total vp a b :
  a <= b -> Scroll.mapScroll MAX total vp a <= Scroll.mapScroll MAX total vp b.
Proof.
  intros Hab.
  destruct (Qlt_le_dec MAX total) as [Hbig | Hsmall].
  - destruct (Qlt_le_dec 0 (MAX - vp)) as [Hm | Hm].
    + rewrite !(mapScroll_percentage _ _ _ _ Hbig Hm).
      apply Qmult_le_compat_r; [| apply Q.le_max_r].
      apply Q.max_le_compat_l, Q.min_le_compat_l.
      unfold Qdiv. apply Qmult_le_compat_r; [exact Hab |].
      apply Qinv_le_0_compat. lra.
    + rewrite !(mapScroll_no_range _ _ _ _ Hbig Hm). lra.
  - rewrite !(mapScroll_identity _ _ _ _ Hsmall). exact Hab.
Qed.

Lemma virtualScroll_monotone MAX total vp a b :
  a <= b -> Scroll.virtualScroll MAX total vp a <= Scroll.virtualScroll MAX total vp b.
Proof.
  intros Hab. unfold Scroll.virtualScroll. rewrite !clampVirtualScroll_Qminmax.
  apply Q.min_le_compat_r, Q.max_le_compat_l, mapScroll_monotone, Hab.
Qed.

Lemma remapScroll_virtualScroll MAX total vp h :
  Scroll.remapScroll MAX total vp h = Scroll.virtualScroll MAX total vp h.
Proof.
  unfold Scroll.remapScroll, Scroll.virtualScroll, Scroll.mapScroll.
  destruct (Qleb total MAX); [reflexivity |].
  destruct (Qleb (MAX - vp) 0) eqn:H; [reflexivity |].
  unfold Qgtb, Qltb. unfold Qleb in H. rewrite H. reflexivity.
Qed.



Section ScrollMore.
Import Virtualboy Fixture.

(** X13.  Scrolling further never moves the virtual viewport back: of
    two scroll events on the same state, the one with the greater host
    offset leaves a virtual offset that is not less, on either axis. *)
Theorem scroll_offsets_are_monotone (w : World) (top1 top2 left1 left2 : Q) :
  top1 <= top2 -> left1 <= left2 ->
  virtualScrollTop (vb (step w (ScrollTo top1 left1)))
  <= virtualScrollTop (vb (step w (ScrollTo top2 left2))) /\
  virtualScrollLeft (vb (step w (ScrollTo top1 left1)))
  <= virtualScrollLeft (vb (step w (ScrollTo top2 left2))).
Proof.
  intros Ht Hl. cbn [step]. cbn [updHost host Host.set_scrollLeft Host.set_scrollTop
                               Host.scrollListener].
  destruct (Host.scrollListener (host w)).
  - match goal with
    | |- virtualScrollTop (vb (handleScroll ?a)) <= virtualScrollTop (vb (handleScroll ?b)) /\ _ =>
        destruct (handleScroll_offsets a) as [-> ->];
        destruct (handleScroll_offsets b) as [-> ->]
    end.
    simpl. split; apply virtualScroll_monotone; assumption.
  - simpl. split; apply Qle_refl.
Qed.

Lemma scroll_offsets_are_monotone_witness :
  let w := constructor (hostWithChild 2000) None in
  virtualScrollTop (vb (step w (ScrollTo 100 0)))
  <= virtualScrollTop (vb (step w (ScrollTo 300 0))) /\
  virtualScrollLeft (vb (step w (ScrollTo 100 0)))
  <= virtualScrollLeft (vb (step w (ScrollTo 300 0))).
Proof.
  cbv zeta.
  apply (scroll_offsets_are_monotone (constructor (hostWithChild 2000) None) 100 300 0 0);
    qdecide.
Defined.

(** X14.  Beyond the cap, with a viewport smaller than the capped
    surface, the two ends of the surface's scrollable range reach the
    two ends of the virtual range: host offset 0 gives virtual offset
    0, and the last host offset, cap minus viewport, gives the last
    virtual offset, total minus viewport.  On both axes. *)
Theorem scroll_surface_ends_reach_virtual_ends (w : World) (top left : Q) :
  Host.scrollListener (host w) = true ->
  (Scroll.MAX_SCROLL_HEIGHT < totalVirtualHeight (vb w) ->
   Host.clientHeight (host w) < Scroll.MAX_SCROLL_HEIGHT ->
   virtualScrollTop (vb (step w (ScrollTo 0 left))) == 0 /\
   virtualScrollTop
     (vb (step w (ScrollTo (Scroll.MAX_SCROLL_HEIGHT - Host.clientHeight (host w)) left)))
   == totalVirtualHeight (vb w) - Host.clientHeight (host w)) /\
  (Scroll.MAX_SCROLL_WIDTH < totalVirtualWidth (vb w) ->
   Host.clientWidth (host w) < Scroll.MAX_SCROLL_WIDTH ->
   virtualScrollLeft (vb (step w (ScrollTo top 0))) == 0 /\
   virtualScrollLeft
     (vb (step w (ScrollTo top (Scroll.MAX_SCROLL_WIDTH - Host.clientWidth (host w)))))
   == totalVirtualWidth (vb w) - Host.clientWidth (host w)).
Proof.
  intros Hlis.
  assert (Hends : forall MAX total vp,
             MAX < total -> vp < MAX ->
             Scroll.virtualScroll MAX total vp 0 == 0 /\
             Scroll.virtualScroll MAX total vp (MAX - vp) == total - vp).
  { intros MAX total vp H1 H2. assert (Hm : 0 < MAX - vp) by lra.
    rewrite !(virtualScroll_percentage _ _ _ _ H1 Hm).
    rewrite (Q.max_l (total - vp) 0) by lra.
    assert (E0 : 0 / (MAX - vp) == 0) by (field; lra).
    assert (E1 : (MAX - vp) / (MAX - vp) == 1) by (field; lra).
    rewrite E0, E1.
    rewrite (Q.min_r 1 0) by lra. rewrite (Q.max_l 0 0) by lra.
    rewrite (Q.min_l 1 1) by lra. rewrite (Q.max_r 0 1) by lra.
    split; ring. }
  assert (Hstep : forall a b,
             virtualScrollTop (vb (step w (ScrollTo a b)))
             = Scroll.virtualScroll Scroll.MAX_SCROLL_HEIGHT (totalVirtualHeight (vb w))
                 (Host.clientHeight (host w)) a /\
             virtualScrollLeft (vb (step w (ScrollTo a b)))
             = Scroll.virtualScroll Scroll.MAX_SCROLL_WIDTH (totalVirtualWidth (vb w))
                 (Host.clientWidth (host w)) b).
  { intros a b. cbn [step]. cbn [updHost host Host.set_scrollLeft Host.set_scrollTop
                                  Host.scrollListener].
    rewrite Hlis.
    match goal with
    | |- virtualScrollTop (vb (handleScroll ?x)) = _ /\ _ =>
        destruct (handleScroll_offsets x) as [-> ->]
    end.
    split; reflexivity. }
  split; intros H1 H2.
  - rewrite (proj1 (Hstep 0 left)), (proj1 (Hstep _ left)). apply Hends; assumption.
  - rewrite (proj2 (Hstep top 0)), (proj2 (Hstep top _)). apply Hends; assumption.
Qed.

Lemma scroll_surface_ends_reach_virtual_ends_witness :
  let w := constructor (hostWithChild 2000000) None in
  virtualScrollTop (vb (step w (ScrollTo 0 0))) == 0 /\
  virtualScrollTop (vb (step w (ScrollTo (Scroll.MAX_SCROLL_HEIGHT - 600) 0)))
  == 2000000 - 600.
Proof.
  cbv zeta.
  assert (Hlis : Host.scrollListener (host (constructor (hostWithChild 2000000) None)) = true)
    by reflexivity.
  destruct (scroll_surface_ends_reach_virtual_ends
              (constructor (hostWithChild 2000000) None) 0 0 Hlis) as [H _].
  apply H; qdecide.
Defined.



(** X16.  The offsets [remeasure] leaves are the ones the scroll
    handler would compute: a scroll event that arrives right after
    [remeasure], with the host offsets [remeasure] wrote, changes
    neither virtual offset. *)
Theorem scroll_after_remeasure_keeps_offsets (w : World) :
  let w' := remeasure w in
  virtualScrollTop (vb (handleScroll w')) = virtualScrollTop (vb w') /\
  virtualScrollLeft (vb (handleScroll w')) = virtualScrollLeft (vb w').
Proof.
  intros w'.
  destruct (remeasure_facts w)
    as (Hcw & Hch & _ & _ & _ & _ & _ & _ & _ & _ & Hvt & Hvl).
  fold w' in Hcw, Hch, Hvt, Hvl.
  destruct (handleScroll_offsets w') as [-> ->].
  rewrite Hvt, Hvl, Hcw, Hch, !remapScroll_virtualScroll. split; reflexivity.
Qed.



End ScrollMore.

(** ** The visibility refresh: the visible set and the container *)

Section Refresh.
Import Virtualboy.

Lemma JsSet_has_In s k : JsSet.has s k = true <-> In k s.
Proof.
  unfold JsSet.has. rewrite existsb_exists. split.
  - intros (x & Hin & Hx). apply String.eqb_eq in Hx. now subst x.
  - intros Hin. exists k. split; [exact Hin | apply String.eqb_refl].
Qed.

Lemma In_JsSet_delete s i k : In k (JsSet.delete s i) <-> In k s /\ k <> i.
Proof.
  unfold JsSet.delete. rewrite filter_In, negb_true_iff, String.eqb_neq. tauto.
Qed.

Lemma In_JsSet_add s i k : In k (JsSet.add s i) <-> In k s \/ k = i.
Proof.
  unfold JsSet.add. destruct (JsSet.has s i) eqn:H.
  - apply JsSet_has_In in H. split; [tauto | intros [Hk | ->]; assumption].
  - rewrite in_app_iff. simpl. intuition.
Qed.

Lemma processRemoval_visibleSet ids w i :
  currentlyVisibleElements (vb (processRemoval ids w i))
  = if negb (JsSet.has ids i)
    then JsSet.delete (currentlyVisibleElements (vb w)) i
    else currentlyVisibleElements (vb w).
Proof.
  unfold processRemoval. destruct (negb _); [| reflexivity].
  destruct (JsMap.get _ _) as [item |]; [| reflexivity].
  destruct (VirtualElement.isVisible _); reflexivity.
Qed.

Lemma fold_processRemoval_visibleSet ids l :
  forall w k,
    In k (currentlyVisibleElements (vb (fold_left (processRemoval ids) l w)))
    <-> In k (currentlyVisibleElements (vb w)) /\ (In k ids \/ ~ In k l).
Proof.
  induction l as [| i l IH]; intros w k; simpl.
  - tauto.
  - rewrite IH, processRemoval_visibleSet.
    destruct (JsSet.has ids i) eqn:Hi; simpl.
    + apply JsSet_has_In in Hi.
      destruct (in_dec string_dec k ids) as [Hk | Hk]; [tauto |].
      split; intros [H1 H2]; (split; [exact H1 |]); right.
      * destruct H2 as [H2 | H2]; [contradiction |].
        intros [-> | H3]; [contradiction | contradiction].
      * destruct H2 as [H2 | H2]; [contradiction | tauto].
    + assert (Hni : ~ In i ids).
      { intros H. apply JsSet_has_In in H. congruence. }
      rewrite In_JsSet_delete.
      split.
      * intros [[H1 H2] [H3 | H3]]; (split; [exact H1 |]); [now left | right].
        intros [-> | H4]; [now apply H2 | contradiction].
      * intros [H1 [H3 | H3]].
        -- repeat split; try assumption; [| now left]. intros ->. contradiction.
        -- repeat split; try assumption; [| right; tauto]. intros ->. tauto.
Qed.

(** Whether an item of the query's result enters the view. *)
Local Abbreviation enters w a :=
  (negb (JsSet.has (currentlyVisibleElements (vb w)) (idOf w a))).

Lemma processAddition_step acc a :
  let w := fst (fst acc) in
  let w' := fst (fst (processAddition acc a)) in
  snd (processAddition acc a)
  = (if enters w a then snd acc ++ [a] else snd acc) /\
  snd (fst (processAddition acc a))
  = (if enters w a
     then Host.without (nodeOf w a) (snd (fst acc)) ++ [nodeOf w a]
     else snd (fst acc)) /\
  incl (Host.children (host w')) (Host.children (host w)) /\
  (forall r, VirtualElement.isVisible (objects w' r) = true ->
             VirtualElement.isVisible (objects w r) = true \/
             (enters w a = false /\
              JsMap.get (elements (vb w)) (idOf w a) = Some r)).
Proof.
  destruct acc as [[w fragment] added]. unfold processAddition. simpl.
  destruct (negb (JsSet.has _ _)); simpl.
  - repeat split; try reflexivity.
    + intros n Hn. unfold Host.without in Hn. apply filter_In in Hn. tauto.
    + auto.
  - repeat split; try reflexivity.
    + destruct (JsMap.get _ _) as [ve |]; [| apply incl_refl].
      destruct (negb _); apply incl_refl.
    + intros r. destruct (JsMap.get _ _) as [ve |]; [| auto].
      destruct (negb _); [| auto]. simpl.
      destruct (r =? ve)%nat eqn:E; [| auto].
      apply Nat.eqb_eq in E. subst r. auto.
Qed.

Lemma In_without n m l : In n (Host.without m l) <-> In n l /\ n <> m.
Proof.
  unfold Host.without. rewrite filter_In, negb_true_iff, Nat.eqb_neq. tauto.
Qed.

Lemma fold_processAddition_facts (w0 : World) (l : list ItemRef) :
  forall acc,
    sameItems w0 (fst (fst acc)) ->
    vb (fst (fst acc)) = vb w0 ->
    let acc' := fold_left processAddition l acc in
    sameItems w0 (fst (fst acc')) /\
    vb (fst (fst acc')) = vb w0 /\
    snd acc' = snd acc ++ filter (fun a => enters w0 a) l /\
    (forall n, In n (snd (fst acc')) <->
               In n (snd (fst acc)) \/
               exists a, In a (filter (fun a => enters w0 a) l) /\ n = nodeOf w0 a) /\
    incl (Host.children (host (fst (fst acc')))) (Host.children (host (fst (fst acc)))) /\
    (forall r, VirtualElement.isVisible (objects (fst (fst acc')) r) = true ->
               VirtualElement.isVisible (objects (fst (fst acc)) r) = true \/
               exists a, In a l /\ enters w0 a = false /\
                         JsMap.get (elements (vb w0)) (idOf w0 a) = Some r).
Proof.
  induction l as [| a l IH]; intros acc Hitems Hvb; cbv zeta; simpl.
  - rewrite app_nil_r. repeat split; try assumption.
    + auto.
    + intros [H | (a & [] & _)]. exact H.
    + apply incl_refl.
    + auto.
  - pose proof (processAddition_items acc a) as Hi.
    destruct (processAddition_frame acc a) as (_ & Hv).
    pose proof (processAddition_step acc a) as Hstep. cbv zeta in Hstep.
    destruct (sameItems_proj _ _ a Hitems) as (Hid & _ & Hnd).
    rewrite Hvb, Hid, !Hnd in Hstep.
    destruct Hstep as (Hadd & Hfr & Hch & Hvis).
    destruct (IH (processAddition acc a)) as (H1 & H2 & H3 & H4 & H5 & H6).
    { eapply sameItems_trans; eassumption. }
    { congruence. }
    split; [exact H1 |]. split; [exact H2 |]. split; [| split; [| split]].
    + rewrite H3, Hadd. cbn [filter]. destruct (enters w0 a); [| reflexivity].
      now rewrite <- app_assoc.
    + intros n. rewrite H4, Hfr. cbn [filter]. destruct (enters w0 a) eqn:He.
      * rewrite in_app_iff, In_without. simpl. split.
        -- intros [[[Hn _] | [Hn | []]] | (b & Hb & Hn)].
           ++ now left.
           ++ right. exists a. split; [now left | exact (eq_sym Hn)].
           ++ right. exists b. split; [now right | exact Hn].
        -- intros [Hn | (b & [Hb | Hb] & Hn)].
           ++ destruct (Nat.eq_dec n (nodeOf w0 a)) as [E | E].
              ** left. right. left. exact (eq_sym E).
              ** left. left. split; assumption.
           ++ subst b. left. right. left. exact (eq_sym Hn).
           ++ right. exists b. split; assumption.
      * reflexivity.
    + eapply incl_tran; eassumption.
    + intros r Hr. destruct (H6 r Hr) as [Hr' | (b & Hb & Hb')].
      * destruct (Hvis r Hr') as [Hr'' | [He Hg]]; [now left |].
        right. exists a. split; [now left | split; assumption].
      * right. exists b. split; [now right | exact Hb'].
Qed.

(** The last loop of [updateVisibleElements]: one turn. *)
Local Abbreviation markAdded :=
  (fun (w : World) (virtualElement : ItemRef) =>
     let w := updObject virtualElement (set_isVisible true) w in
     updVb (fun s => set_currentlyVisibleElements
              (JsSet.add (currentlyVisibleElements s) (idOf w virtualElement)) s) w).

Lemma fold_markAdded_facts (added : list ItemRef) :
  forall w,
    let w' := fold_left markAdded added w in
    sameItems w w' /\
    (forall k, In k (currentlyVisibleElements (vb w')) <->
               In k (currentlyVisibleElements (vb w)) \/ In k (map (idOf w) added)) /\
    (forall r, VirtualElement.isVisible (objects w' r)
               = if existsb (Nat.eqb r) added then true
                 else VirtualElement.isVisible (objects w r)).
Proof.
  induction added as [| a added IH]; intros w; cbv zeta; simpl.
  - repeat split; auto using sameItems_refl; tauto.
  - set (w1 := markAdded w a).
    assert (Hs : sameItems w w1).
    { intros r. unfold w1. simpl. destruct (r =? a)%nat; reflexivity. }
    destruct (IH w1) as (H1 & H2 & H3).
    split; [eapply sameItems_trans; eassumption |]. split.
    + intros k. rewrite H2. unfold w1 at 1. simpl.
      rewrite In_JsSet_add.
      assert (Hm : map (idOf w1) added = map (idOf w) added).
      { apply map_ext. intros r. apply (sameItems_proj _ _ r Hs). }
      rewrite Hm.
      assert (Hida : idOf (updObject a (set_isVisible true) w) a = idOf w a).
      { unfold idOf. simpl. rewrite Nat.eqb_refl. reflexivity. }
      rewrite Hida. intuition.
    + intros r. rewrite H3. unfold w1. simpl.
      destruct (r =? a)%nat eqn:E; simpl.
      * destruct (existsb (Nat.eqb r) added); reflexivity.
      * reflexivity.
Qed.

(** The three phases of [updateVisibleElements] put together. *)
Lemma updateVisibleElements_phases (w : World) :
  let viewportRect :=
    Rect.mk (virtualScrollLeft (vb w)) (virtualScrollTop (vb w))
            (Host.clientWidth (host w)) (Host.clientHeight (host w)) in
  let result := KDTree.queryRange (rectOf w) (kdTree (vb w)) viewportRect in
  let ids := map (idOf w) result in
  let w1 := fold_left (processRemoval ids) (currentlyVisibleElements (vb w)) w in
  let entering := filter (fun a => enters w1 a) result in
  exists w2 fragment w3,
    sameItems w w1 /\ sameItems w1 w2 /\
    vb w2 = vb w1 /\
    (forall n, In n fragment <-> exists a, In a entering /\ n = nodeOf w1 a) /\
    incl (Host.children (host w2)) (Host.children (host w1)) /\
    (forall r, VirtualElement.isVisible (objects w2 r) = true ->
               VirtualElement.isVisible (objects w1 r) = true \/
               exists a, In a result /\ enters w1 a = false /\
                         JsMap.get (elements (vb w1)) (idOf w1 a) = Some r) /\
    w3 = match fragment with
         | [] => w2
         | _ :: _ => updHost (Host.originalAppendFragment fragment) w2
         end /\
    updateVisibleElements w = fold_left markAdded entering w3.
Proof.
  intros viewportRect result ids w1 entering.
  destruct (fold_processRemoval_facts ids (currentlyVisibleElements (vb w)) w)
    as (Hitems & _).
  fold w1 in Hitems.
  destruct (fold_processAddition_facts w1 result (w1, [], []))
    as (H1 & H2 & H3 & H4 & H5 & H6); [apply sameItems_refl | reflexivity |].
  unfold updateVisibleElements.
  fold viewportRect. fold result. fold ids. fold w1.
  destruct (fold_left processAddition result (w1, [], [])) as [[w2 fragment] added].
  simpl in H1, H2, H3, H4, H5, H6.
  exists w2, fragment, (match fragment with
                        | [] => w2
                        | _ :: _ => updHost (Host.originalAppendFragment fragment) w2
                        end).
  split; [exact Hitems |]. split; [exact H1 |]. split; [exact H2 |].
  split; [| split; [exact H5 | split; [exact H6 | split; [reflexivity |]]]].
  - intros n. rewrite H4. simpl. fold entering. tauto.
  - rewrite H3. reflexivity.
Qed.

Lemma refresh_visible_set (w : World) :
  sameIds (currentlyVisibleElements (vb (updateVisibleElements w)))
          (map (idOf w) (inViewport w)).
Proof.
  unfold inViewport, viewportRect.
  destruct (updateVisibleElements_phases w)
    as (w2 & fragment & w3 & Hs1 & Hs2 & Hvb & _ & _ & _ & Hw3 & Hupd).
  set (result := KDTree.queryRange (rectOf w) (kdTree (vb w)) _) in *.
  set (ids := map (idOf w) result) in *.
  set (w1 := fold_left (processRemoval ids) (currentlyVisibleElements (vb w)) w) in *.
  rewrite Hupd.
  destruct (fold_markAdded_facts (filter (fun a => enters w1 a) result) w3)
    as (_ & Hcv & _).
  assert (Hvb3 : vb w3 = vb w1).
  { rewrite Hw3. destruct fragment; exact Hvb. }
  assert (Hid3 : forall r, idOf w3 r = idOf w r).
  { intros r. assert (Hs3 : sameItems w2 w3).
    { rewrite Hw3. destruct fragment; intros r'; reflexivity. }
    destruct (sameItems_proj _ _ r Hs1) as (E1 & _).
    destruct (sameItems_proj _ _ r Hs2) as (E2 & _).
    destruct (sameItems_proj _ _ r Hs3) as (E3 & _). congruence. }
  assert (Hid1 : forall r, idOf w1 r = idOf w r).
  { intros r. apply (sameItems_proj _ _ r Hs1). }
  intros k. rewrite Hcv, Hvb3. unfold w1 at 1.
  rewrite fold_processRemoval_visibleSet.
  rewrite in_map_iff. unfold ids at 1.
  split.
  - intros [[H1 [H2 | H2]] | (a & Ha & Hin)].
    + exact H2.
    + contradiction.
    + apply filter_In in Hin. destruct Hin as [Hin _].
      rewrite Hid3 in Ha. subst k. apply in_map, Hin.
  - intros Hk.
    destruct (in_dec string_dec k (currentlyVisibleElements (vb w1))) as [Hv | Hv].
    + left. unfold w1 in Hv. apply fold_processRemoval_visibleSet in Hv.
      destruct Hv as [Hv _]. split; [exact Hv | now left].
    + right. apply in_map_iff in Hk. destruct Hk as (a & Ha & Hin).
      exists a. split; [rewrite Hid3; exact Ha |].
      apply filter_In. split; [exact Hin |].
      apply negb_true_iff. rewrite Hid1, Ha.
      destruct (JsSet.has (currentlyVisibleElements (vb w1)) k) eqn:E; [| reflexivity].
      apply JsSet_has_In in E. contradiction.
Qed.

(** X18.  After a visibility refresh the visible-id set holds exactly
    the ids of the items the index reports for the viewport rectangle,
    whatever the set held before. *)
Theorem refresh_visible_set_is_query_result (w : World) :
  sameIds (currentlyVisibleElements (vb (updateVisibleElements w)))
          (map (idOf w) (inViewport w)).
Proof. apply refresh_visible_set. Qed.

(** X19.  An item that the index reports for the viewport and whose id
    is not in the visible-id set is, after the refresh, marked visible
    and its node is a child of the container. *)
Theorem refresh_attaches_entering_item (w : World) (item : ItemRef) :
  In item (inViewport w) ->
  JsSet.has (currentlyVisibleElements (vb w)) (idOf w item) = false ->
  VirtualElement.isVisible (objects (updateVisibleElements w) item) = true /\
  In (nodeOf w item) (Host.children (host (updateVisibleElements w))).
Proof.
  unfold inViewport, viewportRect. intros Hin Hnew.
  destruct (updateVisibleElements_phases w)
    as (w2 & fragment & w3 & Hs1 & Hs2 & Hvb & Hfr & _ & _ & Hw3 & Hupd).
  set (result := KDTree.queryRange (rectOf w) (kdTree (vb w)) _) in *.
  set (ids := map (idOf w) result) in *.
  set (w1 := fold_left (processRemoval ids) (currentlyVisibleElements (vb w)) w) in *.
  assert (Hent : In item (filter (fun a => enters w1 a) result)).
  { apply filter_In. split; [exact Hin |]. apply negb_true_iff.
    destruct (sameItems_proj _ _ item Hs1) as (E & _). rewrite E.
    destruct (JsSet.has (currentlyVisibleElements (vb w1)) (idOf w item)) eqn:Hv;
      [| reflexivity].
    apply JsSet_has_In in Hv. unfold w1 in Hv.
    apply fold_processRemoval_visibleSet in Hv. destruct Hv as [Hv _].
    apply JsSet_has_In in Hv. congruence. }
  rewrite Hupd.
  destruct (fold_markAdded_facts (filter (fun a => enters w1 a) result) w3)
    as (_ & _ & Hvis).
  split.
  - rewrite Hvis.
    assert (He : existsb (Nat.eqb item) (filter (fun a => enters w1 a) result) = true).
    { apply existsb_exists. exists item. split; [exact Hent | apply Nat.eqb_refl]. }
    rewrite He. reflexivity.
  - rewrite markAdded_host.
    assert (Hn : In (nodeOf w item) fragment).
    { apply Hfr. exists item. split; [exact Hent |].
      symmetry. apply (sameItems_proj _ _ item Hs1). }
    rewrite Hw3. destruct fragment as [| n0 fragment]; [contradiction |].
    simpl. apply in_or_app. right. exact Hn.
Qed.


(** The removals loop, seen from one tracked item [r] with node [n]:
    either [r] is still marked visible, or it is not and [n] is no
    child of the container; once [r]'s key has had its turn the second
    holds. *)
Lemma fold_processRemoval_detaches (ids : list string) (i : string) (r : ItemRef)
    (n : NodeRef) (l : list string) :
  JsSet.has ids i = false ->
  forall w,
    nodeOf w r = n ->
    JsMap.get (elements (vb w)) i = Some r ->
    let gone (w : World) :=
      VirtualElement.isVisible (objects w r) = false /\
      ~ In n (Host.children (host w)) in
    VirtualElement.isVisible (objects w r) = true \/ gone w ->
    let w' := fold_left (processRemoval ids) l w in
    (VirtualElement.isVisible (objects w' r) = true \/ gone w') /\
    (gone w \/ In i l -> gone w').
Proof.
  intros Hi. induction l as [| k l IH]; intros w Hn Hget gone Hinv; cbv zeta; simpl.
  - split; [exact Hinv |]. intros [H | []]. exact H.
  - destruct (processRemoval_frame ids w k) as (_ & Hlay & _).
    destruct (vbLayout_inv _ _ Hlay) as (_ & Hel & _).
    pose proof (processRemoval_items ids w k) as Hit.
    destruct (sameItems_proj _ _ r Hit) as (_ & _ & Hnd).
    assert (Hstep : (VirtualElement.isVisible (objects (processRemoval ids w k) r) = true
                     \/ gone (processRemoval ids w k)) /\
                    (gone w \/ k = i -> gone (processRemoval ids w k))).
    { unfold processRemoval.
      destruct (JsSet.has ids k) eqn:Hk; simpl.
      - split; [exact Hinv |]. intros [H | ->]; [exact H | congruence].
      - destruct (JsMap.get (elements (vb w)) k) as [ve |] eqn:Hg; simpl.
        + destruct (VirtualElement.isVisible (objects w ve)) eqn:Hv; simpl.
          * destruct (Nat.eq_dec r ve) as [-> | Hne].
            -- assert (Hgone : gone (updVb
                  (fun s => set_currentlyVisibleElements
                     (JsSet.delete (currentlyVisibleElements s) k) s)
                  (updObject ve (set_isVisible false)
                     (updHost (Host.originalRemoveChild
                                 (VirtualElement.element (objects w ve))) w)))).
               { unfold gone. simpl. rewrite Nat.eqb_refl. split; [reflexivity |].
                 unfold nodeOf in Hn. rewrite Hn. rewrite In_without. tauto. }
               split; [right; exact Hgone | intros _; exact Hgone].
            -- apply Nat.eqb_neq in Hne.
               assert (Hkeep : forall b,
                          VirtualElement.isVisible (objects w r) = b ->
                          VirtualElement.isVisible
                            (objects (updVb
                               (fun s => set_currentlyVisibleElements
                                  (JsSet.delete (currentlyVisibleElements s) k) s)
                               (updObject ve (set_isVisible false)
                                  (updHost (Host.originalRemoveChild
                                              (VirtualElement.element (objects w ve))) w)))
                               r) = b).
               { intros b Hb. simpl. rewrite Hne. exact Hb. }
               split.
               ++ destruct Hinv as [Hq | [Hp1 Hp2]]; [left; now apply Hkeep |].
                  right. split; [now apply Hkeep |]. simpl. rewrite In_without. tauto.
               ++ intros [[Hp1 Hp2] | ->].
                  ** split; [now apply Hkeep |]. simpl. rewrite In_without. tauto.
                  ** rewrite Hget in Hg. injection Hg as <-.
                     apply Nat.eqb_neq in Hne. congruence.
          * split; [exact Hinv |]. intros [H | ->]; [exact H |].
            rewrite Hget in Hg. injection Hg as <-.
            destruct Hinv as [Hq | Hp]; [congruence | exact Hp].
        + split; [exact Hinv |]. intros [H | ->]; [exact H | congruence]. }
    destruct Hstep as [Hs1 Hs2].
    destruct (IH (processRemoval ids w k)) as [H1 H2].
    + unfold nodeOf in *. congruence.
    + congruence.
    + exact Hs1.
    + split; [exact H1 |]. intros [Hg | [-> | Hin]].
      * apply H2. left. apply Hs2. now left.
      * apply H2. left. apply Hs2. now right.
      * apply H2. now right.
Qed.

(** X20.  An item that is marked visible, whose id is in the
    visible-id set and that the index does not report for the viewport
    is, after the refresh, not marked visible, its id is out of the
    set, and its node is no child of the container, as long as every
    item is filed under its own id and no reported item shares its
    node. *)
Theorem refresh_detaches_leaving_item (w : World) (i : string) (r : ItemRef) :
  filedUnderOwnId w ->
  JsMap.get (elements (vb w)) i = Some r ->
  In i (currentlyVisibleElements (vb w)) ->
  VirtualElement.isVisible (objects w r) = true ->
  ~ In i (map (idOf w) (inViewport w)) ->
  (forall a, In a (inViewport w) -> nodeOf w a <> nodeOf w r) ->
  let w' := updateVisibleElements w in
  VirtualElement.isVisible (objects w' r) = false /\
  ~ In i (currentlyVisibleElements (vb w')) /\
  ~ In (nodeOf w r) (Host.children (host w')).
Proof.
  intros Hfiled Hget Hin Hvis Hout Hnodes w'. unfold inViewport, viewportRect in Hout, Hnodes.
  destruct (updateVisibleElements_phases w)
    as (w2 & fragment & w3 & Hs1 & Hs2 & Hvb & Hfr & Hch & Hv2 & Hw3 & Hupd).
  set (result := KDTree.queryRange (rectOf w) (kdTree (vb w)) _) in *.
  set (ids := map (idOf w) result) in *.
  set (w1 := fold_left (processRemoval ids) (currentlyVisibleElements (vb w)) w) in *.
  assert (Hhas : JsSet.has ids i = false).
  { destruct (JsSet.has ids i) eqn:E; [| reflexivity].
    apply JsSet_has_In in E. contradiction. }
  destruct (fold_processRemoval_detaches ids i r (nodeOf w r)
              (currentlyVisibleElements (vb w)) Hhas w eq_refl Hget (or_introl Hvis))
    as [_ Hgone].
  fold w1 in Hgone. destruct (Hgone (or_intror Hin)) as [Hinv1 Hnot1].
  destruct (fold_processRemoval_facts ids (currentlyVisibleElements (vb w)) w)
    as (_ & _ & Hlay & _).
  fold w1 in Hlay. destruct (vbLayout_inv _ _ Hlay) as (_ & Hel & _).
  assert (Hid1 : forall a, idOf w1 a = idOf w a).
  { intros a. apply (sameItems_proj _ _ a Hs1). }
  assert (Hnd1 : forall a, nodeOf w1 a = nodeOf w a).
  { intros a. apply (sameItems_proj _ _ a Hs1). }
  assert (Hidr : idOf w r = i) by (apply Hfiled, Hget).
  assert (Hnotres : ~ In r result).
  { intros H. apply Hout. rewrite <- Hidr. apply in_map, H. }
  assert (Hinv2 : VirtualElement.isVisible (objects w2 r) = false).
  { destruct (VirtualElement.isVisible (objects w2 r)) eqn:E; [| reflexivity].
    destruct (Hv2 r E) as [H | (a & Ha & _ & Hg)]; [congruence |].
    exfalso. apply Hout. rewrite Hel, Hid1 in Hg.
    rewrite <- (Hfiled _ _ Hget), (Hfiled _ _ Hg). apply in_map, Ha. }
  assert (Hnofr : ~ In (nodeOf w r) fragment).
  { intros H. apply Hfr in H. destruct H as (a & Ha & Hn).
    apply filter_In in Ha. destruct Ha as [Ha _].
    rewrite Hnd1 in Hn. apply (Hnodes a Ha). now symmetry. }
  assert (H3 : VirtualElement.isVisible (objects w3 r) = false /\
               ~ In (nodeOf w r) (Host.children (host w3))).
  { rewrite Hw3. destruct fragment as [| n0 fragment].
    - split; [exact Hinv2 |]. intros H. apply Hnot1, Hch, H.
    - split; [exact Hinv2 |]. simpl. rewrite in_app_iff.
      intros [H | H]; [apply Hnot1, Hch, H | apply Hnofr, H]. }
  destruct H3 as [H3a H3b].
  split; [| split].
  - unfold w'. rewrite Hupd.
    destruct (fold_markAdded_facts (filter (fun a => enters w1 a) result) w3)
      as (_ & _ & Hmark).
    rewrite Hmark.
    destruct (existsb (Nat.eqb r) (filter (fun a => enters w1 a) result)) eqn:E;
      [| exact H3a].
    apply existsb_exists in E. destruct E as (x & Hx & Hxr).
    apply Nat.eqb_eq in Hxr. subst x. apply filter_In in Hx. tauto.
  - intros H. apply Hout.
    pose proof (refresh_visible_set w) as Hset. apply Hset, H.
  - unfold w'. rewrite Hupd, markAdded_host. exact H3b.
Qed.

End Refresh.

(** ** Adding and removing elements *)

Section Adding.
Import Virtualboy.

Lemma JsMap_get_set_same {V : Type} (m : list (string * V)) k v :
  JsMap.get (JsMap.set m k v) k = Some v.
Proof.
  induction m as [| [k' v'] m IH]; simpl.
  - now rewrite String.eqb_refl.
  - destruct (String.eqb k' k) eqn:E; simpl.
    + now rewrite String.eqb_refl.
    + now rewrite E.
Qed.

Lemma JsMap_get_set_other {V : Type} (m : list (string * V)) k k0 v :
  k0 <> k -> JsMap.get (JsMap.set m k v) k0 = JsMap.get m k0.
Proof.
  intros Hne. induction m as [| [k' v'] m IH]; simpl.
  - apply String.eqb_neq in Hne. rewrite String.eqb_sym in Hne. now rewrite Hne.
  - destruct (String.eqb k' k) eqn:E; simpl.
    + apply String.eqb_eq in E. subst k'.
      assert (Hk : String.eqb k k0 = false) by (apply String.eqb_neq; congruence).
      now rewrite Hk.
    + destruct (String.eqb k' k0); [reflexivity | exact IH].
Qed.

Lemma Style_restored (s t : Style.t) :
  Style.zIndex t = Style.zIndex s -> Style.width t = Style.width s ->
  Style.height t = Style.height s ->
  Style.set_top (Style.top s)
    (Style.set_left (Style.left s)
       (Style.set_display (Style.display s)
          (Style.set_visibility (Style.visibility s)
             (Style.set_position (Style.position s) t)))) = s.
Proof. destruct s, t. simpl. intros -> -> ->. reflexivity. Qed.


Lemma without_append_same (n : NodeRef) (l : list NodeRef) :
  Host.without n (Host.without n l ++ [n]) = Host.without n l.
Proof.
  unfold Host.without. rewrite filter_app. simpl. rewrite Nat.eqb_refl. simpl.
  rewrite app_nil_r. induction l as [| m l IH]; simpl; [reflexivity |].
  destruct (m =? n)%nat eqn:E; simpl; [exact IH |]. rewrite E. simpl. now rewrite IH.
Qed.

Lemma without_idem (n : NodeRef) (l : list NodeRef) :
  Host.without n (Host.without n l) = Host.without n l.
Proof.
  unfold Host.without. induction l as [| m l IH]; simpl; [reflexivity |].
  destruct (m =? n)%nat eqn:E; simpl; [exact IH |]. rewrite E. simpl. now rewrite IH.
Qed.

Lemma updateSizer_nodes (w : World) (m : NodeRef) :
  Host.nodes (host (updateSizer w)) m
  = match sizerElement (vb w) with
    | Some sizer =>
        if (m =? sizer)%nat
        then HTMLElement.set_style
               (Style.set_width
                  (CssPx (Scroll.sizerSize Scroll.MAX_SCROLL_WIDTH (totalVirtualWidth (vb w))))
                  (Style.set_height
                     (CssPx (Scroll.sizerSize Scroll.MAX_SCROLL_HEIGHT
                               (totalVirtualHeight (vb w))))
                     (HTMLElement.style (Host.nodes (host w) m))))
               (Host.nodes (host w) m)
        else Host.nodes (host w) m
    | None => Host.nodes (host w) m
    end.
Proof.
  unfold updateSizer. destruct (sizerElement (vb w)) as [sizer |]; [| reflexivity].
  simpl. destruct (m =? sizer)%nat; reflexivity.
Qed.

Lemma updateSizer_node_id (w : World) (m : NodeRef) :
  HTMLElement.id (Host.nodes (host (updateSizer w)) m)
  = HTMLElement.id (Host.nodes (host w) m).
Proof.
  rewrite updateSizer_nodes. destruct (sizerElement (vb w)); [| reflexivity].
  destruct (m =? n)%nat; reflexivity.
Qed.

Lemma handleElementAdded_new (element : NodeRef) (refChild : option NodeRef)
    (isInitialDiscovery : bool) (w : World) :
  untracked w element ->
  let el := Host.nodes (host w) element in
  let dims := measured w element in
  let newId := idWhenAdded w element in
  let item := nextObject w in
  let w' := handleElementAdded element refChild isInitialDiscovery w in
  totalVirtualHeight (vb w') = totalVirtualHeight (vb w) + Dimensions.height dims /\
  totalVirtualWidth (vb w')
  = Math_max (totalVirtualWidth (vb w)) (Dimensions.width dims) /\
  elements (vb w') = JsMap.set (elements (vb w)) newId item /\
  kdTree (vb w') = KDTree.insert (rectOf w') (kdTree (vb w)) item /\
  objects w' = (fun r => if (r =? item)%nat
                         then VirtualElement.mk newId element
                                (Rect.mk 0 (totalVirtualHeight (vb w))
                                   (Dimensions.width dims) (Dimensions.height dims))
                                false (Style.display (HTMLElement.style el))
                         else objects w r) /\
  nextObject w' = S item /\
  nextElementId (vb w')
  = (if truthy (HTMLElement.id el) then nextElementId (vb w)
     else S (nextElementId (vb w))) /\
  HTMLElement.id (Host.nodes (host w') element) = newId /\
  Host.children (host w') = Host.without element (Host.children (host w)) /\
  (sizerElement (vb w) <> Some element ->
   HTMLElement.style (Host.nodes (host w') element) = HTMLElement.style el) /\
  (forall sizer, sizerElement (vb w) = Some sizer ->
     Style.height (HTMLElement.style (Host.nodes (host w') sizer))
     = CssPx (Scroll.sizerSize Scroll.MAX_SCROLL_HEIGHT (totalVirtualHeight (vb w'))) /\
     Style.width (HTMLElement.style (Host.nodes (host w') sizer))
     = CssPx (Scroll.sizerSize Scroll.MAX_SCROLL_WIDTH (totalVirtualWidth (vb w')))).
Proof.
  unfold untracked, idWhenAdded, measured, measurementStyle. cbv zeta. intros Hnew.
  unfold handleElementAdded. rewrite Hnew. cbv zeta.
  destruct isInitialDiscovery.
  all: rewrite updateSizer_node_id.
  all: cbn -[updateSizer generateId Math_max Scroll.sizerSize KDTree.insert JsMap.set
             Host.without Qplus String.append NilEmpty.string_of_uint];
    rewrite ?Nat.eqb_refl;
    cbn -[updateSizer generateId Math_max Scroll.sizerSize KDTree.insert JsMap.set
          Host.without Qplus String.append NilEmpty.string_of_uint].
  all: match goal with |- context [updateSizer ?x] => set (w6 := x) end.
  all: assert (H6 : vb w6 = set_totalVirtualWidth
                         (Math_max (totalVirtualWidth (vb w))
                                   (Dimensions.width (measured w element)))
                         (set_totalVirtualHeight
                            (totalVirtualHeight (vb w)
                             + Dimensions.height (measured w element)) (vb w)) /\
               objects w6 = objects w /\ nextObject w6 = nextObject w /\
               Host.children (host w6) = Host.without element (Host.children (host w)) /\
               (forall m, Host.nodes (host w6) m
                          = if (m =? element)%nat
                            then HTMLElement.set_style
                                   (Style.set_top (Style.top (HTMLElement.style (Host.nodes (host w) element)))
                                     (Style.set_left (Style.left (HTMLElement.style (Host.nodes (host w) element)))
                                       (Style.set_display (Style.display (HTMLElement.style (Host.nodes (host w) element)))
                                         (Style.set_visibility (Style.visibility (HTMLElement.style (Host.nodes (host w) element)))
                                           (Style.set_position (Style.position (HTMLElement.style (Host.nodes (host w) element)))
                                              (measurementStyle (HTMLElement.style (Host.nodes (host w) element))))))))
                                   (Host.nodes (host w) element)
                            else Host.nodes (host w) m));
    [ unfold w6, measured, measurementStyle; simpl;
      split; [reflexivity |]; split; [reflexivity |]; split; [reflexivity |];
      split; [first [reflexivity | apply without_append_same] |];
      intros m; destruct (Nat.eqb_spec m element) as [-> | Hne]; [| reflexivity];
      unfold HTMLElement.set_style; simpl; reflexivity | ].
  all: destruct H6 as (H6v & H6o & H6n & H6c & H6nodes).
  all: destruct (updateSizer_frame w6) as (_ & Hsv & Hso & Hsn & Hsc & _).
  all: pose proof (updateSizer_nodes w6) as Hsnodes.
  all: set (w7 := updateSizer w6) in *; clearbody w7.
  all: rewrite H6v in Hsv; rewrite H6o in Hso; rewrite H6n in Hsn; rewrite H6c in Hsc.
  all: assert (Hsz : sizerElement (vb w6) = sizerElement (vb w)) by (rewrite H6v; reflexivity).
  all: assert (Htw : totalVirtualWidth (vb w6)
                     = Math_max (totalVirtualWidth (vb w))
                                (Dimensions.width (measured w element)))
         by (rewrite H6v; reflexivity).
  all: assert (Hth : totalVirtualHeight (vb w6)
                     = totalVirtualHeight (vb w) + Dimensions.height (measured w element))
         by (rewrite H6v; reflexivity).
  all: rewrite Hsz, Htw, Hth in Hsnodes.
  all: clearbody w6.
  all: assert (F_node : forall m,
                 HTMLElement.id (Host.nodes (host w7) m)
                 = HTMLElement.id (Host.nodes (host w) m) /\
                 Style.display (HTMLElement.style (Host.nodes (host w7) m))
                 = Style.display (HTMLElement.style (Host.nodes (host w) m)) /\
                 (sizerElement (vb w) <> Some m ->
                  HTMLElement.style (Host.nodes (host w7) m)
                  = HTMLElement.style (Host.nodes (host w) m)) /\
                 (sizerElement (vb w) = Some m ->
                  Style.height (HTMLElement.style (Host.nodes (host w7) m))
                  = CssPx (Scroll.sizerSize Scroll.MAX_SCROLL_HEIGHT
                             (totalVirtualHeight (vb w)
                              + Dimensions.height (measured w element))) /\
                  Style.width (HTMLElement.style (Host.nodes (host w7) m))
                  = CssPx (Scroll.sizerSize Scroll.MAX_SCROLL_WIDTH
                             (Math_max (totalVirtualWidth (vb w))
                                       (Dimensions.width (measured w element)))))).
  1, 3: intros m; rewrite Hsnodes, !H6nodes;
    destruct (sizerElement (vb w)) as [sizer |];
    [ destruct (Nat.eqb_spec m sizer) as [E1 | E1] | ];
    (destruct (Nat.eqb_spec m element) as [E2 | E2]);
    subst;
    (split; [reflexivity |]); (split; [reflexivity |]);
    (split;
     [ intros Hne;
       try (exfalso; apply Hne; reflexivity);
       try (destruct (HTMLElement.style (Host.nodes (host w) element)); reflexivity);
       reflexivity
     | intros He; try discriminate He;
       try (injection He as He; subst; exfalso; apply E1; reflexivity);
       split; reflexivity ]).
  all: destruct (truthy (HTMLElement.id (Host.nodes (host w) element))) eqn:Ht.
  all: unfold generateId;
       cbn -[Math_max Scroll.sizerSize KDTree.insert JsMap.set Host.without Qplus String.append NilEmpty.string_of_uint];
       rewrite ?Hsv, ?Hso, ?Hsn, ?Hsc, ?Nat.eqb_refl;
       cbn -[Math_max Scroll.sizerSize KDTree.insert JsMap.set Host.without Qplus String.append NilEmpty.string_of_uint].
  all: rewrite ?(proj1 (proj2 (F_node element))).
  all: repeat match goal with |- _ /\ _ => split end; try reflexivity.
  all: try (apply (F_node element)).
  all: intros sizer0 Hs0; try destruct (sizer0 =? element)%nat; simpl;
    apply (F_node sizer0); exact Hs0.
Qed.

(** X21.  Adding an element that is not tracked yet files a new item
    under the element's id, or under a generated id when it has none:
    the item is not visible, its rectangle starts at x = 0 and at the
    former total height and has the measured size, the total height
    grows by the measured height and the total width becomes the
    larger of itself and the measured width.  The index gains exactly
    this item and no other entry or item changes. *)
Theorem add_stacks_new_item_below (element : NodeRef) (refChild : option NodeRef)
    (isInitialDiscovery : bool) (w : World) :
  untracked w element ->
  let dims := measured w element in
  let newId := idWhenAdded w element in
  let item := nextObject w in
  let w' := handleElementAdded element refChild isInitialDiscovery w in
  totalVirtualHeight (vb w') = totalVirtualHeight (vb w) + Dimensions.height dims /\
  totalVirtualWidth (vb w')
  = Math_max (totalVirtualWidth (vb w)) (Dimensions.width dims) /\
  JsMap.get (elements (vb w')) newId = Some item /\
  (forall k, k <> newId ->
             JsMap.get (elements (vb w')) k = JsMap.get (elements (vb w)) k) /\
  objects w' item
  = VirtualElement.mk newId element
      (Rect.mk 0 (totalVirtualHeight (vb w))
               (Dimensions.width dims) (Dimensions.height dims))
      false (Style.display (HTMLElement.style (Host.nodes (host w) element))) /\
  (forall r, r <> item -> objects w' r = objects w r) /\
  Permutation (KDTree.elements (kdTree (vb w')))
              (item :: KDTree.elements (kdTree (vb w))).
Proof.
  intros Hnew dims newId item w'.
  destruct (handleElementAdded_new element refChild isInitialDiscovery w Hnew)
    as (Hh & Hw & Hel & Hkd & Hobj & _).
  fold dims newId item w' in Hh, Hw, Hel, Hkd, Hobj.
  split; [exact Hh |]. split; [exact Hw |].
  split; [rewrite Hel; apply JsMap_get_set_same |].
  split; [intros k Hk; rewrite Hel; now apply JsMap_get_set_other |].
  split; [rewrite Hobj; now rewrite Nat.eqb_refl |].
  split.
  - intros r Hr. rewrite Hobj. apply Nat.eqb_neq in Hr. now rewrite Hr.
  - rewrite Hkd. apply elements_insertNode.
Qed.


End Adding.

Section Removing.
Import Virtualboy.

(** The extents [handleElementRemoved] folds over what remains. *)
Local Abbreviation extentStep w :=
  (fun (acc : Q * Q) (ve : ItemRef) =>
     let rc := rectOf w ve in
     (Math_max (fst acc) (Rect.y rc + Rect.height rc),
      Math_max (snd acc) (Rect.x rc + Rect.width rc))).

Lemma handleElementRemoved_tracked (element : NodeRef) (w : World) (item : ItemRef) :
  let id := HTMLElement.id (Host.nodes (host w) element) in
  truthy id = true ->
  JsMap.get (elements (vb w)) id = Some item ->
  let w' := handleElementRemoved element w in
  let extents := fold_left (extentStep w) (JsMap.values (JsMap.delete (elements (vb w)) id))
                           (0, 0) in
  elements (vb w') = JsMap.delete (elements (vb w)) id /\
  kdTree (vb w') = KDTree.remove (rectOf w) (idOf w) (kdTree (vb w)) item /\
  totalVirtualHeight (vb w') = fst extents /\
  totalVirtualWidth (vb w') = snd extents /\
  sameItems w w' /\
  (VirtualElement.isVisible (objects w item) = true ->
   VirtualElement.isVisible (objects w' item) = false /\
   currentlyVisibleElements (vb w') = JsSet.delete (currentlyVisibleElements (vb w)) id /\
   Host.children (host w') = Host.without element (Host.children (host w))) /\
  (VirtualElement.isVisible (objects w item) = false ->
   objects w' = objects w /\
   currentlyVisibleElements (vb w') = currentlyVisibleElements (vb w) /\
   Host.children (host w') = Host.children (host w)).
Proof.
  intros id Ht Hget w' extents. unfold w', handleElementRemoved. fold id.
  assert (Hhas : JsMap.has (elements (vb w)) id = true)
    by (unfold JsMap.has; now rewrite Hget).
  rewrite Ht, Hhas, Hget. cbv zeta.
  cbn -[updateSizer Math_max KDTree.remove JsMap.delete JsMap.values fold_left].
  change (fold_left _ (JsMap.values (JsMap.delete (elements (vb w)) id)) (0, 0))
    with extents.
  destruct extents as [newTotalHeight newTotalWidth].
  match goal with |- context [updateSizer ?x] => set (w6 := x) end.
  destruct (updateSizer_frame w6) as (_ & Hsv & Hso & _ & Hsc & _).
  set (w7 := updateSizer w6) in *. clearbody w7.
  unfold w6 in Hsv, Hso, Hsc. simpl in Hsv, Hso, Hsc. clear w6.
  rewrite Hso.
  destruct (VirtualElement.isVisible (objects w item)) eqn:Hv;
    cbn -[Math_max KDTree.remove JsMap.delete Host.without JsSet.delete];
    rewrite ?Hsv, ?Hso, ?Hsc;
    cbn -[Math_max KDTree.remove JsMap.delete Host.without JsSet.delete].
  - split; [reflexivity |]. split; [reflexivity |]. split; [reflexivity |].
    split; [reflexivity |]. split; [| split; [| discriminate]].
    + intros r. simpl. rewrite ?Hso. destruct (r =? item)%nat; reflexivity.
    + intros _. simpl. rewrite ?Nat.eqb_refl, ?Hsc, ?Hso. repeat split; reflexivity.
  - split; [reflexivity |]. split; [reflexivity |]. split; [reflexivity |].
    split; [reflexivity |]. split; [| split; [discriminate |]].
    + intros r. rewrite ?Hso. reflexivity.
    + intros _. rewrite ?Hso, ?Hsc. repeat split; reflexivity.
Qed.

Lemma fold_extent_bounds (w : World) (l : list ItemRef) :
  forall acc,
    let acc' := fold_left (extentStep w) l acc in
    fst acc <= fst acc' /\ snd acc <= snd acc' /\
    Forall (fun r => Rect.y (rectOf w r) + Rect.height (rectOf w r) <= fst acc' /\
                     Rect.x (rectOf w r) + Rect.width (rectOf w r) <= snd acc') l /\
    (fst acc' = fst acc \/
     exists r, In r l /\ fst acc' = Rect.y (rectOf w r) + Rect.height (rectOf w r)) /\
    (snd acc' = snd acc \/
     exists r, In r l /\ snd acc' = Rect.x (rectOf w r) + Rect.width (rectOf w r)).
Proof.
  induction l as [| a l IH]; intros acc; cbv zeta.
  - simpl. repeat split; try apply Qle_refl; auto.
  - cbn [fold_left].
    set (acc1 := (Math_max (fst acc) (Rect.y (rectOf w a) + Rect.height (rectOf w a)),
                  Math_max (snd acc) (Rect.x (rectOf w a) + Rect.width (rectOf w a)))).
    destruct (IH acc1) as (H1 & H2 & H3 & H4 & H5).
    set (acc' := fold_left (extentStep w) l acc1) in *.
    assert (Ha1 : fst acc <= fst acc1 /\
                  Rect.y (rectOf w a) + Rect.height (rectOf w a) <= fst acc1).
    { unfold acc1. simpl. rewrite Math_max_Qmax.
      split; [apply Q.le_max_l | apply Q.le_max_r]. }
    assert (Ha2 : snd acc <= snd acc1 /\
                  Rect.x (rectOf w a) + Rect.width (rectOf w a) <= snd acc1).
    { unfold acc1. simpl. rewrite Math_max_Qmax.
      split; [apply Q.le_max_l | apply Q.le_max_r]. }
    destruct Ha1 as [Ha1 Ha1']. destruct Ha2 as [Ha2 Ha2'].
    split; [eapply Qle_trans; eassumption |].
    split; [eapply Qle_trans; eassumption |].
    split; [| split].
    + constructor; [| exact H3].
      split; eapply Qle_trans; eassumption.
    + destruct H4 as [H4 | (r & Hr & H4)].
      * rewrite H4. unfold acc1. simpl. unfold Math_max.
        destruct (Qltb _ _); [right; exists a; split; [now left | reflexivity] | now left].
      * right. exists r. split; [now right | exact H4].
    + destruct H5 as [H5 | (r & Hr & H5)].
      * rewrite H5. unfold acc1. simpl. unfold Math_max.
        destruct (Qltb _ _); [right; exists a; split; [now left | reflexivity] | now left].
      * right. exists r. split; [now right | exact H5].
Qed.



Lemma JsMap_get_In {V : Type} (m : list (string * V)) k v :
  JsMap.get m k = Some v -> In v (JsMap.values m).
Proof.
  unfold JsMap.values. induction m as [| [k' v'] m IH]; simpl; [discriminate |].
  destruct (String.eqb k' k); [intros [= ->]; now left | intros H; right; auto].
Qed.


(** X24.  After [removeChild] on a tracked element the totals are the
    largest extents of what remains: no remaining item reaches beyond
    the total height or the total width, each total is 0 or the far
    edge of a remaining item, and both are 0 when nothing remains. *)
Theorem remove_recomputes_totals (element : NodeRef) (w : World) (item : ItemRef) :
  let id := HTMLElement.id (Host.nodes (host w) element) in
  truthy id = true ->
  JsMap.get (elements (vb w)) id = Some item ->
  let w' := handleElementRemoved element w in
  let remaining := JsMap.values (elements (vb w')) in
  Forall (fun r =>
            Rect.y (rectOf w' r) + Rect.height (rectOf w' r) <= totalVirtualHeight (vb w') /\
            Rect.x (rectOf w' r) + Rect.width (rectOf w' r) <= totalVirtualWidth (vb w'))
         remaining /\
  (totalVirtualHeight (vb w') = 0 \/
   exists r, In r remaining /\
             totalVirtualHeight (vb w') = Rect.y (rectOf w' r) + Rect.height (rectOf w' r)) /\
  (totalVirtualWidth (vb w') = 0 \/
   exists r, In r remaining /\
             totalVirtualWidth (vb w') = Rect.x (rectOf w' r) + Rect.width (rectOf w' r)) /\
  (remaining = [] -> totalVirtualHeight (vb w') = 0 /\ totalVirtualWidth (vb w') = 0).
Proof.
  intros id Ht Hget w' remaining.
  destruct (handleElementRemoved_tracked element w item Ht Hget)
    as (Hel & _ & Hth & Htw & Hsame & _).
  fold id w' in Hel, Hth, Htw, Hsame.
  assert (Hrc : forall r, rectOf w' r = rectOf w r).
  { intros r. apply (sameItems_proj _ _ r Hsame). }
  unfold remaining. rewrite Hel, Hth, Htw.
  destruct (fold_extent_bounds w (JsMap.values (JsMap.delete (elements (vb w)) id)) (0, 0))
    as (_ & _ & H3 & H4 & H5).
  split; [| split; [| split]].
  - eapply Forall_impl; [| exact H3]. intros r Hr. simpl in Hr. rewrite !Hrc. exact Hr.
  - destruct H4 as [H4 | (r & Hr & H4)]; [now left |].
    right. exists r. rewrite Hrc. split; assumption.
  - destruct H5 as [H5 | (r & Hr & H5)]; [now left |].
    right. exists r. rewrite Hrc. split; assumption.
  - intros Hnil. rewrite Hnil. simpl. split; reflexivity.
Qed.

End Removing.

(** ** Adding only: the index stays a stack *)

Section Stacking.
Import Virtualboy.













End Stacking.

(** ** Destroying the manager *)

Section Destroying.
Import Virtualboy.

Lemma remeasure_stylePosition (w : World) :
  Host.stylePosition (host (remeasure w)) = Host.stylePosition (host w).
Proof.
  unfold remeasure.
  destruct (fold_detachVisible_frame (currentlyVisibleElements (vb w)) w)
    as ((Hd1 & _) & _ & _).
  set (w1 := fold_left detachVisible _ w) in *.
  apply hostStatic_inv in Hd1. destruct Hd1 as (_ & _ & _ & _ & Hp1 & _).
  set (w3 := updVb (set_kdTree KDTree.Null) (updVb (set_currentlyVisibleElements []) w1)).
  assert (H3 : Host.stylePosition (host w3) = Host.stylePosition (host w)) by exact Hp1.
  clearbody w3. clear w1 Hp1.
  set (init := (w3, 0, Host.clientWidth (host w3))).
  assert (H4 : Host.stylePosition
                 (host (fst (fst (fold_left remeasureItem
                                    (JsMap.values (elements (vb w3))) init))))
               = Host.stylePosition (host w)).
  { apply (fold_left_invariant remeasureItem
             (fun acc => Host.stylePosition (host (fst (fst acc)))
                         = Host.stylePosition (host w))).
    - exact H3.
    - intros a b Ha. rewrite (proj1 (remeasureItem_frame a b)). exact Ha. }
  destruct (fold_left remeasureItem _ init) as [[w4 newH] newW]. simpl in H4.
  clear init H3.
  set (w4' := updVb (set_totalVirtualWidth newW) (updVb (set_totalVirtualHeight newH) w4)).
  destruct (updateSizer_frame w4') as ((Hs1 & _) & _).
  apply hostStatic_inv in Hs1. destruct Hs1 as (_ & _ & _ & _ & Hp5 & _).
  set (w5 := updateSizer w4') in *.
  match goal with
  | |- context [updateVisibleElements ?w0] =>
      destruct (updateVisibleElements_frame w0) as ((Hu1 & _) & _)
  end.
  apply hostStatic_inv in Hu1. destruct Hu1 as (_ & _ & _ & _ & Hp9 & _).
  rewrite Hp9. simpl. rewrite Hp5. exact H4.
Qed.

(** The container's inline [position] as it was before the manager
    was constructed is either what the manager saved, or still in
    place. *)
Local Abbreviation positionKept p0 w :=
  (originalParentPosition (vb w) = Some p0 \/
   (originalParentPosition (vb w) = None /\ Host.stylePosition (host w) = p0)).

Lemma Unchanged_positionKept (p0 : string) (w w' : World) :
  Unchanged w w' -> positionKept p0 w -> positionKept p0 w'.
Proof.
  intros [H1 H2] Hk. apply hostStatic_inv in H1. apply vbStatic_inv in H2.
  destruct H1 as (_ & _ & _ & _ & Hp & _). destruct H2 as (_ & Ho & _).
  rewrite Ho, Hp. exact Hk.
Qed.

Lemma destroy_position (w : World) :
  originalParentPosition (vb (destroy w)) = originalParentPosition (vb w) /\
  Host.stylePosition (host (destroy w))
  = match originalParentPosition (vb w) with
    | Some p => p
    | None => Host.stylePosition (host w)
    end.
Proof.
  unfold destroy.
  match goal with
  | |- context [fold_left detachVisible ?l ?w0] =>
      destruct (fold_detachVisible_frame l w0) as ((Hd1 & _) & Hd3 & _);
      set (w1 := fold_left detachVisible l w0) in *
  end.
  apply hostStatic_inv in Hd1. destruct Hd1 as (_ & _ & _ & _ & Hp & _).
  simpl in Hp, Hd3.
  assert (Ho : originalParentPosition (vb w1) = originalParentPosition (vb w))
    by (rewrite Hd3; reflexivity).
  clearbody w1. cbv zeta.
  destruct (sizerElement (vb w1)) as [sizer |] eqn:Hsz; simpl; rewrite ?Hsz; simpl;
    [destruct (existsb (Nat.eqb sizer) (Host.children (host w1))) |];
    simpl; rewrite ?Ho;
    destruct (originalParentPosition (vb w)) eqn:E; simpl; rewrite ?Ho, ?E; split;
    first [reflexivity | exact Hp].
Qed.

Lemma step_positionKept (p0 : string) (w : World) (e : Event) :
  positionKept p0 w -> positionKept p0 (step w e).
Proof.
  intros Hk. destruct e; cbn [step].
  - destruct (_ && _); [| exact Hk].
    eapply Unchanged_positionKept; [apply handleElementAdded_frame | exact Hk].
  - destruct (_ && _).
    + eapply Unchanged_positionKept; [apply handleElementAdded_frame | exact Hk].
    + destruct refChild; exact Hk.
  - destruct (_ && _); [| exact Hk].
    eapply Unchanged_positionKept; [apply handleElementRemoved_frame | exact Hk].
  - destruct (Host.scrollListener _); [| exact Hk].
    unfold handleScroll. destruct (negb _); exact Hk.
  - generalize (Host.frameQueue (host w)). intros n.
    induction n as [| n IH]; [exact Hk |].
    change (Nat.iter (S n) frameCallback (updHost (Host.set_frameQueue 0%nat) w))
      with (frameCallback (Nat.iter n frameCallback
                             (updHost (Host.set_frameQueue 0%nat) w))).
    unfold frameCallback.
    match goal with
    | |- context [updateVisibleElements ?w0] =>
        pose proof (Unchanged_positionKept p0 _ _
                      (proj1 (updateVisibleElements_frame w0)) IH) as H
    end.
    exact H.
  - exact Hk.
  - destruct (remeasure_facts w) as (_ & _ & _ & _ & _ & Hv & _).
    apply vbStatic_inv in Hv. destruct Hv as (_ & Ho & _).
    rewrite Ho, remeasure_stylePosition. exact Hk.
  - destruct (destroy_position w) as [Ho Hp]. rewrite Ho, Hp.
    destruct Hk as [Hk | [Hk1 Hk2]]; [now left |].
    right. rewrite Hk1. split; [reflexivity | exact Hk2].
Qed.

Lemma constructor_tail_positionKept (p0 : string) (w0 : World) :
  positionKept p0 w0 ->
  positionKept p0
    (updateSizer
       (updateVisibleElements
          (updHost (Host.set_scrollListener true) (discoverInitialElements w0)))).
Proof.
  intros Hk.
  apply (Unchanged_positionKept _ _ _ (proj1 (updateSizer_frame _))).
  apply (Unchanged_positionKept _ _ _ (proj1 (updateVisibleElements_frame _))).
  exact (Unchanged_positionKept _ _ _ (proj1 (discoverInitialElements_facts w0)) Hk).
Qed.

Lemma constructor_positionKept (h : Host.t) (customMeasureFn : option MeasureFunction) :
  positionKept (Host.stylePosition h) (constructor h customMeasureFn).
Proof.
  unfold constructor.
  destruct (String.eqb (Host.computedPosition h) "static");
    cbv beta iota zeta delta [Host.createElement];
    apply constructor_tail_positionKept.
  - left. reflexivity.
  - right. split; reflexivity.
Qed.

(** X26.  Whatever happened in between, [destroy] gives the container
    back the inline [position] it had before the manager was
    constructed, takes the scroll listener and the three overrides
    off, and forgets every item, the sizer and the offsets. *)
Theorem destroy_undoes_construction (h : Host.t)
    (customMeasureFn : option MeasureFunction) (events : list Event) :
  let w := destroy (run (constructor h customMeasureFn) events) in
  Host.stylePosition (host w) = Host.stylePosition h /\
  Host.scrollListener (host w) = false /\
  Host.intercepted (host w) = false /\
  elements (vb w) = [] /\
  currentlyVisibleElements (vb w) = [] /\
  kdTree (vb w) = KDTree.Null /\
  sizerElement (vb w) = None /\
  virtualScrollTop (vb w) = 0 /\ virtualScrollLeft (vb w) = 0 /\
  totalVirtualHeight (vb w) = 0 /\
  totalVirtualWidth (vb w) = Host.clientWidth (host w).
Proof.
  cbv zeta.
  assert (Hk : positionKept (Host.stylePosition h) (run (constructor h customMeasureFn) events)).
  { unfold run. apply fold_left_invariant.
    - apply constructor_positionKept.
    - intros a b Ha. apply step_positionKept, Ha. }
  set (w := run (constructor h customMeasureFn) events) in *. clearbody w.
  split.
  - destruct (destroy_position w) as [_ Hp]. rewrite Hp.
    destruct Hk as [-> | [-> Hk]]; [reflexivity | exact Hk].
  - unfold destroy.
    match goal with
    | |- context [fold_left detachVisible ?l ?w0] =>
        destruct (fold_detachVisible_frame l w0) as ((Hd1 & _) & _ & _);
        set (w1 := fold_left detachVisible l w0) in *
    end.
    apply hostStatic_inv in Hd1.
    destruct Hd1 as (_ & _ & Hcw & _ & _ & _ & Hsl & _).
    simpl in Hsl, Hcw. clearbody w1. cbv zeta.
    destruct (sizerElement (vb w1)) as [sizer |] eqn:Hsz; simpl; rewrite ?Hsz; simpl;
      [destruct (existsb (Nat.eqb sizer) (Host.children (host w1))) |];
      simpl;
      destruct (originalParentPosition (vb w1)); simpl;
      repeat split; try reflexivity; exact Hsl.
Qed.


(** What [destroy] leaves: a host without listener and overrides, and
    the manager's fields reset. *)
Lemma destroy_fields (w : World) :
  vb (destroy w)
  = mk (measureFunction (vb w)) KDTree.Null [] 0 0
       (Host.clientWidth (host (destroy w))) 0
       (nextElementId (vb w)) (originalParentPosition (vb w)) [] None
       (updateQueued (vb w)) /\
  Host.intercepted (host (destroy w)) = false /\
  Host.scrollListener (host (destroy w)) = false /\
  match originalParentPosition (vb w) with
  | Some p => Host.stylePosition (host (destroy w)) = p
  | None => True
  end.
Proof.
  unfold destroy.
  match goal with
  | |- context [fold_left detachVisible ?l ?w0] =>
      destruct (fold_detachVisible_frame l w0) as ((Hd1 & _) & Hd3 & _);
      set (w1 := fold_left detachVisible l w0) in *
  end.
  apply hostStatic_inv in Hd1. destruct Hd1 as (_ & _ & _ & _ & _ & _ & Hsl & _).
  simpl in Hsl, Hd3. clearbody w1. cbv zeta.
  assert (Hop : originalParentPosition (vb w1) = originalParentPosition (vb w))
    by (rewrite Hd3; reflexivity).
  assert (Hvb : forall cw,
             set_sizerElement None
               (set_totalVirtualWidth cw
                  (set_totalVirtualHeight 0
                     (set_virtualScrollTop 0
                        (set_virtualScrollLeft 0
                           (set_kdTree KDTree.Null
                              (set_elements []
                                 (set_currentlyVisibleElements [] (vb w1))))))))
             = mk (measureFunction (vb w)) KDTree.Null [] 0 0 cw 0
                  (nextElementId (vb w)) (originalParentPosition (vb w)) [] None
                  (updateQueued (vb w))).
  { intros cw. rewrite Hd3. reflexivity. }
  destruct (sizerElement (vb w1)) as [sizer |] eqn:Hsz; simpl; rewrite ?Hsz; simpl;
    [destruct (existsb (Nat.eqb sizer) (Host.children (host w1))) |];
    simpl; rewrite Hop;
    destruct (originalParentPosition (vb w)) eqn:E; simpl; rewrite Hvb, ?E;
    (split; [reflexivity |]); (split; [reflexivity |]); split;
    first [exact Hsl | reflexivity | exact I].
Qed.

Lemma World_ext (a b : World) :
  host a = host b -> objects a = objects b -> nextObject a = nextObject b ->
  vb a = vb b -> a = b.
Proof. destruct a, b. simpl. intros -> -> -> ->. reflexivity. Qed.

(** X27.  [destroy] is final.  A second [destroy] only writes its log
    line again; [appendChild], [insertBefore] and [removeChild] are
    the host's own again; a scroll event no longer reaches the
    manager; and the queries report nothing. *)
Theorem destroy_is_final (w : World) :
  let d := destroy w in
  destroy d = updHost (Host.warn "Virtualboy instance destroyed.") d /\
  (forall n, step d (AppendChild n) = updHost (Host.originalAppendChild n) d) /\
  (forall n refChild,
     step d (InsertBefore n refChild) = updHost (Host.originalInsertBefore n refChild) d) /\
  (forall n, step d (RemoveChild n) = updHost (Host.originalRemoveChild n) d) /\
  (forall newTop newLeft,
     step d (ScrollTo newTop newLeft)
     = updHost (fun h => Host.set_scrollLeft newLeft (Host.set_scrollTop newTop h)) d) /\
  getVisibleElements d = [] /\
  (forall q, getElementsForRect q d = []) /\
  (forall px py, getElementsAt px py d = []).
Proof.
  cbv zeta. destruct (destroy_fields w) as (Hv & Hin & Hsl & Hp).
  generalize dependent (originalParentPosition (vb w)). intros op.
  generalize (measureFunction (vb w)) (nextElementId (vb w)) (updateQueued (vb w)).
  intros mf ne uq.
  destruct (destroy w) as [h' o n v]. simpl. simpl in Hin, Hsl. intros Hv Hp. subst v.
  split; [| split; [| split; [| split; [| split; [| repeat split]]]]].
  - unfold destroy. simpl. destruct h'. simpl in Hin, Hsl, Hp.
    destruct op; apply World_ext; simpl; subst; reflexivity.
  - intros m. cbn [step host]. rewrite Hin. reflexivity.
  - intros m rc. cbn [step host]. rewrite Hin. reflexivity.
  - intros m. cbn [step host]. rewrite Hin. reflexivity.
  - intros t l. cbn [step host updHost]. simpl. rewrite Hsl. reflexivity.
Qed.

End Destroying.

(** ** Generated ids, the queries, and measuring *)

Section IdsAndQueries.
Import Virtualboy.

Lemma append_inj_r (p a b : string) : String.append p a = String.append p b -> a = b.
Proof.
  induction p as [| c p IH]; simpl; intros H; [exact H |].
  injection H as H. apply IH, H.
Qed.

Lemma string_of_nat_inj (n m : nat) :
  NilEmpty.string_of_uint (Nat.to_uint n) = NilEmpty.string_of_uint (Nat.to_uint m) ->
  n = m.
Proof.
  intros H. apply DecimalNat.Unsigned.to_uint_inj.
  pose proof (NilEmpty.usu (Nat.to_uint n)) as Hn.
  pose proof (NilEmpty.usu (Nat.to_uint m)) as Hm.
  rewrite H in Hn. congruence.
Qed.

(** X28.  Generated ids tell the counter apart: two calls of
    [generateId] give the same id exactly when the counter was the
    same, no generated id is empty, each call moves the counter on by
    one, and so the id of the next call differs. *)
Theorem generated_ids_are_distinct (w1 w2 : World) :
  (fst (generateId w1) = fst (generateId w2)
   <-> nextElementId (vb w1) = nextElementId (vb w2)) /\
  truthy (fst (generateId w1)) = true /\
  nextElementId (vb (snd (generateId w1))) = S (nextElementId (vb w1)) /\
  fst (generateId (snd (generateId w1))) <> fst (generateId w1).
Proof.
  assert (Hinj : forall a b : World,
             fst (generateId a) = fst (generateId b)
             -> nextElementId (vb a) = nextElementId (vb b)).
  { intros a b H. unfold generateId in H. cbn [fst] in H.
    apply append_inj_r in H. apply string_of_nat_inj, H. }
  split; [| split; [| split]].
  - split; [apply Hinj |]. intros H. unfold generateId. cbn [fst]. now rewrite H.
  - reflexivity.
  - reflexivity.
  - intros H. apply Hinj in H. simpl in H. lia.
Qed.

Lemma getVisibleElements_acc (w : World) (l : list string) :
  forall acc,
    let step := fun visibleHtmlElements id =>
      match JsMap.get (elements (vb w)) id with
      | Some virtualElement =>
          if VirtualElement.isVisible (objects w virtualElement)
          then visibleHtmlElements ++ [VirtualElement.element (objects w virtualElement)]
          else visibleHtmlElements
      | None => visibleHtmlElements
      end in
    exists added,
      fold_left step l acc = acc ++ added /\
      (List.length added <= List.length l)%nat /\
      Forall (fun n => exists i r,
                In i l /\ JsMap.get (elements (vb w)) i = Some r /\
                VirtualElement.isVisible (objects w r) = true /\ n = nodeOf w r) added.
Proof.
  induction l as [| i l IH]; intros acc; cbv zeta; simpl.
  - exists []. rewrite app_nil_r. split; [reflexivity |]. split; [simpl; lia | constructor].
  - destruct (JsMap.get (elements (vb w)) i) as [r |] eqn:Hg.
    + destruct (VirtualElement.isVisible (objects w r)) eqn:Hv.
      * destruct (IH (acc ++ [VirtualElement.element (objects w r)]))
          as (added & H1 & H2 & H3).
        exists (VirtualElement.element (objects w r) :: added).
        cbv zeta in H1. rewrite H1, <- app_assoc. simpl.
        split; [reflexivity |]. split; [lia |]. constructor.
        -- exists i, r. repeat split; auto.
        -- eapply Forall_impl; [| exact H3].
           intros n (i' & r' & Hi' & Hr'). exists i', r'. split; [now right | exact Hr'].
      * destruct (IH acc) as (added & H1 & H2 & H3). exists added.
        split; [exact H1 |]. split; [lia |].
        eapply Forall_impl; [| exact H3].
        intros n (i' & r' & Hi' & Hr'). exists i', r'. split; [now right | exact Hr'].
    + destruct (IH acc) as (added & H1 & H2 & H3). exists added.
      split; [exact H1 |]. split; [lia |].
      eapply Forall_impl; [| exact H3].
      intros n (i' & r' & Hi' & Hr'). exists i', r'. split; [now right | exact Hr'].
Qed.

(** X29.  The three queries report nodes of the manager's items only.
    [getElementsForRect] reports nodes of indexed items whose
    rectangle intersects the query rectangle; [getElementsAt] nodes of
    indexed items whose box, far edges left out, holds the point;
    [getVisibleElements] nodes of items that are marked visible and
    filed under an id of the visible-id set, at most one per id. *)
Theorem queries_report_item_nodes (w : World) :
  (forall q,
     Forall (fun n => exists r,
               In r (KDTree.elements (kdTree (vb w))) /\ n = nodeOf w r /\
               KDTree.intersects (rectOf w r) q = true)
            (getElementsForRect q w)) /\
  (forall px py,
     Forall (fun n => exists r,
               In r (KDTree.elements (kdTree (vb w))) /\ n = nodeOf w r /\
               Rect.x (rectOf w r) <= px < Rect.x (rectOf w r) + Rect.width (rectOf w r) /\
               Rect.y (rectOf w r) <= py < Rect.y (rectOf w r) + Rect.height (rectOf w r))
            (getElementsAt px py w)) /\
  Forall (fun n => exists i r,
            In i (currentlyVisibleElements (vb w)) /\
            JsMap.get (elements (vb w)) i = Some r /\
            VirtualElement.isVisible (objects w r) = true /\ n = nodeOf w r)
         (getVisibleElements w) /\
  (List.length (getVisibleElements w)
   <= List.length (currentlyVisibleElements (vb w)))%nat.
Proof.
  split; [| split].
  - intros q. apply Forall_forall. intros n Hn.
    unfold getElementsForRect in Hn. apply in_map_iff in Hn.
    destruct Hn as (r & Hr & Hin). exists r.
    unfold KDTree.queryRange in Hin.
    apply queryRangeNode_intersecting in Hin. destruct Hin as [[] | [H1 H2]].
    repeat split; auto.
  - intros px py. apply Forall_forall. intros n Hn.
    unfold getElementsAt in Hn. apply in_map_iff in Hn.
    destruct Hn as (r & Hr & Hin). exists r.
    destruct (queryPoint_sound _ _ _ _ _ Hin) as (H1 & [H2 _] & [H3 _]).
    destruct (queryPoint_short_of_far_edges _ _ _ _ _ Hin) as [H4 H5].
    repeat split; auto.
  - unfold getVisibleElements.
    destruct (getVisibleElements_acc w (currentlyVisibleElements (vb w)) [])
      as (added & H1 & H2 & H3).
    cbv zeta in H1. rewrite H1. simpl. split; assumption.
Qed.

End IdsAndQueries.

Section Measuring.

(** X30.  [measureElement] puts back the five style attributes it
    changes, whatever the two host functions it is handed do.  Handed
    the host's own [appendChild] and [removeChild] it returns the
    element's offset size and leaves the element out of the container
    with the style it came with, and every other node and child as
    they were.  With a custom measure function [getElementDimensions]
    returns what that function gives and leaves the host alone. *)
Theorem measureElement_restores_element (element : NodeRef) (h : Host.t) :
  (forall originalAppend originalRemove,
     let s := HTMLElement.style (Host.nodes h element) in
     let s' := HTMLElement.style
                 (Host.nodes (snd (Measure.measureElement element originalAppend
                                     originalRemove h)) element) in
     Style.position s' = Style.position s /\
     Style.visibility s' = Style.visibility s /\
     Style.display s' = Style.display s /\
     Style.left s' = Style.left s /\
     Style.top s' = Style.top s) /\
  (let r := Measure.getElementDimensions element Host.originalAppendChild
              Host.originalRemoveChild None h in
   fst r = Dimensions.mk (HTMLElement.offsetWidth (Host.nodes h element))
                         (HTMLElement.offsetHeight (Host.nodes h element)) /\
   HTMLElement.style (Host.nodes (snd r) element)
   = HTMLElement.style (Host.nodes h element) /\
   (forall n, n <> element -> Host.nodes (snd r) n = Host.nodes h n) /\
   Host.children (snd r) = Host.without element (Host.children h)) /\
  (forall f originalAppend originalRemove,
     Measure.getElementDimensions element originalAppend originalRemove (Some f) h
     = (f (Host.nodes h element), h)).
Proof.
  split; [| split].
  - intros originalAppend originalRemove. cbv zeta.
    unfold Measure.measureElement. simpl. rewrite Nat.eqb_refl. simpl.
    repeat split; reflexivity.
  - cbv zeta. unfold Measure.getElementDimensions, Measure.measureElement. simpl.
    rewrite !Nat.eqb_refl. simpl.
    split; [reflexivity |]. split; [| split].
    + destruct (HTMLElement.style (Host.nodes h element)). reflexivity.
    + intros n Hn. apply Nat.eqb_neq in Hn. rewrite Hn. reflexivity.
    + apply without_append_same.
  - intros f originalAppend originalRemove. reflexivity.
Qed.

End Measuring.

(** ** The manager on concrete inputs *)

Section ManagerOnInputs.
Import Virtualboy Fixture.

Lemma refresh_attaches_entering_item_witness :
  let w := renderWorld 0 0 0 0 (Rect.mk 0 0 100 100) in
  VirtualElement.isVisible (objects (updateVisibleElements w) 0%nat) = true /\
  In (nodeOf w 0%nat) (Host.children (host (updateVisibleElements w))).
Proof.
  cbv zeta.
  apply (refresh_attaches_entering_item (renderWorld 0 0 0 0 (Rect.mk 0 0 100 100)) 0%nat).
  - vm_compute. now left.
  - vm_compute. reflexivity.
Defined.

Lemma refresh_detaches_leaving_item_witness :
  let w := scrolledAway 5000 in
  VirtualElement.isVisible (objects w 0%nat) = true /\
  VirtualElement.isVisible (objects (updateVisibleElements w) 0%nat) = false /\
  ~ In "el1"%string (currentlyVisibleElements (vb (updateVisibleElements w))) /\
  ~ In (nodeOf w 0%nat) (Host.children (host (updateVisibleElements w))).
Proof.
  cbv zeta. split; [vm_compute; reflexivity |].
  apply (refresh_detaches_leaving_item (scrolledAway 5000) "el1" 0%nat).
  - intros k r H.
    assert (He : elements (vb (scrolledAway 5000)) = [("el1"%string, 0%nat)])
      by (vm_compute; reflexivity).
    rewrite He in H. cbn [JsMap.get] in H.
    destruct (String.eqb "el1" k) eqn:E; [| discriminate H].
    apply String.eqb_eq in E. subst k.
    unfold idOf. unfold scrolledAway. simpl. destruct (r =? 0)%nat; reflexivity.
  - vm_compute. reflexivity.
  - vm_compute. now left.
  - vm_compute. reflexivity.
  - vm_compute. intros [].
  - intros a Ha. exfalso. revert Ha. vm_compute. intros [].
Defined.

Lemma add_stacks_new_item_below_witness :
  let w := constructor emptyHost None in
  let w' := handleElementAdded 1%nat None false w in
  totalVirtualHeight (vb w') = totalVirtualHeight (vb w)
                               + Dimensions.height (measured w 1%nat) /\
  JsMap.get (elements (vb w')) (idWhenAdded w 1%nat) = Some (nextObject w).
Proof.
  cbv zeta.
  assert (Hnew : untracked (constructor emptyHost None) 1%nat) by (vm_compute; reflexivity).
  pose proof (add_stacks_new_item_below 1%nat None false _ Hnew) as H. cbv zeta in H.
  destruct H as (H1 & _ & H3 & _). split; assumption.
Defined.



Lemma remove_recomputes_totals_witness :
  let w := run (constructor emptyHost None) [AppendChild 0%nat] in
  let w' := handleElementRemoved 0%nat w in
  totalVirtualHeight (vb w) = 100 /\
  (JsMap.values (elements (vb w')) = [] ->
   totalVirtualHeight (vb w') = 0 /\ totalVirtualWidth (vb w') = 0).
Proof.
  cbv zeta. split; [vm_compute; reflexivity |].
  assert (Ht : truthy (HTMLElement.id
                         (Host.nodes (host (run (constructor emptyHost None)
                                                [AppendChild 0%nat])) 0%nat)) = true)
    by (vm_compute; reflexivity).
  assert (Hg : JsMap.get (elements (vb (run (constructor emptyHost None)
                                            [AppendChild 0%nat])))
                 (HTMLElement.id
                    (Host.nodes (host (run (constructor emptyHost None)
                                           [AppendChild 0%nat])) 0%nat))
               = Some 0%nat) by (vm_compute; reflexivity).
  pose proof (remove_recomputes_totals 0%nat _ 0%nat Ht Hg) as H. cbv zeta in H.
  destruct H as (_ & _ & _ & H4). exact H4.
Defined.


End ManagerOnInputs.
